(** * AudioRenderer: a streaming audio pipeline over an OpenAL-style device

    Shallow embedding of [src/audio.cpp]: the frame queue, the sample
    counters, the playback clock and the playback thread of
    [AudioRenderer], together with the properties the specification
    states about them.

    - C++ [int] is a 32-bit two's complement integer, kept as a [Z] with
      the wrap-around of each operation written out ([Int32]).
    - C++ [float] is IEEE-754 binary32, kept as a [spec_float] of the
      Standard Library with precision 24 and maximal exponent 128
      ([F32]); the operations round to nearest, ties to even.
    - [AudioFrame *] is an [option AudioFrame], [None] being [nullptr].
    - The functions of [AudioRenderer] live in a state monad [M] over the
      fields of the class; a call either returns, blocks (a mutex or a
      condition variable makes the caller wait) or faults (a null
      dereference, an exception nobody catches). *)

From Stdlib Require Import ZArith List Bool Lia QArith Qabs.
From Stdlib Require Import Floats.SpecFloat.
From stdpp Require Import base option list gmap.

Local Open Scope Z_scope.

(** ** 32-bit integers *)

Module Int32.

Definition min_int : Z := - 2 ^ 31.
Definition max_int : Z := 2 ^ 31 - 1.

Definition in_range (z : Z) : Prop := min_int <= z <= max_int.

(** The value an [int] holds after an operation whose exact result is
    [z]. *)
Definition wrap (z : Z) : Z := (z + 2 ^ 31) mod 2 ^ 32 - 2 ^ 31.

Definition add (a b : Z) : Z := wrap (a + b).
Definition sub (a b : Z) : Z := wrap (a - b).
Definition mul (a b : Z) : Z := wrap (a * b).
(** [/] of C++ truncates towards zero. *)
Definition div (a b : Z) : Z := wrap (Z.quot a b).

End Int32.

(** ** binary32 floating point *)

Module F32.

Definition prec : Z := 24.
Definition emax : Z := 128.

Definition zero : spec_float := S754_zero false.
Definition one : spec_float := Eval vm_compute in SFone prec emax.

(** Conversion of an [int] to [float]. *)
Definition of_int (z : Z) : spec_float := binary_normalize prec emax z 0 false.

Definition add : spec_float -> spec_float -> spec_float := SFadd prec emax.
Definition mul : spec_float -> spec_float -> spec_float := SFmul prec emax.
Definition div : spec_float -> spec_float -> spec_float := SFdiv prec emax.

Definition leb : spec_float -> spec_float -> bool := SFleb.
Definition ltb : spec_float -> spec_float -> bool := SFltb.

(** The rational number a finite float stands for. *)
Definition to_Q (x : spec_float) : option Q :=
  match x with
  | S754_zero _ => Some 0%Q
  | S754_finite s m e =>
      let v := if (0 <=? e)%Z then inject_Z (Zpos m * 2 ^ e)
               else Qmake (Zpos m) (Z.to_pos (2 ^ (- e))) in
      Some (if s then Qopp v else v)
  | _ => None
  end.

End F32.

(** ** Frames *)

Record AudioFrame := mkFrame {
  sampleCount : Z;
  sampleRate : Z;
  channelCount : Z;
  samples : list Z
}.

Definition numBuffers : nat := 5.

(** ** The output device *)

(** Modelled from the spec: the Output Device of section 6, which is the
    OpenAL library behind [al.h] and not part of the repository. One
    source with a queue of buffers; a buffer keeps the format, the data,
    the byte size and the sample rate it was last filled with, and
    reports one channel for the mono format and two for the stereo
    format; the device plays the queue in order while the source is
    playing, marks the buffers it has finished as processed and stops
    when it runs out of buffers. Every call succeeds, and each call that
    changes the device is recorded in [dev_trace]. *)
Module AL.

Inductive format := FORMAT_MONO16 | FORMAT_STEREO16.
Inductive source_state := INITIAL | PLAYING | STOPPED.

Record buffer := mkBuffer {
  buf_format : format;
  buf_data : list Z;
  buf_size : Z;
  buf_frequency : Z
}.

Inductive call :=
| BufferData (b : Z) (fmt : format) (data : list Z) (size freq : Z)
| SourceQueueBuffers (b : Z)
| SourceUnqueueBuffers (b : Z)
| SourcePlay
| SourceStop
| SourceDetach.

Record device := mkDevice {
  dev_buffers : gmap Z buffer;
  dev_queue : list Z;          (* buffers attached to the source, oldest first *)
  dev_processed : nat;         (* how many of them, from the head, are played *)
  dev_state : source_state;
  dev_trace : list call        (* calls received, oldest first *)
}.

Definition empty_buffer : buffer := mkBuffer FORMAT_MONO16 [] 0 0.

Definition get_buffer (d : device) (b : Z) : buffer :=
  default empty_buffer (dev_buffers d !! b).

Definition format_channels (f : format) : Z :=
  match f with FORMAT_MONO16 => 1 | FORMAT_STEREO16 => 2 end.

(** [alGetBufferi] for [AL_SIZE], [AL_CHANNELS], [AL_BITS] and
    [AL_FREQUENCY]. *)
Definition GetBuffer_SIZE (d : device) (b : Z) : Z := buf_size (get_buffer d b).
Definition GetBuffer_CHANNELS (d : device) (b : Z) : Z :=
  format_channels (buf_format (get_buffer d b)).
Definition GetBuffer_BITS (d : device) (b : Z) : Z := 16.
Definition GetBuffer_FREQUENCY (d : device) (b : Z) : Z :=
  buf_frequency (get_buffer d b).

(** [alGetSourcei] for [AL_BUFFERS_PROCESSED] and [AL_SOURCE_STATE]. *)
Definition GetSource_BUFFERS_PROCESSED (d : device) : Z := Z.of_nat (dev_processed d).
Definition GetSource_SOURCE_STATE (d : device) : source_state := dev_state d.

Definition record (c : call) (d : device) : device :=
  mkDevice (dev_buffers d) (dev_queue d) (dev_processed d) (dev_state d)
           (dev_trace d ++ [c]).

Definition alBufferData (b : Z) (fmt : format) (data : list Z) (size freq : Z)
    (d : device) : device :=
  let d := record (BufferData b fmt data size freq) d in
  mkDevice (<[b := mkBuffer fmt data size freq]> (dev_buffers d))
           (dev_queue d) (dev_processed d) (dev_state d) (dev_trace d).

Definition alSourceQueueBuffers (b : Z) (d : device) : device :=
  let d := record (SourceQueueBuffers b) d in
  mkDevice (dev_buffers d) (dev_queue d ++ [b]) (dev_processed d) (dev_state d)
           (dev_trace d).

(** Removes the oldest processed buffer from the queue and returns its
    name; without a processed buffer the call fails and nothing
    changes. *)
Definition alSourceUnqueueBuffers (d : device) : option (Z * device) :=
  match dev_processed d, dev_queue d with
  | S n, b :: q =>
      let d := record (SourceUnqueueBuffers b) d in
      Some (b, mkDevice (dev_buffers d) q n (dev_state d) (dev_trace d))
  | _, _ => None
  end.

Definition alSourcePlay (d : device) : device :=
  let d := record SourcePlay d in
  mkDevice (dev_buffers d) (dev_queue d) (dev_processed d) PLAYING (dev_trace d).

Definition alSourceStop (d : device) : device :=
  let d := record SourceStop d in
  mkDevice (dev_buffers d) (dev_queue d) (length (dev_queue d)) STOPPED (dev_trace d).

(** [alSourcei(source, AL_BUFFER, 0)]: detaches every buffer. *)
Definition alSource_BUFFER_0 (d : device) : device :=
  let d := record SourceDetach d in
  mkDevice (dev_buffers d) [] 0 (dev_state d) (dev_trace d).

(** The device finishes playing one more buffer; after the last one the
    source stops by itself (an underrun). [None] when the source is not
    playing. *)
Definition play_one (d : device) : option device :=
  match dev_state d with
  | PLAYING =>
      if (dev_processed d <? length (dev_queue d))%nat then
        let n := S (dev_processed d) in
        Some (mkDevice (dev_buffers d) (dev_queue d) n
                (if (n <? length (dev_queue d))%nat then PLAYING else STOPPED)
                (dev_trace d))
      else
        Some (mkDevice (dev_buffers d) (dev_queue d) (dev_processed d) STOPPED
                (dev_trace d))
  | _ => None
  end.

(** What [alGenBuffers] and [alGenSources] leave behind: the buffers
    named [names], all empty, and an idle source. *)
Definition init (names : list Z) : device :=
  mkDevice (list_to_map (map (fun b => (b, empty_buffer)) names)) [] 0 INITIAL [].

End AL.

(** ** The renderer *)

Record AudioRenderer := mkRenderer {
  audioQueue : list AudioFrame;
  queuedSampleCount : Z;
  bufferedSampleCount : Z;
  secondsPlayed : spec_float;
  buffers : list Z;
  mutex : bool;                 (* [true] while some thread holds the mutex *)
  device : AL.device
}.

Definition set_audioQueue q (r : AudioRenderer) : AudioRenderer :=
  mkRenderer q (queuedSampleCount r) (bufferedSampleCount r) (secondsPlayed r)
             (buffers r) (mutex r) (device r).
Definition set_queuedSampleCount n (r : AudioRenderer) : AudioRenderer :=
  mkRenderer (audioQueue r) n (bufferedSampleCount r) (secondsPlayed r)
             (buffers r) (mutex r) (device r).
Definition set_bufferedSampleCount n (r : AudioRenderer) : AudioRenderer :=
  mkRenderer (audioQueue r) (queuedSampleCount r) n (secondsPlayed r)
             (buffers r) (mutex r) (device r).
Definition set_secondsPlayed x (r : AudioRenderer) : AudioRenderer :=
  mkRenderer (audioQueue r) (queuedSampleCount r) (bufferedSampleCount r) x
             (buffers r) (mutex r) (device r).
Definition set_mutex b (r : AudioRenderer) : AudioRenderer :=
  mkRenderer (audioQueue r) (queuedSampleCount r) (bufferedSampleCount r)
             (secondsPlayed r) (buffers r) b (device r).
Definition set_device d (r : AudioRenderer) : AudioRenderer :=
  mkRenderer (audioQueue r) (queuedSampleCount r) (bufferedSampleCount r)
             (secondsPlayed r) (buffers r) (mutex r) d.

(** The renderer after its constructor and a successful [start()], which
    generated the buffers [names]. *)
Definition started (names : list Z) : AudioRenderer :=
  mkRenderer [] 0 0 F32.zero names false (AL.init names).

(** ** The monad of member functions *)

Inductive result (A : Type) :=
| Ok (a : A) (r : AudioRenderer)
| Blocked
| Fault.
Arguments Ok {A} a r.
Arguments Blocked {A}.
Arguments Fault {A}.

Definition M (A : Type) : Type := AudioRenderer -> result A.

#[global] Instance M_ret : MRet M := fun A a r => Ok a r.
#[global] Instance M_bind : MBind M := fun A B f m r =>
  match m r with
  | Ok a r' => f a r'
  | Blocked => Blocked
  | Fault => Fault
  end.

Definition get {A} (f : AudioRenderer -> A) : M A := fun r => Ok (f r) r.
Definition modify (f : AudioRenderer -> AudioRenderer) : M unit := fun r => Ok tt (f r).
Definition block {A} : M A := fun _ => Blocked.
Definition fault {A} : M A := fun _ => Fault.

(** A device call: the device is owned by the calling thread. *)
Definition al (f : AL.device -> AL.device) : M unit :=
  modify (fun r => set_device (f (device r)) r).

(** [pthread_mutex_lock]: the caller waits while the mutex is held. *)
Definition pthread_mutex_lock : M unit := fun r =>
  if mutex r then Blocked else Ok tt (set_mutex true r).
Definition pthread_mutex_unlock : M unit := modify (set_mutex false).
(** [pthread_cond_signal] wakes a waiting thread; a waiting [popFrame] is
    a blocked call that is run again, so nothing is stored. *)
Definition pthread_cond_signal : M unit := mret tt.

(** ** Member functions *)

(** The frame [pushFrame] allocates and fills. [reserve] throws when the
    product, converted to [size_t], is out of range, which is when the
    [int] product is negative: [None]. The caller must pass at least
    [sampleCount * channelCount] samples. *)
Definition newFrame (data : list Z) (count rate channels : Z) : option AudioFrame :=
  let shortCount := Int32.mul count channels in
  if shortCount <? 0 then None
  else Some (mkFrame count rate channels (take (Z.to_nat shortCount) data)).

Definition pushFrame (data : list Z) (count rate channels : Z) : M unit :=
  match newFrame data count rate channels with
  | None => fault
  | Some frame =>
      pthread_mutex_lock ;;
      modify (fun r => set_audioQueue (audioQueue r ++ [frame]) r) ;;
      modify (fun r => set_queuedSampleCount
                         (Int32.add (queuedSampleCount r) (frame.(sampleCount))) r) ;;
      pthread_cond_signal ;;
      pthread_mutex_unlock
  end.

(** [popFrame]. [wait_result] is what [pthread_cond_wait] returns should
    the call reach it: with [0] the thread sleeps with the mutex released
    and tests the queue again when woken, so the call blocks and changes
    nothing; with an error code the wait returns at once, the mutex still
    held, and [popFrame] returns [nullptr] without unlocking. *)
Definition popFrame (wait_result : Z) : M (option AudioFrame) :=
  pthread_mutex_lock ;;
  q ← get audioQueue ;
  match q with
  | [] => if wait_result =? 0 then block else mret None
  | frame :: rest =>
      modify (set_audioQueue rest) ;;
      modify (fun r => set_queuedSampleCount
                         (Int32.sub (queuedSampleCount r) (frame.(sampleCount))) r) ;;
      pthread_mutex_unlock ;;
      mret (Some frame)
  end.

Definition frame_format (frame : AudioFrame) : AL.format :=
  if frame.(channelCount) =? 1 then AL.FORMAT_MONO16 else AL.FORMAT_STEREO16.

Definition frame_size (frame : AudioFrame) : Z :=
  Int32.mul (Int32.mul frame.(sampleCount) frame.(channelCount)) 2.

(** [frame->sampleCount * 1.0f / frame->sampleRate] *)
Definition frame_seconds (frame : AudioFrame) : spec_float :=
  F32.div (F32.mul (F32.of_int frame.(sampleCount)) F32.one)
          (F32.of_int frame.(sampleRate)).

(** [consumeFrame]; a null [frame] is dereferenced in its first line. *)
Definition consumeFrame (buffer : Z) (frame : option AudioFrame) : M unit :=
  match frame with
  | None => fault
  | Some frame =>
      let format := frame_format frame in
      let size := frame_size frame in
      al (AL.alBufferData buffer format frame.(samples) size frame.(sampleRate)) ;;
      al (AL.alSourceQueueBuffers buffer) ;;
      pthread_mutex_lock ;;
      modify (fun r => set_bufferedSampleCount
                         (Int32.add (bufferedSampleCount r) frame.(sampleCount)) r) ;;
      modify (fun r => set_secondsPlayed
                         (F32.add (secondsPlayed r) (frame_seconds frame)) r) ;;
      pthread_mutex_unlock
  end.

(** [size * 8 / (channels * bits)] for the buffer [b] of the device. *)
Definition buffer_samples (d : AL.device) (b : Z) : Z :=
  Int32.div (Int32.mul (AL.GetBuffer_SIZE d b) 8)
            (Int32.mul (AL.GetBuffer_CHANNELS d b) (AL.GetBuffer_BITS d b)).

(** [waitForProcessedBuffer]: one poll of the device; while no buffer is
    processed the thread sleeps and polls again, so the call blocks. *)
Definition waitForProcessedBuffer : M Z :=
  processedCount ← get (fun r => AL.GetSource_BUFFERS_PROCESSED (device r)) ;
  if negb (0 <? processedCount) then block else
  d ← get device ;
  match AL.alSourceUnqueueBuffers d with
  | None => mret 0      (* CHECK_AL_ERRORS: return false *)
  | Some (buffer, d') =>
      modify (set_device d') ;;
      samples ← get (fun r => buffer_samples (device r) buffer) ;
      pthread_mutex_lock ;;
      modify (fun r => set_bufferedSampleCount
                         (Int32.sub (bufferedSampleCount r) samples) r) ;;
      pthread_mutex_unlock ;;
      mret buffer
  end.

Definition getSecondsPlayed : M spec_float :=
  pthread_mutex_lock ;;
  result ← get secondsPlayed ;
  pthread_mutex_unlock ;;
  mret result.

Definition resetSecondsPlayed : M unit :=
  pthread_mutex_lock ;;
  modify (set_secondsPlayed F32.zero) ;;
  pthread_mutex_unlock.

Definition getBufferSize : M Z :=
  pthread_mutex_lock ;;
  result ← get (fun r => Int32.add (bufferedSampleCount r) (queuedSampleCount r)) ;
  pthread_mutex_unlock ;;
  mret result.

(** ** The playback thread

    [audioThreadHandler] as a machine: the program counter names the next
    call of the function body, and carries the locals that are live
    there. A step runs that call to completion; a call that blocks leaves
    the machine where it is. *)

Inductive pc :=
| PrebufferPop (i : nat)                                  (* lines 231-232 *)
| PrebufferConsume (i : nat) (frame : option AudioFrame)  (* line 232 *)
| Play                                                    (* line 238 *)
| Wait                                                    (* line 243 *)
| Pop (buffer : Z)                                        (* line 244 *)
| Compare (buffer : Z) (frame : option AudioFrame)        (* lines 246-255 *)
| Consume (buffer : Z) (frame : AudioFrame)               (* line 257 *)
| Underrun                                                (* lines 261-266 *)
| Detach (frame : AudioFrame)                             (* line 270 *)
| Stop (frame : AudioFrame)                               (* line 273 *)
| RefillFirst (frame : AudioFrame)                        (* line 276 *)
| RefillPop (i : nat)                                     (* lines 278-279 *)
| RefillConsume (i : nat) (frame : option AudioFrame)     (* line 279 *)
| Crashed.

(** The renderer, its playback thread, and two history variables: the
    frames pushed so far and the frames handed to [consumeFrame] so far,
    each with the buffer it went to. *)
Record System := mkSystem {
  renderer : AudioRenderer;
  thread : pc;
  pushed : list AudioFrame;
  consumed : list (Z * AudioFrame)
}.

Definition boot (names : list Z) : System :=
  mkSystem (started names) (PrebufferPop 0) [] [].

Definition goto (p : pc) (sys : System) : System :=
  mkSystem (renderer sys) p (pushed sys) (consumed sys).

(** Runs a call of the thread and moves on to [k]. *)
Definition advance {A} (sys : System) (m : M A) (k : A -> pc) : option System :=
  match m (renderer sys) with
  | Ok a r => Some (mkSystem r (k a) (pushed sys) (consumed sys))
  | Blocked => None
  | Fault => Some (goto Crashed sys)
  end.

Definition consume (sys : System) (buffer : Z) (frame : option AudioFrame) (k : pc)
    : option System :=
  match consumeFrame buffer frame (renderer sys), frame with
  | Ok _ r, Some f => Some (mkSystem r k (pushed sys) (consumed sys ++ [(buffer, f)]))
  | Blocked, _ => None
  | _, _ => Some (goto Crashed sys)
  end.

(** [buffers[i]] *)
Definition buffer_at (r : AudioRenderer) (i : nat) : Z := default 0 (buffers r !! i).

Definition format_differs (d : AL.device) (buffer : Z) (frame : AudioFrame) : bool :=
  let rate := AL.GetBuffer_FREQUENCY d buffer in
  let channels := AL.GetBuffer_CHANNELS d buffer in
  negb (rate =? frame.(sampleRate)) || negb (channels =? frame.(channelCount)).

Definition is_playing (st : AL.source_state) : bool :=
  match st with AL.PLAYING => true | _ => false end.

Definition thread_step (wait_result : Z) (sys : System) : option System :=
  let r := renderer sys in
  match thread sys with
  | PrebufferPop i =>
      if (i <? numBuffers)%nat
      then advance sys (popFrame wait_result) (PrebufferConsume i)
      else Some (goto Play sys)
  | PrebufferConsume i frame =>
      consume sys (buffer_at r i) frame (PrebufferPop (S i))
  | Play => advance sys (al AL.alSourcePlay) (fun _ => Wait)
  | Wait => advance sys waitForProcessedBuffer Pop
  | Pop buffer => advance sys (popFrame wait_result) (Compare buffer)
  | Compare buffer None => Some (goto Crashed sys)
  | Compare buffer (Some frame) =>
      if format_differs (device r) buffer frame
      then Some (goto (Detach frame) sys)
      else Some (goto (Consume buffer frame) sys)
  | Consume buffer frame => consume sys buffer (Some frame) Underrun
  | Underrun =>
      let state := AL.GetSource_SOURCE_STATE (device r) in
      if negb (is_playing state)
      then advance sys (al AL.alSourcePlay) (fun _ => Wait)
      else Some (goto Wait sys)
  | Detach frame => advance sys (al AL.alSource_BUFFER_0) (fun _ => Stop frame)
  | Stop frame => advance sys (al AL.alSourceStop) (fun _ => RefillFirst frame)
  | RefillFirst frame => consume sys (buffer_at r 0) (Some frame) (RefillPop 1)
  | RefillPop i =>
      if (i <? numBuffers)%nat
      then advance sys (popFrame wait_result) (RefillConsume i)
      else Some (goto Play sys)
  | RefillConsume i frame =>
      consume sys (buffer_at r i) frame (RefillPop (S i))
  | Crashed => None
  end.

(** ** The whole system

    What can happen next: a producer calls [pushFrame], the playback
    thread takes a step ([wait_result] is what [pthread_cond_wait] would
    return), the device finishes a buffer, or the application calls
    [resetSecondsPlayed]. [step] is [None] when the event cannot happen
    in that state. *)

Inductive event :=
| EPush (data : list Z) (count rate channels : Z)
| EThread (wait_result : Z)
| EDevice
| EReset.

Definition step (e : event) (sys : System) : option System :=
  match e with
  | EPush data count rate channels =>
      match pushFrame data count rate channels (renderer sys),
            newFrame data count rate channels with
      | Ok _ r, Some frame =>
          Some (mkSystem r (thread sys) (pushed sys ++ [frame]) (consumed sys))
      | _, _ => None
      end
  | EThread wait_result => thread_step wait_result sys
  | EDevice =>
      d ← AL.play_one (device (renderer sys)) ;
      Some (mkSystem (set_device d (renderer sys)) (thread sys) (pushed sys) (consumed sys))
  | EReset =>
      match resetSecondsPlayed (renderer sys) with
      | Ok _ r => Some (mkSystem r (thread sys) (pushed sys) (consumed sys))
      | _ => None
      end
  end.

Fixpoint run (es : list event) (sys : System) : option System :=
  match es with
  | [] => Some sys
  | e :: es => sys' ← step e sys ; run es sys'
  end.

Definition reachable (names : list Z) (sys : System) : Prop :=
  exists es, run es (boot names) = Some sys.

(** ** Derived notions used by the statements *)

(** The sample data of the [alBufferData] calls of a trace, in order. *)
Definition submitted_data (t : list AL.call) : list (list Z) :=
  omap (fun c => match c with
                 | AL.BufferData _ _ data _ _ => Some data
                 | _ => None
                 end) t.

(** The frames the thread has popped and not yet handed to
    [consumeFrame]. *)
Definition pending (p : pc) : list AudioFrame :=
  match p with
  | PrebufferConsume _ (Some f) | Compare _ (Some f) | RefillConsume _ (Some f)
  | Consume _ f | Detach f | Stop f | RefillFirst f => [f]
  | _ => []
  end.

Definition sum_sampleCount (fs : list AudioFrame) : Z :=
  foldr (fun f acc => f.(sampleCount) + acc) 0 fs.

(** The frame last written into buffer [b], by the history of
    [consumeFrame] calls. *)
Definition frame_in (log : list (Z * AudioFrame)) (b : Z) : option AudioFrame :=
  snd <$> last (filter (fun x => fst x = b) log).

(** The frames resident in the device: those in the buffers attached to
    the source. *)
Definition resident (sys : System) : list AudioFrame :=
  omap (frame_in (consumed sys)) (AL.dev_queue (device (renderer sys))).

(** The formats (sample rate, channels) of the buffers attached to the
    source, as the device reports them. *)
Definition resident_formats (d : AL.device) : list (Z * Z) :=
  map (fun b => (AL.GetBuffer_FREQUENCY d b, AL.GetBuffer_CHANNELS d b)) (AL.dev_queue d).

(** A starved pipeline: five frames are prebuffered and played out, the
    source stops, and only then a sixth frame is pushed and submitted. *)
Definition starved_then_refilled : list event :=
  repeat (EPush [] 1024 44100 1) 5 ++ repeat (EThread 0) 12 ++ repeat EDevice 5 ++
  [EThread 0; EPush [] 1024 44100 1; EThread 0; EThread 0; EThread 0].

(** The thread is about to call [popFrame]. *)
Definition popping (p : pc) : bool :=
  match p with
  | PrebufferPop i | RefillPop i => (i <? numBuffers)%nat
  | Pop _ => true
  | _ => false
  end.

(** A format change: five mono frames at 44100 Hz are prebuffered and
    playback starts; the device finishes one buffer, the thread reclaims
    it, and the producer pushes [next]; the thread then runs through the
    transition and back to the head of the steady-state loop. *)
Definition format_change (next : list event) : list event :=
  repeat (EPush [] 1024 44100 1) 5 ++ repeat (EThread 0) 12 ++
  [EDevice; EThread 0] ++ next ++ repeat (EThread 0) 15.

(** What a call does to the queue and to the data the device has been
    given. *)
Definition same_queue (r r' : AudioRenderer) : Prop :=
  audioQueue r' = audioQueue r.
Definition same_data (r r' : AudioRenderer) : Prop :=
  submitted_data (AL.dev_trace (device r')) = submitted_data (AL.dev_trace (device r)).

(** The FIFO invariant: the frames pushed are, in order, those handed to
    [consumeFrame], then the one the thread holds, then the queue; and the
    device was given the data of exactly the frames handed to
    [consumeFrame], in that order. *)
Definition fifo (sys : System) : Prop :=
  pushed sys = (snd <$> consumed sys) ++ pending (thread sys) ++ audioQueue (renderer sys) /\
  submitted_data (AL.dev_trace (device (renderer sys))) = samples <$> (snd <$> consumed sys).

(** Ten frames with distinct samples, the sixth of another format: the
    first five are prebuffered, the sixth forces the transition and the
    last four refill the pool. *)
Definition ten_frames : list event :=
  [EPush [1] 1 44100 1; EPush [2] 1 44100 1; EPush [3] 1 44100 1;
   EPush [4] 1 44100 1; EPush [5] 1 44100 1] ++ repeat (EThread 0) 12 ++
  [EDevice; EThread 0] ++
  [EPush [6; 7] 1 48000 2; EPush [8] 1 44100 1; EPush [9] 1 44100 1;
   EPush [10] 1 44100 1; EPush [11] 1 44100 1] ++ repeat (EThread 0) 15.

(** ** The critical sections, statement by statement

    [pushFrame], [popFrame] and [getBufferSize] once more, this time one
    statement per step, so that the producers, the playback thread and a
    thread that asks for the pipeline depth interleave inside the calls
    and only the mutex keeps them apart. Each thread has a program
    counter; a step of a thread runs the statement it points at. *)

Inductive push_pc :=
| PushIdle                          (* not in [pushFrame] *)
| PushLock (frame : AudioFrame)     (* line 300 *)
| PushEnqueue (frame : AudioFrame)  (* line 303 *)
| PushCount (frame : AudioFrame)    (* line 306 *)
| PushSignal                        (* line 308 *)
| PushUnlock.                       (* line 309 *)

Inductive pop_pc :=
| PopIdle                           (* not in [popFrame] *)
| PopLock                           (* line 151 *)
| PopTest                           (* line 154 *)
| PopWaiting                        (* line 155, asleep, mutex released *)
| PopWoken                          (* line 155, woken, mutex not yet back *)
| PopFront                          (* lines 163-164 *)
| PopCount (frame : AudioFrame)     (* line 167 *)
| PopUnlock (frame : AudioFrame)    (* line 169 *)
| PopReturned (frame : option AudioFrame).

Inductive size_pc :=
| SizeIdle                          (* not in [getBufferSize] *)
| SizeLock                          (* line 331 *)
| SizeRead                          (* line 332 *)
| SizeUnlock (result : Z)           (* line 333 *)
| SizeReturned (result : Z).

Record Threads := mkThreads {
  shared : AudioRenderer;
  producers : list push_pc;
  consumer : pop_pc;
  reader : size_pc
}.

(** The scheduler's choice of what happens next. *)
Inductive choice :=
| CallPush (i : nat) (data : list Z) (count rate channels : Z)
| RunProducer (i : nat)
| CallPop
| RunConsumer (wait_result : Z)
| SpuriousWake
| CallSize
| RunReader.

Definition set_producer (i : nat) (p : push_pc) (t : Threads) : Threads :=
  mkThreads (shared t) (<[i := p]> (producers t)) (consumer t) (reader t).
Definition set_consumer (p : pop_pc) (t : Threads) : Threads :=
  mkThreads (shared t) (producers t) p (reader t).
Definition set_reader (p : size_pc) (t : Threads) : Threads :=
  mkThreads (shared t) (producers t) (consumer t) p.
Definition set_shared (r : AudioRenderer) (t : Threads) : Threads :=
  mkThreads r (producers t) (consumer t) (reader t).

Definition producer_step (i : nat) (p : push_pc) (t : Threads) : option Threads :=
  let r := shared t in
  match p with
  | PushIdle => None
  | PushLock frame =>
      if mutex r then None
      else Some (set_producer i (PushEnqueue frame) (set_shared (set_mutex true r) t))
  | PushEnqueue frame =>
      Some (set_producer i (PushCount frame)
              (set_shared (set_audioQueue (audioQueue r ++ [frame]) r) t))
  | PushCount frame =>
      Some (set_producer i PushSignal
              (set_shared (set_queuedSampleCount
                             (Int32.add (queuedSampleCount r) frame.(sampleCount)) r) t))
  | PushSignal =>
      Some (set_producer i PushUnlock
              (match consumer t with
               | PopWaiting => set_consumer PopWoken t
               | _ => t
               end))
  | PushUnlock =>
      Some (set_producer i PushIdle (set_shared (set_mutex false r) t))
  end.

Definition consumer_step (wait_result : Z) (t : Threads) : option Threads :=
  let r := shared t in
  match consumer t with
  | PopIdle | PopReturned _ | PopWaiting => None
  | PopLock | PopWoken =>
      if mutex r then None
      else Some (set_consumer PopTest (set_shared (set_mutex true r) t))
  | PopTest =>
      match audioQueue r with
      | [] =>
          if wait_result =? 0
          then Some (set_consumer PopWaiting (set_shared (set_mutex false r) t))
          else Some (set_consumer (PopReturned None) t)
      | _ :: _ => Some (set_consumer PopFront t)
      end
  | PopFront =>
      match audioQueue r with
      | [] => None
      | frame :: rest =>
          Some (set_consumer (PopCount frame) (set_shared (set_audioQueue rest r) t))
      end
  | PopCount frame =>
      Some (set_consumer (PopUnlock frame)
              (set_shared (set_queuedSampleCount
                             (Int32.sub (queuedSampleCount r) frame.(sampleCount)) r) t))
  | PopUnlock frame =>
      Some (set_consumer (PopReturned (Some frame)) (set_shared (set_mutex false r) t))
  end.

Definition reader_step (t : Threads) : option Threads :=
  let r := shared t in
  match reader t with
  | SizeIdle | SizeReturned _ => None
  | SizeLock =>
      if mutex r then None
      else Some (set_reader SizeRead (set_shared (set_mutex true r) t))
  | SizeRead =>
      Some (set_reader
              (SizeUnlock (Int32.add (bufferedSampleCount r) (queuedSampleCount r))) t)
  | SizeUnlock result =>
      Some (set_reader (SizeReturned result) (set_shared (set_mutex false r) t))
  end.

Definition interleave (c : choice) (t : Threads) : option Threads :=
  match c with
  | CallPush i data count rate channels =>
      match producers t !! i, newFrame data count rate channels with
      | Some PushIdle, Some frame => Some (set_producer i (PushLock frame) t)
      | _, _ => None
      end
  | RunProducer i => p ← producers t !! i ; producer_step i p t
  | CallPop =>
      match consumer t with
      | PopIdle | PopReturned _ => Some (set_consumer PopLock t)
      | _ => None
      end
  | RunConsumer wait_result => consumer_step wait_result t
  | SpuriousWake =>
      match consumer t with
      | PopWaiting => Some (set_consumer PopWoken t)
      | _ => None
      end
  | CallSize =>
      match reader t with
      | SizeIdle | SizeReturned _ => Some (set_reader SizeLock t)
      | _ => None
      end
  | RunReader => reader_step t
  end.

Fixpoint schedule (cs : list choice) (t : Threads) : option Threads :=
  match cs with
  | [] => Some t
  | c :: cs => t' ← interleave c t ; schedule cs t'
  end.

(** [n] producers, the playback thread and the reader, all outside the
    calls. *)
Definition idle (names : list Z) (n : nat) : Threads :=
  mkThreads (started names) (replicate n PushIdle) PopIdle SizeIdle.

Definition interleaving (names : list Z) (n : nat) (t : Threads) : Prop :=
  exists cs, schedule cs (idle names n) = Some t.

(** A thread between its lock and its unlock. *)
Definition push_holds (p : push_pc) : bool :=
  match p with
  | PushEnqueue _ | PushCount _ | PushSignal | PushUnlock => true
  | _ => false
  end.
Definition pop_holds (p : pop_pc) : bool :=
  match p with
  | PopTest | PopFront | PopCount _ | PopUnlock _ => true
  | _ => false
  end.

Definition size_holds (p : size_pc) : bool :=
  match p with
  | SizeRead | SizeUnlock _ => true
  | _ => false
  end.

Definition total (f : push_pc -> Z) (l : list push_pc) : Z :=
  foldr (fun p acc => f p + acc) 0 l.

Definition holders (t : Threads) : Z :=
  total (fun p => if push_holds p then 1 else 0) (producers t) +
  (if pop_holds (consumer t) then 1 else 0) +
  (if size_holds (reader t) then 1 else 0).

(** What a thread has done to the queue and not yet to the counter. *)
Definition push_owes (p : push_pc) : Z :=
  match p with PushCount frame => frame.(sampleCount) | _ => 0 end.
Definition pop_owes (p : pop_pc) : Z :=
  match p with PopCount frame => - frame.(sampleCount) | _ => 0 end.

Definition owed (t : Threads) : Z :=
  total push_owes (producers t) + pop_owes (consumer t).

(** The invariant of the interleavings: at most one thread is between
    its lock and its unlock, and then the mutex is held; the counter,
    corrected by what the thread inside owes, is the sum over the
    queue. *)
Definition consistent (t : Threads) : Prop :=
  0 <= holders t <= 1 /\
  (holders t = 1 -> mutex (shared t) = true) /\
  Int32.in_range (queuedSampleCount (shared t)) /\
  Int32.wrap (queuedSampleCount (shared t) + owed t) =
  Int32.wrap (sum_sampleCount (audioQueue (shared t))).

(** Two producers, the playback thread and the reader: the first push
    runs to its end while the others are already inside their calls,
    then the pop, then the second push, then the read. *)
Definition two_producers : list choice :=
  [CallPush 0 [7; 8] 2 44100 1; CallPush 1 [9] 1 44100 1; CallPop; CallSize] ++
  repeat (RunProducer 0) 5 ++ repeat (RunConsumer 0) 5 ++ repeat (RunProducer 1) 5 ++
  repeat RunReader 3.

(** One producer pushes two frames of 2147483647 samples and no channel,
    each call run to its end, and [getBufferSize] is then called and run
    to its end. *)
Definition two_long_frames : list choice :=
  [CallPush 0 [] 2147483647 44100 0] ++ repeat (RunProducer 0) 5 ++
  [CallPush 0 [] 2147483647 44100 0] ++ repeat (RunProducer 0) 5 ++
  [CallSize] ++ repeat RunReader 3.

(** ** Notions for the playback clock *)

Local Abbreviation fexp32 := (fexp F32.prec F32.emax).

(** The float a rounding step ends in, from its mantissa and exponent. *)
Definition rounded (s : bool) (m2 e2 : Z) : spec_float :=
  match m2 with
  | Z0 => S754_zero s
  | Zpos p => if e2 <=? 104 then S754_finite s p e2 else S754_infinity s
  | Zneg _ => S754_nan
  end.

(** A float that is not negative: a zero, a positive finite number or
    plus infinity; not a NaN. *)
Definition nonneg_float (x : spec_float) : Prop :=
  match x with
  | S754_zero _ | S754_infinity false | S754_finite false _ _ => True
  | _ => False
  end.

(** A clock value: not negative, and in the normal form of binary32. *)
Definition valid_clock (x : spec_float) : Prop :=
  nonneg_float x /\ valid_binary F32.prec F32.emax x = true.

(** A frame with a sample count that is not negative and a positive
    sample rate, both of them [int]s. *)
Definition playable (frame : AudioFrame) : Prop :=
  0 <= frame.(sampleCount) <= Int32.max_int /\
  0 < frame.(sampleRate) <= Int32.max_int.

Definition playable_push (e : event) : Prop :=
  match e with
  | EPush _ count rate _ => 0 <= count <= Int32.max_int /\ 0 < rate <= Int32.max_int
  | _ => True
  end.

(** What a step of the thread does to the queue, to the frame it holds,
    to the clock and to the history of consumed frames. *)
Inductive thread_effect (sys sys' : System) : Prop :=
| effect_pop (o : option AudioFrame) :
    pending (thread sys) = [] ->
    audioQueue (renderer sys) = from_option (fun f => [f]) [] o ++ audioQueue (renderer sys') ->
    pending (thread sys') = from_option (fun f => [f]) [] o ->
    secondsPlayed (renderer sys') = secondsPlayed (renderer sys) ->
    consumed sys' = consumed sys ->
    thread_effect sys sys'
| effect_consume (buffer : Z) (frame : AudioFrame) :
    pending (thread sys) = [frame] ->
    pending (thread sys') = [] ->
    audioQueue (renderer sys') = audioQueue (renderer sys) ->
    secondsPlayed (renderer sys') =
      F32.add (secondsPlayed (renderer sys)) (frame_seconds frame) ->
    consumed sys' = consumed sys ++ [(buffer, frame)] ->
    thread_effect sys sys'
| effect_other :
    pending (thread sys') = pending (thread sys) \/ pending (thread sys') = [] ->
    audioQueue (renderer sys') = audioQueue (renderer sys) ->
    secondsPlayed (renderer sys') = secondsPlayed (renderer sys) ->
    consumed sys' = consumed sys ->
    thread_effect sys sys'.

(** The clock is valid and every frame still to be consumed is
    playable. *)
Definition clock_inv (sys : System) : Prop :=
  valid_clock (secondsPlayed (renderer sys)) /\
  Forall playable (pending (thread sys) ++ audioQueue (renderer sys)).

(** ** Notions for the invariants of the playback thread *)

(** No [pthread_cond_wait] fails. *)
Definition wait_succeeds (e : event) : Prop :=
  match e with EThread wait_result => wait_result = 0 | _ => True end.

(** The thread has not crashed and holds no null frame. *)
Definition healthy (p : pc) : bool :=
  match p with
  | PrebufferConsume _ None | Compare _ None | RefillConsume _ None | Crashed => false
  | _ => true
  end.

(** The mutex is held between two calls only after a failed wait. *)
Definition leak (sys : System) : Prop :=
  mutex (renderer sys) = negb (healthy (thread sys)).

(** The source has never been started. *)
Definition quiet (d : AL.device) : Prop :=
  AL.dev_state d = AL.INITIAL /\ AL.dev_processed d = 0%nat /\
  (AL.SourcePlay ∉ AL.dev_trace d).

(** While the thread prebuffers, it has submitted as many frames as its
    loop counter says and the source is quiet; past the prebuffering it
    has submitted [numBuffers] frames or more. *)
Definition gate (sys : System) : Prop :=
  match thread sys with
  | PrebufferPop i | PrebufferConsume i _ =>
      length (consumed sys) = i /\ quiet (device (renderer sys))
  | Crashed =>
      quiet (device (renderer sys)) \/ (numBuffers <= length (consumed sys))%nat
  | _ => (numBuffers <= length (consumed sys))%nat
  end.

(** ** Notions for the buffer pool *)

(** Where the buffers of the pool are, by the place the thread is at:
    while it fills the pool the source holds the first [i] buffers; in
    the steady-state loop the source holds all of them but the one the
    thread has reclaimed; and the source never reports more processed
    buffers than it holds. *)
Definition pool (names : list Z) (sys : System) : Prop :=
  let d := device (renderer sys) in
  buffers (renderer sys) = names /\
  (AL.dev_processed d <= length (AL.dev_queue d))%nat /\
  match thread sys with
  | PrebufferPop i | RefillPop i =>
      (i <= numBuffers)%nat /\ AL.dev_queue d = take i names
  | PrebufferConsume i _ | RefillConsume i _ =>
      (i < numBuffers)%nat /\ AL.dev_queue d = take i names
  | Play | Wait | Underrun => AL.dev_queue d ≡ₚ names
  | Pop b | Compare b _ | Consume b _ => b :: AL.dev_queue d ≡ₚ names
  | Stop _ | RefillFirst _ => AL.dev_queue d = []
  | Detach _ | Crashed => exists l, l ++ AL.dev_queue d ≡ₚ names
  end.

(** ** Notions for the runs in one format *)

(** A frame of the format [(rate, channels)] whose sample count is not
    negative and whose size in bits fits an [int]. *)
Definition in_format (rate channels : Z) (frame : AudioFrame) : Prop :=
  frame.(sampleRate) = rate /\ frame.(channelCount) = channels /\
  0 <= frame.(sampleCount) /\ frame.(sampleCount) * channels * 16 <= Int32.max_int.

Definition push_in_format (rate channels : Z) (e : event) : Prop :=
  match e with
  | EPush _ count r c =>
      r = rate /\ c = channels /\ 0 <= count /\ count * channels * 16 <= Int32.max_int
  | _ => True
  end.

(** The buffer [b] of the device was last filled with the frame [f]. *)
Definition holds (d : AL.device) (b : Z) (f : AudioFrame) : Prop :=
  AL.dev_buffers d !! b =
    Some (AL.mkBuffer (frame_format f) f.(samples) (frame_size f) f.(sampleRate)).

(** The buffer the thread has taken off the source and not yet given
    back. *)
Definition reclaimed (p : pc) : list Z :=
  match p with
  | Pop b | Compare b _ | Consume b _ => [b]
  | _ => []
  end.

(** The thread is in the part of its body that follows a format
    change, lines 269-280. *)
Definition format_change_path (p : pc) : bool :=
  match p with
  | Detach _ | Stop _ | RefillFirst _ | RefillPop _ | RefillConsume _ _ => true
  | _ => false
  end.

(** What holds along a run whose frames all have the format
    [(rate, channels)]. *)
Definition single_format (rate channels : Z) (sys : System) : Prop :=
  let d := device (renderer sys) in
  format_change_path (thread sys) = false /\
  (AL.SourceStop ∉ AL.dev_trace d) /\ (AL.SourceDetach ∉ AL.dev_trace d) /\
  Forall (in_format rate channels) (pending (thread sys) ++ audioQueue (renderer sys)) /\
  (forall b, b ∈ reclaimed (thread sys) ++ AL.dev_queue d ->
     exists f, frame_in (consumed sys) b = Some f /\ in_format rate channels f /\
               holds d b f) /\
  bufferedSampleCount (renderer sys) = sum_sampleCount (resident sys).



(** ** Notions for the wake-up of the playback thread *)

(** A producer that has put its frame in the queue and has not yet
    signalled the condition variable. *)
Definition push_unsignalled (p : push_pc) : bool :=
  match p with
  | PushCount _ | PushSignal => true
  | _ => false
  end.

(** While the playback thread sleeps in [pthread_cond_wait], either the
    queue is empty or a producer is about to signal; and when it reaches
    [front()], the queue is not empty. *)
Definition awake (t : Threads) : Prop :=
  (consumer t = PopWaiting ->
   audioQueue (shared t) = [] \/
   exists i p, producers t !! i = Some p /\ push_unsignalled p = true) /\
  (consumer t = PopFront -> audioQueue (shared t) <> []).

(** ** The C interface

    The functions of the [extern "C"] block, over the two globals of the
    file: the renderer, here with its playback thread, and the vector
    [prebuffer]. A [double] is IEEE-754 binary64, a [spec_float] with
    precision 53 and maximal exponent 1024 ([F64]). *)

Module F64.

Definition prec : Z := 53.
Definition emax : Z := 1024.

Definition of_int (z : Z) : spec_float := binary_normalize prec emax z 0 false.
Definition mul : spec_float -> spec_float -> spec_float := SFmul prec emax.

End F64.

(** The literal [32767.0]. *)
Definition full_scale : spec_float := Eval vm_compute in F64.of_int 32767.

(** [(int16_t)x] for a [double] [x]: the value is truncated towards
    zero; the conversion is undefined when the truncated value is not an
    [int16_t], and for an infinity or a NaN: [None]. *)
Definition to_int16 (x : spec_float) : option Z :=
  match x with
  | S754_zero _ => Some 0
  | S754_finite s m e =>
      let t := if 0 <=? e then Zpos m * 2 ^ e else Zpos m / 2 ^ (- e) in
      let v := if s then - t else t in
      if (-32768 <=? v) && (v <=? 32767) then Some v else None
  | _ => None
  end.

Record Program := mkProgram {
  audioRenderer : System;
  prebuffer : list Z
}.

(** A call of the interface returns, waits for the mutex, or has no
    defined behaviour. *)
Inductive outcome :=
| Returns (p : Program)
| Waits
| Undefined.

(** The program after [audio_init()], when [start()] succeeded and
    generated the buffers [names]. *)
Definition audio_init (names : list Z) : Program := mkProgram (boot names) [].

(** [audio_feed_sample]; the call of [pushFrame] is the push event of
    the system, which also records the frame in [pushed]. *)
Definition audio_feed_sample (sample : spec_float) (p : Program) : outcome :=
  match to_int16 (F64.mul sample full_scale) with
  | None => Undefined
  | Some v =>
      let prebuffer' := prebuffer p ++ [v] in
      if (length prebuffer' =? 1024)%nat then
        match step (EPush prebuffer' 1024 44100 1) (audioRenderer p) with
        | Some sys => Returns (mkProgram sys [])
        | None => Waits
        end
      else Returns (mkProgram (audioRenderer p) prebuffer')
  end.


(** What can happen next in a program that uses the interface: it feeds
    a sample, the playback thread takes a step, or the device finishes a
    buffer. *)
Inductive c_event :=
| CFeed (sample : spec_float)
| CThread (wait_result : Z)
| CDevice.

Definition c_step (e : c_event) (p : Program) : option Program :=
  match e with
  | CFeed sample =>
      match audio_feed_sample sample p with
      | Returns p' => Some p'
      | _ => None
      end
  | CThread wait_result =>
      sys ← thread_step wait_result (audioRenderer p) ;
      Some (mkProgram sys (prebuffer p))
  | CDevice =>
      sys ← step EDevice (audioRenderer p) ;
      Some (mkProgram sys (prebuffer p))
  end.

Fixpoint c_run (es : list c_event) (p : Program) : option Program :=
  match es with
  | [] => Some p
  | e :: es => p' ← c_step e p ; c_run es p'
  end.

(** The samples fed by a sequence of events, as [int16_t]. *)
Definition fed (es : list c_event) : list Z :=
  omap (fun e => match e with
                 | CFeed sample => to_int16 (F64.mul sample full_scale)
                 | _ => None
                 end) es.

(** A frame as [audio_feed_sample] pushes them. *)
Definition fed_frame (frame : AudioFrame) : Prop :=
  frame.(sampleCount) = 1024 /\ frame.(sampleRate) = 44100 /\
  frame.(channelCount) = 1 /\ length frame.(samples) = 1024%nat.

(** The events of the system behind an event of the interface. *)
Definition c_wait_succeeds (e : c_event) : Prop :=
  match e with CThread wait_result => wait_result = 0 | _ => True end.

(** 2050 samples of silence are fed, the thread takes the two frames,
    and one more sample is fed. *)
Definition silence : list c_event :=
  repeat (CFeed (S754_zero false)) 2048 ++ repeat (CThread 0) 4 ++
  repeat (CFeed (S754_zero false)) 2.


(** [1.0] as a [double]. *)
Definition unit_sample : spec_float := Eval vm_compute in F64.of_int 1.

(** A [double] of magnitude at most one. *)
Definition in_unit_range (sample : spec_float) : Prop :=
  valid_binary F64.prec F64.emax sample = true /\
  SFleb (SFabs sample) unit_sample = true.

(** ** Starting the renderer

    [start()] over the handles the object keeps. The library behind
    [al.h] and [alc.h] is not part of the repository: what its calls
    return, and what [alcGetError] and [alGetError] report after each
    of them, is given by a [Library]; [0] is [NULL] for the handles and
    [AL_NO_ERROR] for the errors. *)

Record Handles := mkHandles {
  alc_device : Z;        (* the member [device] *)
  context : Z;
  generated : list Z;    (* the member [buffers] *)
  source : Z;
  threads : nat          (* playback threads created so far *)
}.

Record Library := mkLibrary {
  alcOpenDevice : Z;
  alcCreateContext : Z;
  alGenBuffers : list Z;
  alGenSources : Z;
  error_OpenDevice : Z;
  error_CreateContext : Z;
  error_MakeContextCurrent : Z;
  error_Listenerf : Z;
  error_DistanceModel : Z;
  error_GenBuffers : Z;
  error_GenSources : Z
}.

(** The object after its constructor. *)
Definition constructed : Handles := mkHandles 0 0 [] 0 0.

(** [CHECK_ALC_ERRORS] and [CHECK_AL_ERRORS]: with an error the function
    returns [false] at once. *)
Definition CHECK_ERRORS (error : Z) (h : Handles) (rest : bool * Handles)
    : bool * Handles :=
  if error =? 0 then rest else (false, h).

Definition pthread_create (h : Handles) : Handles :=
  mkHandles (alc_device h) (context h) (generated h) (source h) (S (threads h)).

Definition start (lib : Library) (h : Handles) : bool * Handles :=
  if negb (context h =? 0) then (true, h) else
  let h := mkHandles (alcOpenDevice lib) (context h) (generated h) (source h) (threads h) in
  CHECK_ERRORS (error_OpenDevice lib) h (
  let h := mkHandles (alc_device h) (alcCreateContext lib) (generated h) (source h)
             (threads h) in
  CHECK_ERRORS (error_CreateContext lib) h (
  CHECK_ERRORS (error_MakeContextCurrent lib) h (
  CHECK_ERRORS (error_Listenerf lib) h (
  CHECK_ERRORS (error_DistanceModel lib) h (
  let h := mkHandles (alc_device h) (context h) (alGenBuffers lib) (source h)
             (threads h) in
  CHECK_ERRORS (error_GenBuffers lib) h (
  let h := mkHandles (alc_device h) (context h) (generated h) (alGenSources lib)
             (threads h) in
  CHECK_ERRORS (error_GenSources lib) h (
  (true, pthread_create h)))))))).

(** No call of the library reports an error. *)
Definition no_error (lib : Library) : Prop :=
  error_OpenDevice lib = 0 /\ error_CreateContext lib = 0 /\
  error_MakeContextCurrent lib = 0 /\ error_Listenerf lib = 0 /\
  error_DistanceModel lib = 0 /\ error_GenBuffers lib = 0 /\ error_GenSources lib = 0.

(** A library whose [alListenerf] fails with [AL_INVALID_VALUE]. *)
Definition listener_fails : Library :=
  mkLibrary 1 2 [1; 2; 3; 4; 5] 1 0 0 0 40963 0 0 0.

(** ** Reading a [float] from four bytes *)

(** The [float] whose IEEE-754 binary32 representation is the 32-bit
    word [x]: one bit of sign, eight bits of exponent, 23 bits of
    mantissa. *)
Definition float_of_bits (x : Z) : spec_float :=
  let s := 2 ^ 31 <=? x in
  let e := (x / 2 ^ 23) mod 256 in
  let m := x mod 2 ^ 23 in
  if e =? 0 then
    match m with
    | Zpos p => S754_finite s p (-149)
    | _ => S754_zero s
    end
  else if e =? 255 then
    if m =? 0 then S754_infinity s else S754_nan
  else
    match m + 2 ^ 23 with
    | Zpos p => S754_finite s p (e - 150)
    | _ => S754_nan
    end.

(** [unpack_float]: the bytes are stored in [buf] in the order of the
    arguments and read back as a [float]; on the little-endian machines
    the program is built for, [a] is the least significant byte. *)
Definition unpack_float (a b c d : Z) : spec_float :=
  float_of_bits (a + 256 * b + 65536 * c + 16777216 * d).

Definition byte (a : Z) : Prop := 0 <= a <= 255.

(** ** Notions for the progress of the pipeline *)

(** Where the thread waits for a processed buffer and there is none,
    the source is playing. *)
Definition source_runs (sys : System) : Prop :=
  thread sys = Wait -> AL.dev_processed (device (renderer sys)) = 0%nat ->
  AL.dev_state (device (renderer sys)) = AL.PLAYING.

(** The invariants of a run in one format without a failed wait. *)
Definition steady (names : list Z) (rate channels : Z) (sys : System) : Prop :=
  leak sys /\ healthy (thread sys) = true /\ pool names sys /\
  single_format rate channels sys /\ source_runs sys.

(** The frames that are pushed and not yet submitted. *)
Definition in_flight (sys : System) : list AudioFrame :=
  pending (thread sys) ++ audioQueue (renderer sys).

(** How far the thread is from its next submission, in events. *)
Definition distance (sys : System) : nat :=
  match thread sys with
  | PrebufferConsume _ _ | Consume _ _ => 1
  | Compare _ _ => 2
  | PrebufferPop i => if (i <? numBuffers)%nat then 2 else 7
  | Pop _ => 3
  | Wait => match AL.dev_processed (device (renderer sys)) with O => 5 | S _ => 4 end
  | Play | Underrun => 6
  | _ => 0
  end.

Definition remaining (sys : System) : nat :=
  8 * length (in_flight sys) + distance sys.

(** The events that need no producer. *)
Definition autonomous (e : event) : Prop := e = EThread 0 \/ e = EDevice.

(** Eight frames are pushed and the thread has prebuffered five of
    them and started the source. *)
Definition three_queued : list event :=
  repeat (EPush [] 1024 44100 1) 8 ++ repeat (EThread 0) 12.

(** The thread fails in its first wait, with 1023 samples fed. *)
Definition wait_fails : list c_event :=
  [CThread 22] ++ repeat (CFeed (S754_zero false)) 1023.

(** * Properties *)

(** ** Arithmetic of [int] *)

Lemma wrap_in_range z : Int32.in_range z -> Int32.wrap z = z.
Proof.
  unfold Int32.in_range, Int32.wrap, Int32.min_int, Int32.max_int. intros H.
  rewrite Z.mod_small by lia. lia.
Qed.

Lemma wrap_range z : Int32.in_range (Int32.wrap z).
Proof.
  unfold Int32.in_range, Int32.wrap, Int32.min_int, Int32.max_int.
  pose proof (Z.mod_pos_bound (z + 2 ^ 31) (2 ^ 32)). lia.
Qed.

Lemma wrap_add_l a b : Int32.wrap (Int32.wrap a + b) = Int32.wrap (a + b).
Proof.
  unfold Int32.wrap. f_equal.
  replace ((a + 2 ^ 31) mod 2 ^ 32 - 2 ^ 31 + b + 2 ^ 31)
    with ((a + 2 ^ 31) mod 2 ^ 32 + b) by lia.
  rewrite Zplus_mod_idemp_l. f_equal. lia.
Qed.


Lemma wrap_idem a : Int32.wrap (Int32.wrap a) = Int32.wrap a.
Proof. apply wrap_in_range, wrap_range. Qed.

(** ** What single calls do *)

Lemma consumeFrame_ok buffer frame r :
  mutex r = false ->
  consumeFrame buffer (Some frame) r =
    Ok tt (mkRenderer (audioQueue r) (queuedSampleCount r)
             (Int32.add (bufferedSampleCount r) frame.(sampleCount))
             (F32.add (secondsPlayed r) (frame_seconds frame))
             (buffers r) false
             (AL.alSourceQueueBuffers buffer
                (AL.alBufferData buffer (frame_format frame) frame.(samples)
                   (frame_size frame) frame.(sampleRate) (device r)))).
Proof.
  intros Hm. unfold consumeFrame, al, modify, pthread_mutex_lock, pthread_mutex_unlock.
  unfold mbind, M_bind. simpl. rewrite Hm. reflexivity.
Qed.

Lemma pushFrame_ok data count rate channels frame r :
  newFrame data count rate channels = Some frame ->
  mutex r = false ->
  pushFrame data count rate channels r =
    Ok tt (mkRenderer (audioQueue r ++ [frame])
             (Int32.add (queuedSampleCount r) frame.(sampleCount))
             (bufferedSampleCount r) (secondsPlayed r) (buffers r) false (device r)).
Proof.
  intros Hf Hm. unfold pushFrame. rewrite Hf.
  unfold modify, pthread_mutex_lock, pthread_mutex_unlock, pthread_cond_signal.
  unfold mbind, M_bind, mret, M_ret. simpl. rewrite Hm. reflexivity.
Qed.

Lemma popFrame_ok wait_result frame rest r :
  audioQueue r = frame :: rest ->
  mutex r = false ->
  popFrame wait_result r =
    Ok (Some frame)
       (mkRenderer rest (Int32.sub (queuedSampleCount r) frame.(sampleCount))
          (bufferedSampleCount r) (secondsPlayed r) (buffers r) false (device r)).
Proof.
  intros Hq Hm. unfold popFrame, get, modify, pthread_mutex_lock, pthread_mutex_unlock.
  unfold mbind, M_bind, mret, M_ret. simpl. rewrite Hm. simpl. rewrite Hq. reflexivity.
Qed.

Lemma popFrame_empty wait_result r :
  audioQueue r = [] ->
  mutex r = false ->
  popFrame wait_result r =
    if wait_result =? 0 then Blocked else Ok None (set_mutex true r).
Proof.
  intros Hq Hm. unfold popFrame, get, block, pthread_mutex_lock.
  unfold mbind, M_bind, mret, M_ret. simpl. rewrite Hm. simpl. rewrite Hq.
  destruct (wait_result =? 0); reflexivity.
Qed.

Lemma popFrame_locked wait_result r : mutex r = true -> popFrame wait_result r = Blocked.
Proof.
  intros Hm. unfold popFrame, pthread_mutex_lock, mbind, M_bind. rewrite Hm. reflexivity.
Qed.

Lemma waitForProcessedBuffer_ok r buffer r' :
  mutex r = false ->
  (AL.dev_processed (device r) <= length (AL.dev_queue (device r)))%nat ->
  waitForProcessedBuffer r = Ok buffer r' ->
  exists n q,
    AL.dev_processed (device r) = S n /\
    AL.dev_queue (device r) = buffer :: q /\
    r' = mkRenderer (audioQueue r) (queuedSampleCount r)
           (Int32.sub (bufferedSampleCount r) (buffer_samples (device r) buffer))
           (secondsPlayed r) (buffers r) false
           (AL.mkDevice (AL.dev_buffers (device r)) q n (AL.dev_state (device r))
              (AL.dev_trace (device r) ++ [AL.SourceUnqueueBuffers buffer])).
Proof.
  intros Hm Hle. unfold waitForProcessedBuffer, get, block, modify.
  unfold pthread_mutex_lock, pthread_mutex_unlock, mbind, M_bind, mret, M_ret.
  unfold AL.GetSource_BUFFERS_PROCESSED, AL.alSourceUnqueueBuffers.
  destruct (AL.dev_processed (device r)) as [|n] eqn:Hp; simpl; [discriminate|].
  destruct (AL.dev_queue (device r)) as [|b q] eqn:Hq; simpl in *; [lia|].
  replace (0 <? Z.pos (Pos.of_succ_nat n)) with true by (symmetry; apply Z.ltb_lt; lia).
  simpl. rewrite Hp, Hm. intros H. injection H as <- <-.
  exists n, q. repeat split.
Qed.

(** ** Running the system from an explicit state *)

Lemma run_step e es sys sys1 : step e sys = Some sys1 -> run (e :: es) sys = run es sys1.
Proof. intros H. simpl. rewrite H. reflexivity. Qed.

(** Brings a state of the system back to its explicit form. *)
Ltac normalise :=
  cbv beta iota zeta delta
    [goto buffer_at set_audioQueue set_queuedSampleCount set_bufferedSampleCount
     set_secondsPlayed set_mutex set_device AL.alBufferData AL.alSourceQueueBuffers
     AL.alSourcePlay AL.alSourceStop AL.alSource_BUFFER_0 AL.record
     renderer thread pushed consumed audioQueue queuedSampleCount bufferedSampleCount
     secondsPlayed buffers mutex device AL.dev_buffers AL.dev_queue AL.dev_processed
     AL.dev_state AL.dev_trace].

(** Runs the next event from an explicit state. *)
Ltac thread_runs :=
  erewrite run_step;
    [|cbn -[Int32.add Int32.sub F32.add frame_seconds frame_size frame_format insert
            lookup default app take Z.to_nat]; reflexivity];
  normalise.

(** ** Submission format (C10) *)

(** C10. [consumeFrame] hands the frame to the device as 16-bit mono
    exactly when its channel count is 1 and as 16-bit stereo for every
    other channel count; the byte size it passes is
    [sampleCount * channelCount * 2] in [int] arithmetic; and the call
    goes through whatever the channel count is. *)
Theorem consumeFrame_mono_or_stereo buffer frame r :
  mutex r = false ->
  exists r' fmt size,
    consumeFrame buffer (Some frame) r = Ok tt r' /\
    AL.dev_trace (device r') =
      AL.dev_trace (device r) ++
        [AL.BufferData buffer fmt frame.(samples) size frame.(sampleRate);
         AL.SourceQueueBuffers buffer] /\
    (fmt = AL.FORMAT_MONO16 <-> frame.(channelCount) = 1) /\
    (fmt = AL.FORMAT_STEREO16 <-> frame.(channelCount) <> 1) /\
    size = Int32.mul (Int32.mul frame.(sampleCount) frame.(channelCount)) 2 /\
    (Int32.in_range (frame.(sampleCount) * frame.(channelCount) * 2) ->
     size = frame.(sampleCount) * frame.(channelCount) * 2).
Proof.
  intros Hm. eexists _, (frame_format frame), (frame_size frame).
  split; [apply (consumeFrame_ok _ _ _ Hm)|]. simpl.
  split; [rewrite <- app_assoc; reflexivity|].
  unfold frame_format, frame_size.
  assert (Hsize : Int32.in_range (sampleCount frame * channelCount frame * 2) ->
                  Int32.mul (Int32.mul (sampleCount frame) (channelCount frame)) 2 =
                  sampleCount frame * channelCount frame * 2).
  { intros Hr. unfold Int32.mul.
    assert (Hi : Int32.in_range (sampleCount frame * channelCount frame))
      by (unfold Int32.in_range, Int32.min_int, Int32.max_int in *; lia).
    rewrite (wrap_in_range _ Hi). apply wrap_in_range, Hr. }
  destruct (Z.eqb_spec (channelCount frame) 1) as [He|He];
    repeat split; try congruence; try (intros; discriminate); exact Hsize.
Qed.

Lemma consumeFrame_mono_or_stereo_witness :
  exists r' fmt size,
    consumeFrame 1 (Some (mkFrame 1024 44100 3 [])) (started [1; 2; 3; 4; 5]) = Ok tt r' /\
    AL.dev_trace (device r') =
      [AL.BufferData 1 fmt [] size 44100; AL.SourceQueueBuffers 1] /\
    (fmt = AL.FORMAT_MONO16 <-> 3 = 1) /\
    (fmt = AL.FORMAT_STEREO16 <-> 3 <> 1) /\
    size = Int32.mul (Int32.mul 1024 3) 2 /\
    (Int32.in_range (1024 * 3 * 2) -> size = 1024 * 3 * 2).
Proof.
  apply (consumeFrame_mono_or_stereo 1 (mkFrame 1024 44100 3 []) (started [1; 2; 3; 4; 5])).
  reflexivity.
Defined.

(** ** Round trip of the sample count through a buffer (C7) *)

Lemma buffer_samples_alBufferData b fmt data size freq d :
  buffer_samples (AL.alSourceQueueBuffers b (AL.alBufferData b fmt data size freq d)) b =
  Int32.div (Int32.mul size 8) (Int32.mul (AL.format_channels fmt) 16).
Proof.
  unfold buffer_samples, AL.GetBuffer_SIZE, AL.GetBuffer_CHANNELS, AL.GetBuffer_BITS.
  unfold AL.get_buffer. simpl. rewrite lookup_insert_eq. reflexivity.
Qed.

(** C7, as the code has it. For a frame of one or two channels whose
    size in bits, [sampleCount * channelCount * 16], fits an [int], the
    device stores the frame's channel count and
    [sampleCount * channelCount * 2] bytes, the count
    [waitForProcessedBuffer] computes back from the buffer is the frame's
    [sampleCount], and so the amount it subtracts from
    [bufferedSampleCount] is the amount [consumeFrame] added. *)
Theorem sample_count_round_trip buffer frame r r1 :
  mutex r = false ->
  frame.(channelCount) = 1 \/ frame.(channelCount) = 2 ->
  Int32.in_range (frame.(sampleCount) * frame.(channelCount) * 16) ->
  consumeFrame buffer (Some frame) r = Ok tt r1 ->
  AL.GetBuffer_SIZE (device r1) buffer = frame.(sampleCount) * frame.(channelCount) * 2 /\
  AL.GetBuffer_CHANNELS (device r1) buffer = frame.(channelCount) /\
  buffer_samples (device r1) buffer = frame.(sampleCount) /\
  bufferedSampleCount r1 = Int32.add (bufferedSampleCount r) frame.(sampleCount) /\
  forall r2 r3,
    mutex r2 = false ->
    (AL.dev_processed (device r2) <= length (AL.dev_queue (device r2)))%nat ->
    AL.get_buffer (device r2) buffer = AL.get_buffer (device r1) buffer ->
    waitForProcessedBuffer r2 = Ok buffer r3 ->
    bufferedSampleCount r3 = Int32.sub (bufferedSampleCount r2) frame.(sampleCount).
Proof.
  intros Hm Hch Hfit Hc. rewrite (consumeFrame_ok _ _ _ Hm) in Hc.
  injection Hc as <-. cbn [device bufferedSampleCount].
  unfold Int32.in_range, Int32.min_int, Int32.max_int in Hfit.
  assert (Hsize : frame_size frame = sampleCount frame * channelCount frame * 2).
  { unfold frame_size, Int32.mul.
    rewrite (wrap_in_range (sampleCount frame * channelCount frame))
      by (unfold Int32.in_range, Int32.min_int, Int32.max_int; lia).
    apply wrap_in_range. unfold Int32.in_range, Int32.min_int, Int32.max_int. lia. }
  assert (Hchan : AL.format_channels (frame_format frame) = channelCount frame).
  { unfold frame_format. destruct Hch as [-> | ->]; reflexivity. }
  assert (Hback : Int32.div (Int32.mul (frame_size frame) 8)
                    (Int32.mul (AL.format_channels (frame_format frame)) 16) =
                  sampleCount frame).
  { rewrite Hsize, Hchan. unfold Int32.div, Int32.mul.
    rewrite (wrap_in_range (sampleCount frame * channelCount frame * 2 * 8))
      by (unfold Int32.in_range, Int32.min_int, Int32.max_int; lia).
    rewrite (wrap_in_range (channelCount frame * 16))
      by (unfold Int32.in_range, Int32.min_int, Int32.max_int; lia).
    replace (sampleCount frame * channelCount frame * 2 * 8)
      with (sampleCount frame * (channelCount frame * 16)) by lia.
    rewrite Z.quot_mul by lia.
    apply wrap_in_range. unfold Int32.in_range, Int32.min_int, Int32.max_int. lia. }
  assert (Hsamples :
    buffer_samples
      (AL.alSourceQueueBuffers buffer
         (AL.alBufferData buffer (frame_format frame) (samples frame)
            (frame_size frame) (sampleRate frame) (device r))) buffer =
    sampleCount frame).
  { rewrite buffer_samples_alBufferData. exact Hback. }
  split; [|split; [|split; [|split]]].
  - unfold AL.GetBuffer_SIZE, AL.get_buffer. simpl. rewrite lookup_insert_eq. exact Hsize.
  - unfold AL.GetBuffer_CHANNELS, AL.get_buffer. simpl. rewrite lookup_insert_eq. exact Hchan.
  - exact Hsamples.
  - reflexivity.
  - intros r2 r3 Hm2 Hle Hsame Hw.
    destruct (waitForProcessedBuffer_ok _ _ _ Hm2 Hle Hw) as (n & q & _ & _ & ->).
    cbn [bufferedSampleCount]. f_equal. rewrite <- Hsamples.
    unfold buffer_samples, AL.GetBuffer_SIZE, AL.GetBuffer_CHANNELS. rewrite Hsame.
    reflexivity.
Qed.

Lemma sample_count_round_trip_witness :
  buffer_samples
    (device (mkRenderer [] 0 1024 (frame_seconds (mkFrame 1024 44100 2 []))
               [1; 2; 3; 4; 5] false
               (AL.alSourceQueueBuffers 1
                  (AL.alBufferData 1 AL.FORMAT_STEREO16 [] 4096 44100
                     (AL.init [1; 2; 3; 4; 5]))))) 1 = 1024.
Proof.
  refine (proj1 (proj2 (proj2
    (sample_count_round_trip 1 (mkFrame 1024 44100 2 []) (started [1; 2; 3; 4; 5]) _
       _ _ _ _)))).
  - reflexivity.
  - right; reflexivity.
  - vm_compute; split; discriminate.
  - reflexivity.
Defined.

(** C7, as the claim states it, fails: a frame of 1024 samples with three
    channels is stored as stereo, and the count computed back from its
    buffer is 1536. *)
Lemma sample_count_round_trip_three_channels :
  match consumeFrame 1 (Some (mkFrame 1024 44100 3 [])) (started [1; 2; 3; 4; 5]) with
  | Ok _ r1 =>
      AL.GetBuffer_SIZE (device r1) 1 = 1024 * 3 * 2 /\
      AL.GetBuffer_CHANNELS (device r1) 1 = 2 /\
      buffer_samples (device r1) 1 = 1536 /\
      buffer_samples (device r1) 1 <> sampleCount (mkFrame 1024 44100 3 [])
  | _ => False
  end.
Proof. vm_compute. repeat split; discriminate. Qed.

(** The bound on the size is needed as well: for 2^27 mono samples the
    byte size times 8 no longer fits an [int], and the count computed
    back is negative. *)
Lemma sample_count_overflow :
  match consumeFrame 1 (Some (mkFrame (2 ^ 27) 44100 1 [])) (started [1; 2; 3; 4; 5]) with
  | Ok _ r1 =>
      AL.GetBuffer_SIZE (device r1) 1 = 2 ^ 28 /\
      buffer_samples (device r1) 1 = - 2 ^ 27
  | _ => False
  end.
Proof. vm_compute. split; reflexivity. Qed.

(** ** Pipeline depth (C8) *)

(** C8. [getBufferSize] returns [bufferedSampleCount + queuedSampleCount];
    after five pushes of 1024 mono samples at 44100 Hz and before the
    thread has taken a frame it returns 5120; and once the thread has
    submitted the five frames, [secondsPlayed] is within a millionth of
    5 * 1024 / 44100 seconds. *)
Theorem getBufferSize_sum :
  (forall r, mutex r = false ->
     getBufferSize r = Ok (Int32.add (bufferedSampleCount r) (queuedSampleCount r)) r) /\
  (forall names data, exists sys,
     run (repeat (EPush data 1024 44100 1) 5) (boot names) = Some sys /\
     consumed sys = [] /\
     getBufferSize (renderer sys) = Ok 5120 (renderer sys)) /\
  (forall names data, exists sys q,
     run (repeat (EPush data 1024 44100 1) 5 ++ repeat (EThread 0) 10) (boot names)
       = Some sys /\
     snd <$> consumed sys = pushed sys /\
     length (pushed sys) = 5%nat /\
     F32.to_Q (secondsPlayed (renderer sys)) = Some q /\
     (Qabs (q - (5120 # 44100)) < (1 # 1000000))%Q).
Proof.
  split; [|split].
  - intros r Hm. unfold getBufferSize, get, pthread_mutex_lock, pthread_mutex_unlock, modify.
    unfold mbind, M_bind, mret, M_ret. simpl. rewrite Hm. destruct r; simpl in *.
    subst. reflexivity.
  - intros names data. unfold boot, started. cbn [repeat]. normalise.
    do 5 thread_runs.
    eexists. split; [reflexivity|]. split; [reflexivity|]. reflexivity.
  - intros names data. unfold boot, started. cbn [repeat app]. normalise.
    do 15 thread_runs.
    eexists _, _. split; [reflexivity|]. normalise.
    split; [reflexivity|]. split; [reflexivity|]. split; [vm_compute; reflexivity|].
    vm_compute. reflexivity.
Qed.

Lemma getBufferSize_sum_witness :
  getBufferSize (started [1; 2; 3; 4; 5]) = Ok 0 (started [1; 2; 3; 4; 5]).
Proof. apply (proj1 getBufferSize_sum (started [1; 2; 3; 4; 5])). reflexivity. Defined.

(** ** Underrun recovery (C9) *)

(** C9. In the steady-state loop the step after each submission is the
    query of the playback state; there, if the source is not playing, the
    thread issues [alSourcePlay] and nothing else, and if it is playing
    the thread does nothing; either way the thread goes on to wait for
    the next processed buffer: it neither blocks nor faults, and the
    queue, the counters and the clock are untouched. So when the source
    has stopped while the thread sits in [popFrame] on an empty queue,
    one push of a frame in the format of the reclaimed buffer is all it
    takes: the thread pops it, submits it and sets the source playing
    again. *)
Theorem underrun_recovery sys wait_result :
  (forall buffer frame,
     thread sys = Consume buffer frame -> mutex (renderer sys) = false ->
     exists sys', thread_step wait_result sys = Some sys' /\ thread sys' = Underrun) /\
  (thread sys = Underrun ->
     exists sys',
       thread_step wait_result sys = Some sys' /\
       thread sys' = Wait /\
       pushed sys' = pushed sys /\ consumed sys' = consumed sys /\
       renderer sys' =
         (if is_playing (AL.GetSource_SOURCE_STATE (device (renderer sys)))
          then renderer sys
          else set_device (AL.alSourcePlay (device (renderer sys))) (renderer sys)) /\
       (is_playing (AL.GetSource_SOURCE_STATE (device (renderer sys))) = false ->
          AL.dev_state (device (renderer sys')) = AL.PLAYING /\
          AL.dev_trace (device (renderer sys')) =
            AL.dev_trace (device (renderer sys)) ++ [AL.SourcePlay])) /\
  (forall buffer data count rate channels frame,
     thread sys = Pop buffer ->
     audioQueue (renderer sys) = [] ->
     mutex (renderer sys) = false ->
     is_playing (AL.GetSource_SOURCE_STATE (device (renderer sys))) = false ->
     newFrame data count rate channels = Some frame ->
     format_differs (device (renderer sys)) buffer frame = false ->
     exists sys',
       run (EPush data count rate channels :: repeat (EThread wait_result) 4) sys
         = Some sys' /\
       thread sys' = Wait /\
       audioQueue (renderer sys') = [] /\
       consumed sys' = consumed sys ++ [(buffer, frame)] /\
       AL.dev_state (device (renderer sys')) = AL.PLAYING /\
       AL.dev_queue (device (renderer sys')) =
         AL.dev_queue (device (renderer sys)) ++ [buffer]).
Proof.
  split; [|split].
  - intros buffer frame Hpc Hm. unfold thread_step, consume. rewrite Hpc.
    rewrite (consumeFrame_ok _ _ _ Hm). eexists. split; reflexivity.
  - intros Hpc. unfold thread_step. rewrite Hpc.
    destruct (is_playing (AL.GetSource_SOURCE_STATE (device (renderer sys)))) eqn:Hst; simpl.
    + eexists. split; [reflexivity|]. repeat split; discriminate.
    + eexists. split; [reflexivity|]. repeat split.
  - intros buffer data count rate channels frame Hpc Hq Hm Hst Hnew Hfmt. cbn [repeat].
    (* the push *)
    erewrite run_step;
      [|unfold step; rewrite Hnew, (pushFrame_ok _ _ _ _ _ _ Hnew Hm); reflexivity].
    (* popFrame *)
    erewrite run_step;
      [|unfold step, thread_step, advance; cbn [thread renderer]; rewrite Hpc;
        erewrite popFrame_ok; [reflexivity | cbn [audioQueue]; rewrite Hq; reflexivity
                              | reflexivity]].
    (* the comparison of formats *)
    erewrite run_step;
      [|unfold step, thread_step; cbn [thread renderer device]; rewrite Hfmt; reflexivity].
    (* consumeFrame *)
    erewrite run_step;
      [|unfold step, thread_step, consume, goto; cbn [thread renderer];
        rewrite consumeFrame_ok by reflexivity; reflexivity].
    (* the query of the playback state *)
    erewrite run_step;
      [|unfold step, thread_step, advance, al, modify; cbn [thread renderer device];
        unfold AL.GetSource_SOURCE_STATE in *;
        cbn [AL.dev_state AL.alSourceQueueBuffers AL.alBufferData AL.record];
        rewrite Hst; reflexivity].
    eexists. split; [reflexivity|]. repeat split.
Qed.

Lemma underrun_recovery_witness :
  exists sys sys',
    run starved_then_refilled (boot [1; 2; 3; 4; 5]) = Some sys /\
    thread sys = Underrun /\
    AL.dev_state (device (renderer sys)) = AL.STOPPED /\
    thread_step 0 sys = Some sys' /\
    thread sys' = Wait /\
    AL.dev_state (device (renderer sys')) = AL.PLAYING.
Proof.
  assert (Hrun : exists sys,
            run starved_then_refilled (boot [1; 2; 3; 4; 5]) = Some sys /\
            thread sys = Underrun /\
            AL.dev_state (device (renderer sys)) = AL.STOPPED).
  { eexists. split; [vm_compute; reflexivity|]. split; reflexivity. }
  destruct Hrun as (sys & Hrun & Hpc & Hst).
  destruct (proj1 (proj2 (underrun_recovery sys 0)) Hpc)
    as (sys' & Hstep & Hpc' & _ & _ & _ & Hplay).
  exists sys, sys'. repeat (split; [assumption|]).
  apply Hplay. unfold AL.GetSource_SOURCE_STATE. rewrite Hst. reflexivity.
Defined.

(** ** A failed wait (C5) *)

(** C5, where the code departs from it. When the queue is empty and
    [pthread_cond_wait] returns an error, [popFrame] returns [nullptr]
    and leaves the mutex locked; the thread passes the null frame on, its
    next step dereferences it, and from then on every [pushFrame] waits
    for the mutex. *)
Theorem popFrame_wait_error sys err :
  err <> 0 ->
  popping (thread sys) = true ->
  audioQueue (renderer sys) = [] ->
  mutex (renderer sys) = false ->
  popFrame err (renderer sys) = Ok None (set_mutex true (renderer sys)) /\
  exists sys1,
    thread_step err sys = Some sys1 /\
    pending (thread sys1) = [] /\
    mutex (renderer sys1) = true /\
    forall wait_result,
      thread_step wait_result sys1 = Some (goto Crashed sys1) /\
      forall data count rate channels,
        step (EPush data count rate channels) (goto Crashed sys1) = None.
Proof.
  intros Herr Hpop Hq Hm.
  assert (Hp : popFrame err (renderer sys) = Ok None (set_mutex true (renderer sys))).
  { rewrite (popFrame_empty _ _ Hq Hm).
    destruct (Z.eqb_spec err 0); [contradiction | reflexivity]. }
  split; [exact Hp|].
  assert (Hpush : forall sys1, mutex (renderer sys1) = true ->
            forall data count rate channels,
              step (EPush data count rate channels) (goto Crashed sys1) = None).
  { intros sys1 Hm1 data count rate channels. unfold step, pushFrame.
    destruct (newFrame data count rate channels); [|reflexivity].
    unfold pthread_mutex_lock, mbind, M_bind. simpl. rewrite Hm1. reflexivity. }
  unfold thread_step, advance.
  destruct (thread sys) eqn:Hpc; simpl in Hpop; try discriminate.
  all: rewrite ?Hpop, Hp; eexists; split; [reflexivity|].
  all: split; [reflexivity|]; split; [reflexivity|].
  all: intros wait_result; split; [reflexivity|]; apply Hpush; reflexivity.
Qed.

Lemma popFrame_wait_error_witness :
  popFrame 22 (started [1; 2; 3; 4; 5]) = Ok None (set_mutex true (started [1; 2; 3; 4; 5])).
Proof.
  apply (popFrame_wait_error (boot [1; 2; 3; 4; 5]) 22); try reflexivity. discriminate.
Defined.

(** ** The format-change transition, step by step *)

(** From the comparison that finds another format to the head of the
    steady-state loop, with four more frames queued: the calls the device
    receives, the buffers it ends up with, and the counter, to which the
    five submissions are added and from which nothing is taken for the
    buffers that were detached. *)
Lemma format_change_transition sys wait_result buffer frame f1 f2 f3 f4 rest :
  thread sys = Compare buffer (Some frame) ->
  format_differs (device (renderer sys)) buffer frame = true ->
  audioQueue (renderer sys) = f1 :: f2 :: f3 :: f4 :: rest ->
  mutex (renderer sys) = false ->
  let r := renderer sys in
  let submit i f :=
    [AL.BufferData (buffer_at r i) (frame_format f) f.(samples) (frame_size f) f.(sampleRate);
     AL.SourceQueueBuffers (buffer_at r i)] in
  exists sys',
    run (repeat (EThread wait_result) 14) sys = Some sys' /\
    thread sys' = Wait /\
    audioQueue (renderer sys') = rest /\
    AL.dev_trace (device (renderer sys')) =
      AL.dev_trace (device r) ++ [AL.SourceDetach; AL.SourceStop] ++
      submit 0%nat frame ++ submit 1%nat f1 ++ submit 2%nat f2 ++ submit 3%nat f3 ++
      submit 4%nat f4 ++ [AL.SourcePlay] /\
    AL.dev_queue (device (renderer sys')) =
      [buffer_at r 0; buffer_at r 1; buffer_at r 2; buffer_at r 3; buffer_at r 4] /\
    AL.dev_state (device (renderer sys')) = AL.PLAYING /\
    consumed sys' =
      consumed sys ++ [(buffer_at r 0, frame); (buffer_at r 1, f1); (buffer_at r 2, f2);
                       (buffer_at r 3, f3); (buffer_at r 4, f4)] /\
    bufferedSampleCount (renderer sys') =
      Int32.add (Int32.add (Int32.add (Int32.add (Int32.add (bufferedSampleCount r)
        frame.(sampleCount)) f1.(sampleCount)) f2.(sampleCount)) f3.(sampleCount))
        f4.(sampleCount).
Proof.
  intros Hpc Hfmt Hq Hm r submit. subst r submit.
  destruct sys as [[q qsc bsc sp bufs mtx [dbufs dq dn dst dtr]] p pu co].
  cbn [thread renderer audioQueue mutex device] in Hpc, Hq, Hm, Hfmt. subst p q mtx.
  cbn [repeat]. normalise.
  erewrite run_step;
    [|unfold step, thread_step; cbn [thread renderer device]; rewrite Hfmt; reflexivity].
  normalise.
  do 13 thread_runs.
  eexists. split; [reflexivity|]. normalise.
  repeat split; rewrite <- !app_assoc; reflexivity.
Qed.

(** ** The counter of buffered samples across a format change (C3) *)

(** C3, where the code departs from it. Five mono frames are playing,
    one buffer has been reclaimed, and five stereo frames at 48000 Hz
    arrive. [alSourcei(source, AL_BUFFER, 0)] takes the four remaining
    buffers off the source, yet [bufferedSampleCount] keeps their 4096
    samples: after the transition the device holds five frames, 5120
    samples, and the counter reads 9216. *)
Theorem bufferedSampleCount_after_format_change :
  exists before after,
    run (firstn 26 (format_change (repeat (EPush [] 1024 48000 2) 5))) (boot [1; 2; 3; 4; 5])
      = Some before /\
    (exists frame, thread before = Detach frame) /\
    sum_sampleCount (resident before) = 4096 /\
    bufferedSampleCount (renderer before) = 4096 /\
    run (format_change (repeat (EPush [] 1024 48000 2) 5)) (boot [1; 2; 3; 4; 5])
      = Some after /\
    thread after = Wait /\
    length (resident after) = 5%nat /\
    sum_sampleCount (resident after) = 5120 /\
    bufferedSampleCount (renderer after) = 9216.
Proof.
  eexists _, _. split; [vm_compute; reflexivity|].
  split; [eexists; reflexivity|]. split; [reflexivity|]. split; [reflexivity|].
  split; [vm_compute; reflexivity|]. repeat split.
Qed.

(** ** Formats in the buffer pool across a format change (C2) *)

(** C2, where the code departs from it. The transition itself is as
    described: detach, stop, the mismatched frame into [buffers[0]], four
    more frames popped into the other buffers, play. But those four are
    submitted without looking at their format: when the producer pushes a
    stereo frame at 48000 Hz followed by four mono frames at 44100 Hz,
    the pool holds both formats after the transition. *)
Theorem formats_mixed_after_format_change :
  exists after,
    run (format_change (EPush [] 1024 48000 2 :: repeat (EPush [] 1024 44100 1) 4))
        (boot [1; 2; 3; 4; 5]) = Some after /\
    thread after = Wait /\
    skipn 11 (AL.dev_trace (device (renderer after))) =
      [AL.SourceUnqueueBuffers 1; AL.SourceDetach; AL.SourceStop;
       AL.BufferData 1 AL.FORMAT_STEREO16 [] 4096 48000; AL.SourceQueueBuffers 1;
       AL.BufferData 2 AL.FORMAT_MONO16 [] 2048 44100; AL.SourceQueueBuffers 2;
       AL.BufferData 3 AL.FORMAT_MONO16 [] 2048 44100; AL.SourceQueueBuffers 3;
       AL.BufferData 4 AL.FORMAT_MONO16 [] 2048 44100; AL.SourceQueueBuffers 4;
       AL.BufferData 5 AL.FORMAT_MONO16 [] 2048 44100; AL.SourceQueueBuffers 5;
       AL.SourcePlay] /\
    resident_formats (device (renderer after)) =
      [(48000, 2); (44100, 1); (44100, 1); (44100, 1); (44100, 1)].
Proof.
  eexists. split; [vm_compute; reflexivity|]. repeat split.
Qed.

(** ** FIFO order (C1) *)

Lemma popFrame_effect wait_result r o r' :
  popFrame wait_result r = Ok o r' ->
  device r' = device r /\
  audioQueue r = from_option (fun f => [f]) [] o ++ audioQueue r'.
Proof.
  destruct (mutex r) eqn:Hm; [rewrite (popFrame_locked _ _ Hm); discriminate|].
  destruct (audioQueue r) as [|frame rest] eqn:Hq.
  - rewrite (popFrame_empty _ _ Hq Hm). destruct (wait_result =? 0); [discriminate|].
    intros H. injection H as <- <-. simpl. auto.
  - rewrite (popFrame_ok _ _ _ _ Hq Hm). intros H. injection H as <- <-. simpl. auto.
Qed.

Lemma consumeFrame_effect buffer frame r r' :
  consumeFrame buffer frame r = Ok tt r' ->
  exists f, frame = Some f /\ same_queue r r' /\
    submitted_data (AL.dev_trace (device r')) =
    submitted_data (AL.dev_trace (device r)) ++ [f.(samples)].
Proof.
  destruct frame as [f|]; [|discriminate].
  destruct (mutex r) eqn:Hm.
  - unfold consumeFrame, al, modify, pthread_mutex_lock, mbind, M_bind. simpl.
    rewrite Hm. discriminate.
  - rewrite (consumeFrame_ok _ _ _ Hm). intros H. injection H as <-.
    exists f. split; [reflexivity|]. split; [reflexivity|]. simpl.
    unfold submitted_data. rewrite !omap_app. simpl. rewrite app_nil_r. reflexivity.
Qed.

Lemma waitForProcessedBuffer_effect r buffer r' :
  waitForProcessedBuffer r = Ok buffer r' -> same_queue r r' /\ same_data r r'.
Proof.
  unfold waitForProcessedBuffer, get, block, modify.
  unfold pthread_mutex_lock, pthread_mutex_unlock, mbind, M_bind, mret, M_ret.
  destruct (negb _); [discriminate|].
  unfold AL.alSourceUnqueueBuffers.
  destruct (AL.dev_processed (device r)) as [|n]; [intros H; injection H as <- <-; split; reflexivity|].
  destruct (AL.dev_queue (device r)) as [|b q]; [intros H; injection H as <- <-; split; reflexivity|].
  simpl. destruct (mutex r); [discriminate|]. intros H. injection H as <- <-.
  split; [reflexivity|]. unfold same_data, submitted_data. simpl.
  rewrite omap_app. simpl. apply app_nil_r.
Qed.

Lemma pushFrame_effect data count rate channels r r' :
  pushFrame data count rate channels r = Ok tt r' ->
  exists frame, newFrame data count rate channels = Some frame /\
    audioQueue r' = audioQueue r ++ [frame] /\ device r' = device r.
Proof.
  unfold pushFrame. destruct (newFrame data count rate channels) as [frame|] eqn:Hf;
    [|discriminate].
  destruct (mutex r) eqn:Hm.
  - unfold pthread_mutex_lock, mbind, M_bind. rewrite Hm. discriminate.
  - pose proof (pushFrame_ok _ _ _ _ _ r Hf Hm) as Hp. unfold pushFrame in Hp.
    rewrite Hf in Hp. rewrite Hp. intros H. injection H as <-.
    exists frame. repeat split.
Qed.

Lemma fifo_advance_pop sys wait_result k sys' :
  fifo sys ->
  pending (thread sys) = [] ->
  (forall o, pending (k o) = from_option (fun f => [f]) [] o) ->
  advance sys (popFrame wait_result) k = Some sys' ->
  fifo sys'.
Proof.
  intros [Hp Hd] Hpend Hk. unfold advance.
  destruct (popFrame wait_result (renderer sys)) as [o r'| |] eqn:Hpop; [|discriminate|].
  - intros H. injection H as <-. destruct (popFrame_effect _ _ _ _ Hpop) as [Hdev Hq].
    split; simpl.
    + rewrite Hp, Hpend, Hk, Hq. reflexivity.
    + rewrite Hdev. exact Hd.
  - intros H. injection H as <-. split; simpl; [|exact Hd].
    rewrite Hp, Hpend. reflexivity.
Qed.

Lemma fifo_consume sys buffer frame k sys' :
  fifo sys ->
  pending (thread sys) = from_option (fun f => [f]) [] frame ->
  pending k = [] ->
  consume sys buffer frame k = Some sys' ->
  fifo sys'.
Proof.
  intros [Hp Hd] Hpend Hk. unfold consume.
  destruct (consumeFrame buffer frame (renderer sys)) as [[] r'| |] eqn:Hc.
  - destruct (consumeFrame_effect _ _ _ _ Hc) as (f & -> & Hq & Hdata).
    intros H. injection H as <-. split; simpl.
    + rewrite Hp, Hpend, Hk, Hq, fmap_app. simpl. rewrite <- app_assoc. reflexivity.
    + rewrite Hdata, Hd, !fmap_app. reflexivity.
  - discriminate.
  - destruct frame as [f|].
    + exfalso. destruct (mutex (renderer sys)) eqn:Hm.
      * unfold consumeFrame, al, modify, pthread_mutex_lock, mbind, M_bind in Hc.
        simpl in Hc. rewrite Hm in Hc. discriminate.
      * rewrite (consumeFrame_ok _ _ _ Hm) in Hc. discriminate.
    + intros H. injection H as <-.
      split; simpl; [|exact Hd]. rewrite Hp, Hpend. reflexivity.
Qed.

Lemma fifo_advance_al sys (f : AL.device -> AL.device) k sys' :
  fifo sys ->
  (forall d, submitted_data (AL.dev_trace (f d)) = submitted_data (AL.dev_trace d)) ->
  pending k = pending (thread sys) ->
  advance sys (al f) (fun _ => k) = Some sys' ->
  fifo sys'.
Proof.
  intros [Hp Hd] Hf Hk. unfold advance, al, modify. intros H. injection H as <-.
  split; simpl; [rewrite Hk; exact Hp | rewrite Hf; exact Hd].
Qed.

Lemma fifo_goto sys p : fifo sys -> pending p = pending (thread sys) -> fifo (goto p sys).
Proof. intros [Hp Hd] Hk. split; simpl; [rewrite Hk; exact Hp | exact Hd]. Qed.

Lemma submitted_data_record c d :
  match c with AL.BufferData _ _ _ _ _ => False | _ => True end ->
  submitted_data (AL.dev_trace d ++ [c]) = submitted_data (AL.dev_trace d).
Proof.
  intros Hc. unfold submitted_data. rewrite omap_app.
  destruct c; try contradiction; simpl; apply app_nil_r.
Qed.

Lemma fifo_thread_step wait_result sys sys' :
  fifo sys -> thread_step wait_result sys = Some sys' -> fifo sys'.
Proof.
  intros Hinv. unfold thread_step.
  destruct (thread sys) as [i|i frame| | |buffer|buffer frame|buffer frame| |frame|frame
                           |frame|i|i frame|] eqn:Hpc.
  - destruct (i <? numBuffers)%nat.
    + apply fifo_advance_pop; [exact Hinv | rewrite Hpc; reflexivity|].
      intros [f|]; reflexivity.
    + intros H. injection H as <-. apply fifo_goto; [exact Hinv | rewrite Hpc; reflexivity].
  - apply fifo_consume; [exact Hinv | rewrite Hpc; destruct frame; reflexivity | reflexivity].
  - apply fifo_advance_al; [exact Hinv | | rewrite Hpc; reflexivity].
    intros d. apply (submitted_data_record AL.SourcePlay). exact I.
  - unfold advance.
    destruct (waitForProcessedBuffer (renderer sys)) as [b r'| |] eqn:Hw; [|discriminate|].
    + destruct (waitForProcessedBuffer_effect _ _ _ Hw) as [Hq Hdata].
      intros H. injection H as <-. destruct Hinv as [Hp Hd]. split; simpl.
      * rewrite Hq, Hp, Hpc. reflexivity.
      * rewrite Hdata. exact Hd.
    + intros H. injection H as <-. apply fifo_goto; [exact Hinv | rewrite Hpc; reflexivity].
  - apply fifo_advance_pop; [exact Hinv | rewrite Hpc; reflexivity|].
    intros [f|]; reflexivity.
  - destruct frame as [frame|].
    + destruct (format_differs _ _ _); intros H; injection H as <-;
        (apply fifo_goto; [exact Hinv | rewrite Hpc; reflexivity]).
    + intros H; injection H as <-. apply fifo_goto; [exact Hinv | rewrite Hpc; reflexivity].
  - apply fifo_consume; [exact Hinv | rewrite Hpc; reflexivity | reflexivity].
  - destruct (negb _).
    + apply fifo_advance_al; [exact Hinv | | rewrite Hpc; reflexivity].
      intros d. apply (submitted_data_record AL.SourcePlay). exact I.
    + intros H; injection H as <-. apply fifo_goto; [exact Hinv | rewrite Hpc; reflexivity].
  - apply fifo_advance_al; [exact Hinv | | rewrite Hpc; reflexivity].
    intros d. apply (submitted_data_record AL.SourceDetach). exact I.
  - apply fifo_advance_al; [exact Hinv | | rewrite Hpc; reflexivity].
    intros d. apply (submitted_data_record AL.SourceStop). exact I.
  - apply fifo_consume; [exact Hinv | rewrite Hpc; reflexivity | reflexivity].
  - destruct (i <? numBuffers)%nat.
    + apply fifo_advance_pop; [exact Hinv | rewrite Hpc; reflexivity|].
      intros [f|]; reflexivity.
    + intros H. injection H as <-. apply fifo_goto; [exact Hinv | rewrite Hpc; reflexivity].
  - apply fifo_consume; [exact Hinv | rewrite Hpc; destruct frame; reflexivity | reflexivity].
  - discriminate.
Qed.

Lemma fifo_step e sys sys' : fifo sys -> step e sys = Some sys' -> fifo sys'.
Proof.
  intros Hinv. destruct e as [data count rate channels|wait_result| |]; simpl.
  - destruct (pushFrame data count rate channels (renderer sys)) as [[] r'| |] eqn:Hpush;
      try discriminate.
    destruct (pushFrame_effect _ _ _ _ _ _ Hpush) as (frame & -> & Hq & Hdev).
    intros H. injection H as <-. destruct Hinv as [Hp Hd]. split; simpl.
    + rewrite Hq, Hp, !app_assoc. reflexivity.
    + rewrite Hdev. exact Hd.
  - apply fifo_thread_step. exact Hinv.
  - unfold AL.play_one.
    destruct (AL.dev_state (device (renderer sys))); simpl; try discriminate.
    destruct (_ <? _)%nat; simpl; intros H; injection H as <-; exact Hinv.
  - unfold resetSecondsPlayed, pthread_mutex_lock, pthread_mutex_unlock, modify, mbind, M_bind.
    destruct (mutex (renderer sys)); [discriminate|].
    intros H. injection H as <-. exact Hinv.
Qed.

Lemma fifo_run es : forall sys sys', fifo sys -> run es sys = Some sys' -> fifo sys'.
Proof.
  induction es as [|e es IH]; simpl; intros sys sys' Hinv Hrun.
  - injection Hrun as <-. exact Hinv.
  - destruct (step e sys) as [sys1|] eqn:Hstep; simpl in Hrun; [|discriminate].
    exact (IH _ _ (fifo_step _ _ _ Hinv Hstep) Hrun).
Qed.



(** ** The queue counter under every interleaving (C4) *)

Lemma total_insert f l i old p :
  l !! i = Some old -> total f (<[i := p]> l) = total f l - f old + f p.
Proof.
  revert i. induction l as [|x l IH]; intros [|i] H; simpl in *; try discriminate.
  - injection H as ->. lia.
  - rewrite (IH _ H). lia.
Qed.

Lemma total_nonneg f l : (forall p, 0 <= f p) -> 0 <= total f l.
Proof. intros Hf. induction l as [|x l IH]; simpl; [lia|]. specialize (Hf x). lia. Qed.

Lemma total_zero f g l :
  (forall p, 0 <= f p) -> (forall p, f p = 0 -> g p = 0) ->
  total f l = 0 -> total g l = 0.
Proof.
  intros Hf Hfg. induction l as [|x l IH]; simpl; [reflexivity|]. intros H.
  pose proof (total_nonneg f l Hf). pose proof (Hf x).
  rewrite (Hfg x), IH; lia.
Qed.

Lemma total_lookup_le f l i p :
  (forall q, 0 <= f q) -> l !! i = Some p -> f p <= total f l.
Proof.
  intros Hf. revert i. induction l as [|x l IH]; intros [|i] H; simpl in *; try discriminate.
  - injection H as ->. pose proof (total_nonneg f l Hf). lia.
  - specialize (IH _ H). specialize (Hf x). lia.
Qed.

Lemma no_holder_owes t :
  total (fun p => if push_holds p then 1 else 0) (producers t) +
  (if pop_holds (consumer t) then 1 else 0) = 0 ->
  owed t = 0.
Proof.
  unfold owed. intros H.
  assert (Hnn : forall p, 0 <= (if push_holds p then 1 else 0))
    by (intros p; destruct (push_holds p); lia).
  pose proof (total_nonneg _ (producers t) Hnn) as Hp.
  rewrite (total_zero (fun p => if push_holds p then 1 else 0) push_owes).
  - destruct (consumer t); simpl in *; lia.
  - exact Hnn.
  - intros p. destruct p; simpl; intros; lia.
  - destruct (pop_holds (consumer t)); lia.
Qed.

Lemma holders_parts t :
  0 <= total (fun p => if push_holds p then 1 else 0) (producers t) /\
  0 <= (if pop_holds (consumer t) then 1 else 0) /\
  0 <= (if size_holds (reader t) then 1 else 0).
Proof.
  split; [|split].
  - apply total_nonneg. intros q. destruct (push_holds q); lia.
  - destruct (pop_holds (consumer t)); lia.
  - destruct (size_holds (reader t)); lia.
Qed.

Lemma holders_zero_owed t : holders t = 0 -> owed t = 0.
Proof.
  unfold holders. intros H. destruct (holders_parts t) as (H1 & H2 & H3).
  apply no_holder_owes. lia.
Qed.

Lemma sum_sampleCount_app fs gs :
  sum_sampleCount (fs ++ gs) = sum_sampleCount fs + sum_sampleCount gs.
Proof.
  unfold sum_sampleCount. induction fs as [|f fs IH]; simpl; [reflexivity|].
  rewrite IH. lia.
Qed.

Lemma wrap_eq_shift a b c : Int32.wrap a = Int32.wrap b -> Int32.wrap (a + c) = Int32.wrap (b + c).
Proof. intros H. rewrite <- (wrap_add_l a), <- (wrap_add_l b), H. reflexivity. Qed.

Lemma consistent_idle names n : consistent (idle names n).
Proof.
  unfold consistent, holders, owed, idle. simpl.
  assert (H1 : total (fun p => if push_holds p then 1 else 0) (replicate n PushIdle) = 0)
    by (induction n; simpl; lia).
  assert (H2 : total push_owes (replicate n PushIdle) = 0).
  { clear H1. induction n as [|n IH]; simpl; [reflexivity|]. rewrite IH. reflexivity. }
  rewrite H1, H2. repeat split; try lia; try discriminate.
Qed.

(** Opens the invariant in the hypotheses [H0] and names the three parts
    of [holders]. *)
Ltac open_consistent t :=
  unfold consistent, holders, owed in *;
  let H1 := fresh "Hpush" in let H2 := fresh "Hpop" in let H3 := fresh "Hsize" in
  destruct (holders_parts t) as (H1 & H2 & H3).

(** The four parts of [consistent], each closed by arithmetic where it
    can be. *)
Ltac close_consistent Hm Hr Hc :=
  split; [lia | split; [first [intros _; reflexivity | intros; apply Hm; lia | lia]
         | split; [first [exact Hr | apply wrap_range]
                  | try (rewrite <- Hc; f_equal; lia)]]].

Lemma consistent_producer_step i p t t' :
  consistent t -> producers t !! i = Some p -> producer_step i p t = Some t' ->
  consistent t'.
Proof.
  intros Hinv Hl. open_consistent t. destruct Hinv as (Hh & Hm & Hr & Hc).
  assert (Hme : (if push_holds p then 1 else 0) <=
                total (fun p => if push_holds p then 1 else 0) (producers t))
    by (apply (total_lookup_le (fun p => if push_holds p then 1 else 0) _ i p);
        [intros q; destruct (push_holds q); lia | exact Hl]).
  destruct p as [|frame|frame|frame| |]; simpl in Hme |- *; try discriminate.
  - destruct (mutex (shared t)) eqn:Hmx; [discriminate|].
    intros H; injection H as <-. simpl. rewrite !(total_insert _ _ _ _ _ Hl). simpl.
    assert (Hz : total (fun p => if push_holds p then 1 else 0) (producers t) +
                 (if pop_holds (consumer t) then 1 else 0) +
                 (if size_holds (reader t) then 1 else 0) <> 1)
      by (intros E; specialize (Hm E); congruence).
    close_consistent Hm Hr Hc.
  - intros H; injection H as <-. simpl. rewrite !(total_insert _ _ _ _ _ Hl). simpl.
    close_consistent Hm Hr Hc.
    rewrite sum_sampleCount_app. apply (wrap_eq_shift _ _ (sampleCount frame)) in Hc.
    unfold sum_sampleCount at 2. simpl. rewrite Z.add_0_r. rewrite <- Hc. f_equal. lia.
  - intros H; injection H as <-. simpl. rewrite !(total_insert _ _ _ _ _ Hl). simpl.
    close_consistent Hm Hr Hc.
    unfold Int32.add. rewrite wrap_add_l, <- Hc. f_equal. lia.
  - intros H; injection H as <-.
    destruct (consumer t) eqn:Hcons; simpl; rewrite !(total_insert _ _ _ _ _ Hl);
      simpl; rewrite ?Hcons; simpl in *; close_consistent Hm Hr Hc.
  - intros H; injection H as <-. simpl. rewrite !(total_insert _ _ _ _ _ Hl). simpl.
    close_consistent Hm Hr Hc.
Qed.

Lemma consistent_consumer_step wait_result t t' :
  consistent t -> consumer_step wait_result t = Some t' -> consistent t'.
Proof.
  intros Hinv. unfold consumer_step. open_consistent t.
  destruct Hinv as (Hh & Hm & Hr & Hc).
  destruct (consumer t) as [| | | | | |frame|frame|frame] eqn:Hcons; simpl in *;
    try discriminate.
  - (* PopLock *)
    destruct (mutex (shared t)) eqn:Hmx; [discriminate|].
    intros H; injection H as <-. simpl.
    assert (Hz : total (fun p => if push_holds p then 1 else 0) (producers t) + 0 +
                 (if size_holds (reader t) then 1 else 0) <> 1)
      by (intros E; specialize (Hm E); congruence).
    close_consistent Hm Hr Hc.
  - (* PopTest *)
    destruct (audioQueue (shared t)) as [|frame rest] eqn:Hq.
    + destruct (wait_result =? 0); intros H; injection H as <-; simpl; rewrite ?Hq;
        close_consistent Hm Hr Hc.
    + intros H; injection H as <-; simpl; rewrite ?Hq. close_consistent Hm Hr Hc.
  - (* PopWoken *)
    destruct (mutex (shared t)) eqn:Hmx; [discriminate|].
    intros H; injection H as <-. simpl.
    assert (Hz : total (fun p => if push_holds p then 1 else 0) (producers t) + 0 +
                 (if size_holds (reader t) then 1 else 0) <> 1)
      by (intros E; specialize (Hm E); congruence).
    close_consistent Hm Hr Hc.
  - (* PopFront *)
    destruct (audioQueue (shared t)) as [|frame rest] eqn:Hq; [discriminate|].
    intros H; injection H as <-; simpl. close_consistent Hm Hr Hc.
    change (sum_sampleCount (frame :: rest))
      with (sampleCount frame + sum_sampleCount rest) in Hc.
    apply (wrap_eq_shift _ _ (- sampleCount frame)) in Hc.
    replace (sampleCount frame + sum_sampleCount rest + - sampleCount frame)
      with (sum_sampleCount rest) in Hc by lia.
    rewrite <- Hc. f_equal. lia.
  - (* PopCount *)
    intros H; injection H as <-; simpl. close_consistent Hm Hr Hc.
    unfold Int32.sub. rewrite wrap_add_l, <- Hc. f_equal. lia.
  - (* PopUnlock *)
    intros H; injection H as <-; simpl. close_consistent Hm Hr Hc.
Qed.

Lemma consistent_reader_step t t' :
  consistent t -> reader_step t = Some t' -> consistent t'.
Proof.
  intros Hinv. unfold reader_step. open_consistent t.
  destruct Hinv as (Hh & Hm & Hr & Hc).
  destruct (reader t) as [| | |result|result] eqn:Hrd; simpl in *; try discriminate.
  - (* SizeLock *)
    destruct (mutex (shared t)) eqn:Hmx; [discriminate|].
    intros H; injection H as <-. simpl.
    assert (Hz : total (fun p => if push_holds p then 1 else 0) (producers t) +
                 (if pop_holds (consumer t) then 1 else 0) + 0 <> 1)
      by (intros E; specialize (Hm E); congruence).
    close_consistent Hm Hr Hc.
  - (* SizeRead *)
    intros H; injection H as <-; simpl. close_consistent Hm Hr Hc.
  - (* SizeUnlock *)
    intros H; injection H as <-; simpl. close_consistent Hm Hr Hc.
Qed.

Lemma consistent_interleave c t t' :
  consistent t -> interleave c t = Some t' -> consistent t'.
Proof.
  intros Hinv. destruct c as [i data count rate channels|i| |wait_result| | |]; simpl.
  - destruct (producers t !! i) as [[| | | | |]|] eqn:Hl; try discriminate.
    destruct (newFrame data count rate channels) as [frame|]; [|discriminate].
    intros H; injection H as <-. open_consistent t. destruct Hinv as (Hh & Hm & Hr & Hc).
    simpl. rewrite !(total_insert _ _ _ _ _ Hl). simpl. close_consistent Hm Hr Hc.
  - destruct (producers t !! i) as [p|] eqn:Hl; simpl; [|discriminate].
    apply consistent_producer_step; assumption.
  - open_consistent t. destruct Hinv as (Hh & Hm & Hr & Hc).
    destruct (consumer t) eqn:Hcons; try discriminate;
      intros H; injection H as <-; simpl in *; close_consistent Hm Hr Hc.
  - apply consistent_consumer_step. exact Hinv.
  - open_consistent t. destruct Hinv as (Hh & Hm & Hr & Hc).
    destruct (consumer t) eqn:Hcons; try discriminate;
      intros H; injection H as <-; simpl in *; close_consistent Hm Hr Hc.
  - open_consistent t. destruct Hinv as (Hh & Hm & Hr & Hc).
    destruct (reader t) eqn:Hrd; try discriminate;
      intros H; injection H as <-; simpl in *; close_consistent Hm Hr Hc.
  - apply consistent_reader_step. exact Hinv.
Qed.

Lemma consistent_schedule cs : forall t t',
  consistent t -> schedule cs t = Some t' -> consistent t'.
Proof.
  induction cs as [|c cs IH]; simpl; intros t t' Hinv Hs.
  - injection Hs as <-. exact Hinv.
  - destruct (interleave c t) as [t1|] eqn:Hi; simpl in Hs; [|discriminate].
    exact (IH _ _ (consistent_interleave _ _ _ Hinv Hi) Hs).
Qed.

(** C4. Under every interleaving of the statements of [pushFrame] calls
    by any number of producers, of [popFrame] calls by the playback
    thread and of [getBufferSize] calls, at most one thread is between
    its lock and its unlock; and whenever the mutex is free, and whenever
    [getBufferSize] is about to read the counters, no thread stands
    between its change of the queue and its change of the counter, so
    that [queuedSampleCount] is the sum of [sampleCount] over the queue,
    computed as an [int]; it is that sum exactly when the sum fits an
    [int]. *)
Theorem queuedSampleCount_consistent names n t :
  interleaving names n t ->
  holders t <= 1 /\
  (mutex (shared t) = false \/ reader t = SizeRead -> owed t = 0) /\
  (owed t = 0 ->
   queuedSampleCount (shared t) = Int32.wrap (sum_sampleCount (audioQueue (shared t))) /\
   (Int32.in_range (sum_sampleCount (audioQueue (shared t))) ->
    queuedSampleCount (shared t) = sum_sampleCount (audioQueue (shared t)))).
Proof.
  intros [cs Hs].
  destruct (consistent_schedule cs _ _ (consistent_idle names n) Hs) as (Hh & Hm & Hr & Hc).
  split; [lia|]. split.
  - intros [Hfree|Hread].
    + apply holders_zero_owed.
      destruct (Z.eq_dec (holders t) 1) as [E|E]; [specialize (Hm E); congruence | lia].
    + apply no_holder_owes. unfold holders in Hh. rewrite Hread in Hh. simpl in Hh.
      destruct (holders_parts t) as (H1 & H2 & _). lia.
  - intros Howed. rewrite Howed, Z.add_0_r, (wrap_in_range _ Hr) in Hc.
    split; [exact Hc|]. intros Hfit. rewrite Hc. apply wrap_in_range, Hfit.
Qed.

Lemma queuedSampleCount_consistent_witness :
  exists t,
    schedule two_producers (idle [1; 2; 3; 4; 5] 2) = Some t /\
    mutex (shared t) = false /\
    consumer t = PopReturned (Some (mkFrame 2 44100 1 [7; 8])) /\
    reader t = SizeReturned 1 /\
    audioQueue (shared t) = [mkFrame 1 44100 1 [9]] /\
    queuedSampleCount (shared t) = sum_sampleCount (audioQueue (shared t)).
Proof.
  assert (Hs : exists t,
            schedule two_producers (idle [1; 2; 3; 4; 5] 2) = Some t /\
            mutex (shared t) = false /\
            consumer t = PopReturned (Some (mkFrame 2 44100 1 [7; 8])) /\
            reader t = SizeReturned 1 /\
            audioQueue (shared t) = [mkFrame 1 44100 1 [9]]).
  { eexists. split; [vm_compute; reflexivity|]. repeat split. }
  destruct Hs as (t & Hs & Hm & Hc & Hrd & Hq).
  exists t. repeat (split; [assumption|]).
  destruct (queuedSampleCount_consistent [1; 2; 3; 4; 5] 2 t) as (_ & Hfree & Hsum).
  - exists two_producers. exact Hs.
  - apply (Hsum (Hfree (or_introl Hm))). rewrite Hq. vm_compute. split; discriminate.
Defined.

(** C4, as the claim states it, fails: the counter is an [int] and
    [pushFrame] takes any sample count, so after two frames of 2147483647
    samples (and no channel, so that nothing is copied) the mutex is
    free, every thread is outside its critical section, the sample
    counts in the queue add up to 4294967294, and the counter is -2,
    which is also what [getBufferSize] returns. *)
Lemma queuedSampleCount_wraps :
  exists t,
    schedule two_long_frames (idle [1; 2; 3; 4; 5] 1) = Some t /\
    mutex (shared t) = false /\ holders t = 0 /\ owed t = 0 /\
    audioQueue (shared t) =
      [mkFrame 2147483647 44100 0 []; mkFrame 2147483647 44100 0 []] /\
    sum_sampleCount (audioQueue (shared t)) = 4294967294 /\
    queuedSampleCount (shared t) = -2 /\
    reader t = SizeReturned (-2) /\
    queuedSampleCount (shared t) <> sum_sampleCount (audioQueue (shared t)).
Proof.
  eexists. split; [vm_compute; reflexivity|].
  repeat (split; [reflexivity|]). discriminate.
Qed.

(** The statements of a call, run without interruption, do what the call
    does as a whole. *)
Lemma schedule_step c cs t t1 :
  interleave c t = Some t1 -> schedule (c :: cs) t = schedule cs t1.
Proof. intros H. simpl. rewrite H. reflexivity. Qed.

Lemma run_producer i p q r ps c rd t1 :
  (i < length ps)%nat ->
  producer_step i p (mkThreads r (<[i := p]> ps) c rd) = Some t1 ->
  interleave (RunProducer i) (mkThreads r (<[i := p]> (<[i := q]> ps)) c rd) = Some t1.
Proof.
  intros Hlen H. rewrite list_insert_insert_eq. simpl.
  rewrite list_lookup_insert_eq by exact Hlen. exact H.
Qed.

Lemma pushFrame_statements i data count rate channels t r' :
  producers t !! i = Some PushIdle ->
  pushFrame data count rate channels (shared t) = Ok tt r' ->
  schedule (CallPush i data count rate channels :: repeat (RunProducer i) 5) t =
    Some (mkThreads r' (producers t)
            (match consumer t with PopWaiting => PopWoken | p => p end) (reader t)).
Proof.
  intros Hl Hpush.
  destruct (pushFrame_effect _ _ _ _ _ _ Hpush) as (frame & Hf & _).
  destruct (mutex (shared t)) eqn:Hm.
  { unfold pushFrame in Hpush. rewrite Hf in Hpush.
    unfold pthread_mutex_lock, mbind, M_bind in Hpush. rewrite Hm in Hpush. discriminate. }
  rewrite (pushFrame_ok _ _ _ _ _ _ Hf Hm) in Hpush. injection Hpush as <-.
  assert (Hlen : (i < length (producers t))%nat) by (eapply lookup_lt_Some; exact Hl).
  destruct t as [r ps c rd]. cbn [shared producers consumer reader] in *. cbn [repeat].
  rewrite (schedule_step _ _ _ (mkThreads r (<[i := PushLock frame]> (<[i := PushIdle]> ps)) c rd))
    by (simpl; rewrite Hl, Hf, list_insert_insert_eq; reflexivity).
  rewrite (schedule_step _ _ _
             (mkThreads (set_mutex true r)
                (<[i := PushEnqueue frame]> (<[i := PushLock frame]> ps)) c rd))
    by (apply run_producer; [exact Hlen|]; simpl; rewrite Hm;
        unfold set_producer; simpl; reflexivity).
  rewrite (schedule_step _ _ _
             (mkThreads (set_audioQueue (audioQueue r ++ [frame]) (set_mutex true r))
                (<[i := PushCount frame]> (<[i := PushEnqueue frame]> ps)) c rd))
    by (apply run_producer; [exact Hlen|]; simpl; unfold set_producer; simpl; reflexivity).
  rewrite (schedule_step _ _ _
             (mkThreads (set_queuedSampleCount
                           (Int32.add (queuedSampleCount r) (sampleCount frame))
                           (set_audioQueue (audioQueue r ++ [frame]) (set_mutex true r)))
                (<[i := PushSignal]> (<[i := PushCount frame]> ps)) c rd))
    by (apply run_producer; [exact Hlen|]; simpl; unfold set_producer; simpl; reflexivity).
  rewrite (schedule_step _ _ _
             (mkThreads (set_queuedSampleCount
                           (Int32.add (queuedSampleCount r) (sampleCount frame))
                           (set_audioQueue (audioQueue r ++ [frame]) (set_mutex true r)))
                (<[i := PushUnlock]> (<[i := PushSignal]> ps))
                (match c with PopWaiting => PopWoken | p => p end) rd))
    by (apply run_producer; [exact Hlen|]; simpl; unfold set_producer;
        destruct c; simpl; rewrite list_insert_insert_eq; reflexivity).
  rewrite (schedule_step _ _ _
             (mkThreads (set_mutex false
                          (set_queuedSampleCount
                             (Int32.add (queuedSampleCount r) (sampleCount frame))
                             (set_audioQueue (audioQueue r ++ [frame]) (set_mutex true r))))
                (<[i := PushIdle]> (<[i := PushUnlock]> ps))
                (match c with PopWaiting => PopWoken | p => p end) rd))
    by (apply run_producer; [exact Hlen|]; simpl; unfold set_producer; simpl;
        rewrite list_insert_insert_eq; reflexivity).
  simpl. rewrite list_insert_insert_eq, (list_insert_id _ _ _ Hl).
  destruct c; reflexivity.
Qed.

Lemma popFrame_statements wait_result t :
  consumer t = PopIdle ->
  mutex (shared t) = false ->
  match popFrame wait_result (shared t) with
  | Ok (Some frame) r' =>
      schedule (CallPop :: repeat (RunConsumer wait_result) 5) t =
        Some (mkThreads r' (producers t) (PopReturned (Some frame)) (reader t))
  | Ok None r' =>
      schedule (CallPop :: repeat (RunConsumer wait_result) 2) t =
        Some (mkThreads r' (producers t) (PopReturned None) (reader t))
  | Blocked =>
      schedule (CallPop :: repeat (RunConsumer wait_result) 2) t =
        Some (mkThreads (shared t) (producers t) PopWaiting (reader t))
  | Fault => False
  end.
Proof.
  intros Hc Hm. destruct t as [r ps c rd]. simpl in *. subst c.
  destruct (audioQueue r) as [|frame rest] eqn:Hq.
  - rewrite (popFrame_empty _ _ Hq Hm). unfold schedule, interleave, consumer_step. simpl.
    rewrite Hm. simpl. rewrite Hq.
    destruct (wait_result =? 0); simpl; [|reflexivity].
    unfold set_consumer, set_shared. simpl. do 2 f_equal.
    destruct r; simpl in *; subst; reflexivity.
  - rewrite (popFrame_ok _ _ _ _ Hq Hm). unfold schedule, interleave, consumer_step. simpl.
    rewrite Hm. simpl. rewrite Hq. simpl. rewrite Hq. reflexivity.
Qed.

Lemma getBufferSize_statements t :
  reader t = SizeIdle ->
  mutex (shared t) = false ->
  exists result,
    getBufferSize (shared t) = Ok result (shared t) /\
    schedule (CallSize :: repeat RunReader 3) t =
      Some (mkThreads (shared t) (producers t) (consumer t) (SizeReturned result)).
Proof.
  intros Hrd Hm. destruct t as [r ps c rd]. simpl in *. subst rd.
  exists (Int32.add (bufferedSampleCount r) (queuedSampleCount r)). split.
  - unfold getBufferSize, get, pthread_mutex_lock, pthread_mutex_unlock, modify.
    unfold mbind, M_bind, mret, M_ret. simpl. rewrite Hm. destruct r; simpl in *.
    subst. reflexivity.
  - unfold schedule, interleave, reader_step. simpl. rewrite Hm. simpl.
    unfold set_reader, set_shared. simpl. do 2 f_equal.
    destruct r; simpl in *; subst; reflexivity.
Qed.

(** ** The playback clock (C6)

    Rounding in binary32, from the definitions of [SpecFloat]: the
    mantissa is shifted to the exponent of its format, rounded to
    nearest-even, and shifted once more if the rounding carried. *)

Lemma fexp32_eq k : fexp32 k = Z.max (k - 24) (-149).
Proof. reflexivity. Qed.

Lemma digits2_pos_size p : digits2_pos p = Pos.size p.
Proof. induction p; simpl; congruence. Qed.

Lemma Zdigits2_log2 m : 0 < m -> Zdigits2 m = Z.log2 m + 1.
Proof.
  destruct m as [|p|p]; try lia. intros _. simpl. rewrite digits2_pos_size.
  destruct p; simpl; lia.
Qed.

Lemma Zdigits2_bounds m : 0 < m -> 2 ^ (Zdigits2 m - 1) <= m < 2 ^ Zdigits2 m.
Proof.
  intros H. rewrite (Zdigits2_log2 m H). replace (Z.log2 m + 1 - 1) with (Z.log2 m) by lia.
  apply (Z.log2_spec m H).
Qed.

Lemma Zdigits2_unique m d : 0 < m -> 2 ^ (d - 1) <= m < 2 ^ d -> Zdigits2 m = d.
Proof.
  intros H Hb. rewrite (Zdigits2_log2 m H).
  assert (0 <= d - 1).
  { destruct (Z_lt_le_dec (d - 1) 0) as [Hn|]; [|lia].
    assert (d <= 0) by lia. 
    assert (2 ^ d <= 1). { destruct (Z.eq_dec d 0) as [->|]; [simpl; lia|]. rewrite Z.pow_neg_r; lia. }
    lia. }
  rewrite (Z.log2_unique m (d - 1)); try lia.
  replace (Z.succ (d - 1)) with d by lia. exact Hb.
Qed.

Lemma Zdigits2_nonneg m : 0 <= m -> 0 <= Zdigits2 m.
Proof. destruct m; simpl; lia. Qed.

Lemma Zdigits2_pos m : 0 < m -> 0 < Zdigits2 m.
Proof. destruct m; simpl; lia. Qed.

Lemma Zdigits2_mono a b : 0 <= a <= b -> Zdigits2 a <= Zdigits2 b.
Proof.
  intros [Ha Hab]. destruct (Z.eq_dec a 0) as [->|Hne].
  - simpl. apply Zdigits2_nonneg. lia.
  - rewrite !Zdigits2_log2 by lia. pose proof (Z.log2_le_mono a b Hab). lia.
Qed.

Lemma Zdigits2_div_pow2 m n :
  0 <= n -> 0 < m / 2 ^ n -> Zdigits2 (m / 2 ^ n) = Zdigits2 m - n.
Proof.
  intros Hn Hq.
  assert (Hp : 0 < 2 ^ n) by (apply Z.pow_pos_nonneg; lia).
  assert (Hm : 0 < m).
  { destruct (Z_lt_le_dec 0 m); [assumption|]. 
    assert (m / 2 ^ n <= 0) by (apply Z.div_le_upper_bound; lia). lia. }
  pose proof (Zdigits2_bounds m Hm) as [Hlo Hhi].
  assert (Hge : 2 ^ n <= m).
  { destruct (Z_lt_le_dec m (2 ^ n)); [|assumption]. rewrite Z.div_small in Hq; lia. }
  assert (Hnd : n < Zdigits2 m).
  { destruct (Z_lt_le_dec n (Zdigits2 m)); [assumption|].
    assert (2 ^ Zdigits2 m <= 2 ^ n) by (apply Z.pow_le_mono_r; lia). lia. }
  apply Zdigits2_unique; [assumption|]. split.
  - apply Z.div_le_lower_bound; [assumption|].
    rewrite <- Z.pow_add_r by lia. replace (n + (Zdigits2 m - n - 1)) with (Zdigits2 m - 1) by lia.
    exact Hlo.
  - apply Z.div_lt_upper_bound; [assumption|].
    rewrite <- Z.pow_add_r by lia. replace (n + (Zdigits2 m - n)) with (Zdigits2 m) by lia.
    exact Hhi.
Qed.

Lemma Zdigits2_mul_pow2 m n : 0 < m -> 0 <= n -> Zdigits2 (m * 2 ^ n) = Zdigits2 m + n.
Proof.
  intros Hm Hn. assert (Hp : 0 < 2 ^ n) by (apply Z.pow_pos_nonneg; lia).
  pose proof (Zdigits2_bounds m Hm) as [Hlo Hhi].
  pose proof (Zdigits2_pos m Hm).
  apply Zdigits2_unique; [nia|].
  replace (Zdigits2 m + n - 1) with (Zdigits2 m - 1 + n) by lia.
  rewrite !Z.pow_add_r by lia. split; nia.
Qed.

Lemma fexp32_mono a b : a <= b -> fexp32 a <= fexp32 b.
Proof. rewrite !fexp32_eq. lia. Qed.

Lemma shr_1_m mrs : 0 <= shr_m mrs -> shr_m (shr_1 mrs) = shr_m mrs / 2.
Proof.
  destruct mrs as [m r s]. simpl. intros Hm. rewrite <- Z.div2_div.
  destruct m as [|[p|p|]|p]; try reflexivity. lia.
Qed.

Lemma shr_m_iter n : forall mrs,
  0 <= shr_m mrs -> shr_m (SpecFloat.iter_pos shr_1 n mrs) = shr_m mrs / 2 ^ Zpos n.
Proof.
  assert (Hdiv : forall a b c, 0 < b -> 0 < c -> a / b / c = a / (b * c))
    by (intros; apply Z.div_div; lia).
  assert (Hnn : forall a b, 0 <= a -> 0 < b -> 0 <= a / b)
    by (intros; apply Z.div_pos; lia).
  induction n as [n IH|n IH|]; intros mrs Hm; simpl.
  - assert (H1 : 0 <= shr_m (shr_1 mrs)) by (rewrite shr_1_m by lia; apply Hnn; lia).
    assert (Hp : 0 < 2 ^ Zpos n) by (apply Z.pow_pos_nonneg; lia).
    rewrite IH by (rewrite IH by lia; apply Hnn; lia).
    rewrite IH by lia. rewrite shr_1_m by lia. rewrite !Hdiv by lia. f_equal.
    rewrite Pos2Z.inj_xI. rewrite Z.pow_add_r by lia. rewrite Z.pow_mul_r by lia.
    change (2 ^ 2) with 4. change (2 ^ 1) with 2.
    replace (4 ^ Zpos n) with (2 ^ Zpos n * 2 ^ Zpos n).
    + lia.
    + rewrite <- Z.pow_add_r by lia. replace (Zpos n + Zpos n) with (2 * Zpos n) by lia.
      rewrite Z.pow_mul_r by lia. reflexivity.
  - assert (Hp : 0 < 2 ^ Zpos n) by (apply Z.pow_pos_nonneg; lia).
    rewrite IH by (rewrite IH by lia; apply Hnn; lia).
    rewrite IH by lia. rewrite !Hdiv by lia. f_equal.
    rewrite Pos2Z.inj_xO. rewrite <- Z.pow_add_r by lia. f_equal. lia.
  - rewrite shr_1_m by lia. reflexivity.
Qed.

Lemma shr_spec mrs e n :
  0 <= shr_m mrs ->
  shr_m (fst (shr mrs e n)) = shr_m mrs / 2 ^ Z.max n 0 /\
  snd (shr mrs e n) = e + Z.max n 0.
Proof.
  intros Hm. destruct n as [|p|p]; simpl.
  - rewrite Z.div_1_r. lia.
  - rewrite shr_m_iter by lia. split; reflexivity.
  - rewrite Z.div_1_r. lia.
Qed.

Lemma shr_record_of_loc_m m l : shr_m (shr_record_of_loc m l) = m.
Proof. destruct l as [|[]]; reflexivity. Qed.

(** Shifting a mantissa that is long enough down to the exponent of its
    format. *)
Lemma shr_fexp_spec m e l :
  0 <= m -> e <= fexp32 (Zdigits2 m + e) ->
  let E := fexp32 (Zdigits2 m + e) in
  let m' := shr_m (fst (shr_fexp F32.prec F32.emax m e l)) in
  snd (shr_fexp F32.prec F32.emax m e l) = E /\
  m' = m / 2 ^ (E - e) /\
  0 <= m' /\
  (0 < m' -> Zdigits2 m' + E = Zdigits2 m + e) /\
  (-149 < Zdigits2 m + e -> 0 < m') /\
  (m' = 0 -> E = -149).
Proof.
  intros Hm Hpre E m'. subst m'. unfold shr_fexp. fold E.
  destruct (shr_spec (shr_record_of_loc m l) e (E - e)) as [Hs He];
    [rewrite shr_record_of_loc_m; exact Hm|].
  rewrite shr_record_of_loc_m in Hs. rewrite Hs, He.
  replace (Z.max (E - e) 0) with (E - e) by lia.
  assert (Hp : 0 < 2 ^ (E - e)) by (apply Z.pow_pos_nonneg; lia).
  assert (Hq : 0 <= m / 2 ^ (E - e)) by (apply Z.div_pos; lia).
  split; [lia|]. split; [reflexivity|]. split; [exact Hq|].
  assert (Hzero : m / 2 ^ (E - e) = 0 -> Zdigits2 m + e <= E).
  { intros H0. destruct (Z.eq_dec m 0) as [->|Hne]; [simpl; lia|].
    pose proof (Zdigits2_bounds m ltac:(lia)) as [Hlo _].
    destruct (Z_lt_le_dec (E - e) (Zdigits2 m)) as [Hlt|]; [|lia].
    assert (2 ^ (E - e) <= 2 ^ (Zdigits2 m - 1)) by (apply Z.pow_le_mono_r; lia).
    assert (1 <= m / 2 ^ (E - e)) by (apply Z.div_le_lower_bound; lia). lia. }
  split; [|split].
  - intros Hpos. rewrite Zdigits2_div_pow2 by lia. lia.
  - intros Hk. destruct (Z.eq_dec (m / 2 ^ (E - e)) 0) as [H0|]; [|lia].
    specialize (Hzero H0). subst E. rewrite fexp32_eq in Hzero. lia.
  - intros H0. specialize (Hzero H0). subst E. rewrite fexp32_eq in *. lia.
Qed.

Lemma round_nearest_even_bounds m l :
  m <= round_nearest_even m l <= m + 1.
Proof. destruct l as [|[]]; simpl; try lia. destruct (Z.even m); lia. Qed.

(** What [binary_round_aux] returns for a mantissa that is not negative
    and long enough. *)
Lemma binary_round_aux_spec s m e l :
  0 <= m -> e <= fexp32 (Zdigits2 m + e) ->
  let E := fexp32 (Zdigits2 m + e) in
  exists m2 e2,
    binary_round_aux F32.prec F32.emax s m e l =
      match m2 with
      | Z0 => S754_zero s
      | Zpos p => if e2 <=? 104 then S754_finite s p e2 else S754_infinity s
      | Zneg _ => S754_nan
      end /\
    0 <= m2 /\
    E <= e2 <= E + 1 /\
    (e2 = E -> m / 2 ^ (E - e) <= m2) /\
    (0 < m2 -> fexp32 (Zdigits2 m2 + e2) = e2) /\
    (-149 < Zdigits2 m + e -> 0 < m2).
Proof.
  intros Hm Hpre E. unfold binary_round_aux.
  destruct (shr_fexp_spec m e l Hm Hpre) as (He1 & Hm1 & Hnn1 & Hd1 & Hpos1 & Hz1).
  fold E in He1, Hm1, Hd1, Hz1.
  destruct (shr_fexp F32.prec F32.emax m e l) as [mrs1 e1]. simpl in He1, Hm1, Hnn1, Hd1, Hpos1, Hz1.
  subst e1.
  set (m1 := shr_m mrs1) in *.
  set (m1' := round_nearest_even m1 (loc_of_shr_record mrs1)).
  pose proof (round_nearest_even_bounds m1 (loc_of_shr_record mrs1)) as Hr. fold m1' in Hr.
  assert (Hpre2 : E <= fexp32 (Zdigits2 m1' + E)).
  { destruct (Z.eq_dec m1 0) as [H0|Hne].
    - rewrite (Hz1 H0). rewrite fexp32_eq. lia.
    - assert (Hc : fexp32 (Zdigits2 m1 + E) = E) by (rewrite Hd1 by lia; reflexivity).
      rewrite <- Hc at 1. apply fexp32_mono.
      pose proof (Zdigits2_mono m1 m1' ltac:(lia)). lia. }
  assert (Hup : fexp32 (Zdigits2 m1' + E) <= E + 1).
  { destruct (Z.eq_dec m1 0) as [H0|Hne].
    - rewrite (Hz1 H0). assert (Zdigits2 m1' <= 1).
      { destruct (Z.eq_dec m1' 0) as [->|]; [simpl; lia|].
        replace m1' with 1 by lia. simpl. lia. }
      rewrite fexp32_eq. lia.
    - assert (Hc : fexp32 (Zdigits2 m1 + E) = E) by (rewrite Hd1 by lia; reflexivity).
      assert (Zdigits2 m1' <= Zdigits2 m1 + 1).
      { pose proof (Zdigits2_bounds m1 ltac:(lia)) as [_ Hhi].
        pose proof (Zdigits2_pos m1 ltac:(lia)) as Hdp.
        destruct (Z.eq_dec m1' (2 ^ Zdigits2 m1)) as [->|].
        - assert (Hu : Zdigits2 (2 ^ Zdigits2 m1) = Zdigits2 m1 + 1).
          { apply Zdigits2_unique; [apply Z.pow_pos_nonneg; lia|].
            replace (Zdigits2 m1 + 1 - 1) with (Zdigits2 m1) by lia.
            split; [lia|]. apply Z.pow_lt_mono_r; lia. }
          lia.
        - assert (Hu : Zdigits2 m1' = Zdigits2 m1).
          { apply Zdigits2_unique; [lia|].
            pose proof (Zdigits2_bounds m1 ltac:(lia)). lia. }
          lia. }
      rewrite fexp32_eq in *. lia. }
  destruct (shr_fexp_spec m1' E loc_Exact ltac:(lia) Hpre2) as (He2 & Hm2 & Hnn2 & Hd2 & Hpos2 & Hz2).
  destruct (shr_fexp F32.prec F32.emax m1' E loc_Exact) as [mrs2 e2].
  simpl in He2, Hm2, Hnn2, Hd2, Hpos2, Hz2.
  exists (shr_m mrs2), e2. split.
  { destruct (shr_m mrs2); try reflexivity. }
  split; [exact Hnn2|]. split; [lia|]. split; [|split].
  - intros Heq. rewrite Hm2. rewrite He2 in Heq. rewrite Heq, Z.sub_diag. simpl.
    rewrite Z.div_1_r. lia.
  - intros Hpos. rewrite He2 at 2. rewrite <- (Hd2 Hpos). rewrite He2. reflexivity.
  - intros Hk. apply Hpos2.
    assert (0 < m1') by (specialize (Hpos1 Hk); lia).
    pose proof (Zdigits2_pos m1' ltac:(lia)). subst E. rewrite fexp32_eq. lia.
Qed.

Lemma pos_iter_xO m d : Zpos (Pos.iter xO m d) = Zpos m * 2 ^ Zpos d.
Proof.
  induction d as [|d IH] using Pos.peano_ind.
  - simpl. lia.
  - rewrite Pos.iter_succ, Pos2Z.inj_xO, IH, Pos2Z.inj_succ, Z.pow_succ_r by lia. lia.
Qed.

Lemma shl_align_spec mx ex ex' :
  snd (shl_align mx ex ex') = Z.min ex ex' /\
  Zpos (fst (shl_align mx ex ex')) = Zpos mx * 2 ^ (ex - Z.min ex ex').
Proof.
  unfold shl_align. destruct (ex' - ex) as [|d|d] eqn:Hd; simpl.
  - replace (Z.min ex ex') with ex by lia. rewrite Z.sub_diag. simpl. lia.
  - replace (Z.min ex ex') with ex by lia. rewrite Z.sub_diag. simpl. lia.
  - replace (Z.min ex ex') with ex' by lia. split; [reflexivity|].
    rewrite pos_iter_xO. f_equal. f_equal. lia.
Qed.

Lemma rounded_valid s m2 e2 :
  0 <= m2 -> (0 < m2 -> fexp32 (Zdigits2 m2 + e2) = e2) ->
  valid_binary F32.prec F32.emax (rounded s m2 e2) = true.
Proof.
  intros Hnn Hc. destruct m2 as [|p|p]; simpl; try reflexivity.
  destruct (Z.leb_spec e2 104) as [Hle|Hgt]; simpl; [|reflexivity].
  unfold bounded, canonical_mantissa. apply andb_true_intro. split.
  - apply Z.eqb_eq. apply (Hc ltac:(lia)).
  - apply Z.leb_le. exact Hle.
Qed.

Lemma binary_round_spec s m e :
  let k := Zpos (digits2_pos m) + e in
  let ez := Z.min e (fexp32 k) in
  exists m2 e2,
    binary_round F32.prec F32.emax s m e = rounded s m2 e2 /\
    0 <= m2 /\
    fexp32 k <= e2 <= fexp32 k + 1 /\
    (e2 = fexp32 k -> Zpos m * 2 ^ (e - ez) / 2 ^ (fexp32 k - ez) <= m2) /\
    (0 < m2 -> fexp32 (Zdigits2 m2 + e2) = e2) /\
    (-149 < k -> 0 < m2).
Proof.
  intros k ez. unfold binary_round. fold k.
  destruct (shl_align_spec m e (fexp32 k)) as [He Hmz]. fold ez in He, Hmz.
  destruct (shl_align m e (fexp32 k)) as [mz ez']. simpl in He, Hmz. subst ez'.
  assert (Hd : Zdigits2 (Zpos mz) + ez = k).
  { rewrite Hmz. rewrite Zdigits2_mul_pow2 by lia. subst k. simpl. lia. }
  assert (Hpre : ez <= fexp32 (Zdigits2 (Zpos mz) + ez)) by (rewrite Hd; lia).
  destruct (binary_round_aux_spec s (Zpos mz) ez loc_Exact ltac:(lia) Hpre)
    as (m2 & e2 & Hr & Hnn & He2 & Hlow & Hcan & Hpos).
  rewrite Hd in He2, Hlow, Hpos. exists m2, e2. rewrite Hmz in Hlow.
  repeat split; try assumption; lia.
Qed.

Lemma rounded_nonneg m2 e2 : 0 <= m2 -> nonneg_float (rounded false m2 e2).
Proof. intros H. destruct m2; simpl; try exact I; [|lia]. destruct (e2 <=? 104); exact I. Qed.

Lemma binary_round_aux_nonneg m e l :
  0 <= m -> nonneg_float (binary_round_aux F32.prec F32.emax false m e l).
Proof.
  intros Hm. unfold binary_round_aux, shr_fexp.
  destruct (shr_spec (shr_record_of_loc m l) e (fexp32 (Zdigits2 m + e) - e)) as [Hs He];
    [rewrite shr_record_of_loc_m; exact Hm|].
  rewrite shr_record_of_loc_m in Hs.
  destruct (shr (shr_record_of_loc m l) e (fexp32 (Zdigits2 m + e) - e)) as [mrs1 e1].
  simpl in Hs, He.
  assert (H1 : 0 <= shr_m mrs1)
    by (rewrite Hs; apply Z.div_pos; [lia | apply Z.pow_pos_nonneg; lia]).
  pose proof (round_nearest_even_bounds (shr_m mrs1) (loc_of_shr_record mrs1)) as Hr.
  set (m1' := round_nearest_even (shr_m mrs1) (loc_of_shr_record mrs1)) in *.
  destruct (shr_spec (shr_record_of_loc m1' loc_Exact) e1 (fexp32 (Zdigits2 m1' + e1) - e1))
    as [Hs2 He2]; [simpl; lia|].
  destruct (shr (shr_record_of_loc m1' loc_Exact) e1 (fexp32 (Zdigits2 m1' + e1) - e1))
    as [mrs2 e2].
  simpl in Hs2, He2.
  assert (H2 : 0 <= shr_m mrs2)
    by (rewrite Hs2; apply Z.div_pos; [lia | apply Z.pow_pos_nonneg; lia]).
  destruct (shr_m mrs2); try exact I; [|lia].
  destruct (_ <=? _); exact I.
Qed.

Lemma compare_cont_le a b : (a <= b)%positive ->
  match Pos.compare_cont Eq a b with Gt => False | _ => True end.
Proof.
  intros H. change (Pos.compare_cont Eq a b) with (Pos.compare a b).
  destruct (Pos.compare_spec a b); try exact I. lia.
Qed.

(** Adding a float that is not negative to a valid clock gives a valid
    clock that is not smaller. *)
Lemma add_nonneg_ge x y :
  valid_clock x -> nonneg_float y -> valid_binary F32.prec F32.emax y = true ->
  F32.leb x (F32.add x y) = true /\ valid_clock (F32.add x y).
Proof.
  intros [Hx Hvx] Hy Hvy. unfold F32.leb, F32.add, SFleb.
  destruct x as [sx|[]| |[] mx ex]; try contradiction;
  destruct y as [sy|[]| |[] my ey]; try contradiction;
    try (split; [reflexivity | split; [exact I | assumption || reflexivity]]).
  - (* zero + zero *)
    destruct sx, sy; simpl; (split; [reflexivity | split; [exact I | reflexivity]]).
  - (* finite + zero *)
    simpl. rewrite Z.compare_refl, Pos.compare_cont_refl.
    split; [reflexivity | split; [exact I | assumption]].
  - (* finite + finite *)
    unfold SFadd, cond_Zopp.
    set (ez := Z.min ex ey).
    destruct (shl_align_spec mx ex ez) as [_ Hax].
    destruct (shl_align_spec my ey ez) as [_ Hay].
    replace (Z.min ex ez) with ez in Hax by lia.
    replace (Z.min ey ez) with ez in Hay by lia.
    assert (Hpx : 0 < 2 ^ (ex - ez)) by (apply Z.pow_pos_nonneg; lia).
    assert (Hpy : 0 < 2 ^ (ey - ez)) by (apply Z.pow_pos_nonneg; lia).
    destruct (Z.pos (fst (shl_align mx ex ez)) + Z.pos (fst (shl_align my ey ez)))
      as [|M|M] eqn:HM; try lia.
    unfold binary_normalize.
    destruct (binary_round_spec false M ez) as (m2 & e2 & Hr & Hnn & He2 & Hlow & Hcan & Hpos).
    change (Zpos (digits2_pos M)) with (Zdigits2 (Zpos M)) in *.
    set (k := Zdigits2 (Zpos M) + ez) in *.
    simpl in Hvx. unfold bounded, canonical_mantissa in Hvx.
    apply andb_prop in Hvx. destruct Hvx as [Hcx Hbx].
    apply Z.eqb_eq in Hcx. apply Z.leb_le in Hbx.
    change (Zpos (digits2_pos mx)) with (Zdigits2 (Zpos mx)) in Hcx.
    assert (Hk : Zdigits2 (Zpos mx) + ex <= k).
    { subst k. assert (Hle : Zpos mx * 2 ^ (ex - ez) <= Zpos M) by lia.
      assert (Hnn0 : 0 <= Zpos mx * 2 ^ (ex - ez)) by lia.
      pose proof (Zdigits2_mono _ _ (conj Hnn0 Hle)) as Hmono.
      rewrite Zdigits2_mul_pow2 in Hmono by lia. lia. }
    assert (HE : ex <= fexp32 k) by (rewrite <- Hcx; apply fexp32_mono; exact Hk).
    assert (Hkpos : -149 < k).
    { rewrite fexp32_eq in Hcx. assert (0 < Zdigits2 (Zpos mx)) by (simpl; lia). lia. }
    specialize (Hpos Hkpos).
    rewrite Hr. destruct m2 as [|p|p]; try lia. simpl.
    destruct (Z.leb_spec e2 104) as [Hfin|Hinf].
    + split.
      * simpl. destruct (Z.compare_spec ex e2) as [Heq|Hlt|Hgt]; try reflexivity.
        -- subst e2. assert (Hfe : ex = fexp32 k) by lia.
           specialize (Hlow Hfe). replace (Z.min ez (fexp32 k)) with ez in Hlow by lia.
           rewrite Z.sub_diag in Hlow. simpl in Hlow. rewrite Z.mul_1_r in Hlow.
           rewrite <- Hfe in Hlow.
           assert (Hq : Zpos mx <= Zpos M / 2 ^ (ex - ez)).
           { apply Z.div_le_lower_bound; lia. }
           assert (Hmp : (mx <= p)%positive) by lia.
           pose proof (compare_cont_le mx p Hmp) as Hc.
           destruct (Pos.compare_cont Eq mx p); try reflexivity. contradiction.
        -- lia.
      * split; [exact I|]. simpl. unfold bounded, canonical_mantissa.
        apply andb_true_intro.
        split; [apply Z.eqb_eq; apply Hcan; lia | apply Z.leb_le; exact Hfin].
    + split; [reflexivity | split; [exact I | reflexivity]].
Qed.

Lemma SFdiv_core_binary_spec m1 e1 m2 e2 :
  0 < m1 -> 0 < m2 ->
  let '(q, e', l) := SFdiv_core_binary F32.prec F32.emax m1 e1 m2 e2 in
  0 <= q /\ e' <= fexp32 (Zdigits2 q + e').
Proof.
  intros H1 H2. unfold SFdiv_core_binary.
  set (d1 := Zdigits2 m1). set (d2 := Zdigits2 m2).
  set (e' := Z.min (fexp32 (d1 + e1 - (d2 + e2))) (e1 - e2)).
  set (s := e1 - e2 - e').
  assert (Hs : 0 <= s) by (subst s e'; lia).
  set (m' := match s with Z.pos _ => Z.shiftl m1 s | 0 => m1 | Z.neg _ => 0 end).
  assert (Hm' : m' = m1 * 2 ^ s).
  { subst m'. destruct s as [|p|p] eqn:Es;
      [simpl; lia | rewrite Z.shiftl_mul_pow2 by lia; reflexivity | lia]. }
  pose proof (Z_div_mod m' m2 ltac:(lia)) as Hdm.
  destruct (Z.div_eucl m' m2) as [q r]. destruct Hdm as [Heq Hr].
  assert (Hp : 0 < 2 ^ s) by (apply Z.pow_pos_nonneg; lia).
  assert (Hq : 0 <= q) by nia.
  split; [exact Hq|].
  assert (Hdig : d1 + s - d2 <= Zdigits2 q).
  { pose proof (Zdigits2_bounds m1 H1) as [Hlo1 _]. fold d1 in Hlo1.
    pose proof (Zdigits2_bounds m2 H2) as [_ Hhi2]. fold d2 in Hhi2.
    pose proof (Zdigits2_pos m1 H1) as Hd1. fold d1 in Hd1.
    pose proof (Zdigits2_pos m2 H2) as Hd2. fold d2 in Hd2.
    pose proof (Zdigits2_nonneg q Hq) as Hdq.
    assert (Hlo' : 2 ^ (d1 - 1 + s) <= m') by (rewrite Hm', Z.pow_add_r by lia; nia).
    destruct (Z_lt_le_dec (Zdigits2 q) (d1 + s - d2)) as [Hlt|]; [exfalso|lia].
    assert (Hqb : q < 2 ^ Zdigits2 q).
    { destruct (Z.eq_dec q 0) as [->|]; [simpl; lia|]. apply Zdigits2_bounds. lia. }
    assert (Hqb' : q + 1 <= 2 ^ (d1 + s - d2 - 1)).
    { assert (2 ^ Zdigits2 q <= 2 ^ (d1 + s - d2 - 1)) by (apply Z.pow_le_mono_r; lia). lia. }
    assert (Hprod : 2 ^ (d1 + s - d2 - 1) * 2 ^ d2 = 2 ^ (d1 - 1 + s)).
    { rewrite <- Z.pow_add_r by lia. f_equal. lia. }
    assert (m' < (q + 1) * m2) by nia.
    assert ((q + 1) * m2 <= 2 ^ (d1 + s - d2 - 1) * 2 ^ d2).
    { apply Z.mul_le_mono_nonneg; lia. }
    lia. }
  assert (Hmono : fexp32 (d1 + e1 - (d2 + e2)) <= fexp32 (Zdigits2 q + e')).
  { apply fexp32_mono. subst s. lia. }
  subst e'. lia.
Qed.

Lemma of_int_pos z :
  0 < z <= Int32.max_int ->
  exists p e, F32.of_int z = S754_finite false p e /\
              bounded F32.prec F32.emax p e = true.
Proof.
  intros [Hz Hmax]. destruct z as [|m|m]; try lia.
  unfold F32.of_int, binary_normalize.
  destruct (binary_round_spec false m 0) as (m2 & e2 & Hr & Hnn & He2 & _ & Hcan & Hpos).
  change (Zpos (digits2_pos m)) with (Zdigits2 (Zpos m)) in *.
  assert (Hd : 0 < Zdigits2 (Zpos m) <= 31).
  { split; [simpl; lia|].
    destruct (Z_lt_le_dec 31 (Zdigits2 (Zpos m))) as [Hgt|]; [|lia].
    pose proof (Zdigits2_bounds (Zpos m) ltac:(lia)) as [Hlo _].
    assert (2 ^ 31 <= 2 ^ (Zdigits2 (Zpos m) - 1)) by (apply Z.pow_le_mono_r; lia).
    unfold Int32.max_int in Hmax. lia. }
  specialize (Hpos ltac:(lia)). rewrite Hr.
  destruct m2 as [|p|p]; try lia. simpl.
  rewrite fexp32_eq in He2.
  destruct (Z.leb_spec e2 104) as [Hle|Hgt]; [|lia].
  exists p, e2. split; [reflexivity|].
  unfold bounded, canonical_mantissa. apply andb_true_intro.
  split; [apply Z.eqb_eq; apply Hcan; lia | apply Z.leb_le; exact Hle].
Qed.

Lemma div_finite_ok s1 m1 e1 m2 e2 :
  let x := F32.div (S754_finite s1 m1 e1) (S754_finite false m2 e2) in
  valid_binary F32.prec F32.emax x = true /\ (s1 = false -> nonneg_float x).
Proof.
  unfold F32.div, SFdiv.
  pose proof (SFdiv_core_binary_spec (Zpos m1) e1 (Zpos m2) e2 ltac:(lia) ltac:(lia)) as H.
  destruct (SFdiv_core_binary F32.prec F32.emax (Zpos m1) e1 (Zpos m2) e2) as [[q e'] l].
  destruct H as [Hq Hpre]. rewrite xorb_false_r. split.
  - destruct (binary_round_aux_spec s1 q e' l Hq Hpre) as (m & e & Hr & Hnn & _ & _ & Hcan & _).
    change (binary_round_aux F32.prec F32.emax s1 q e' l = rounded s1 m e) in Hr.
    rewrite Hr. apply rounded_valid; assumption.
  - intros ->. apply binary_round_aux_nonneg. exact Hq.
Qed.

(** The increment of the clock for a frame with a sample count that is
    not negative and a positive sample rate. *)
Lemma frame_seconds_ok frame :
  0 <= frame.(sampleCount) <= Int32.max_int ->
  0 < frame.(sampleRate) <= Int32.max_int ->
  nonneg_float (frame_seconds frame) /\
  valid_binary F32.prec F32.emax (frame_seconds frame) = true.
Proof.
  intros Hc Hr. unfold frame_seconds.
  destruct (of_int_pos (sampleRate frame) Hr) as (pr & er & -> & _).
  destruct (Z.eq_dec (sampleCount frame) 0) as [->|Hne].
  - vm_compute. auto.
  - destruct (of_int_pos (sampleCount frame) ltac:(lia)) as (pc & ec & -> & _).
    unfold F32.mul, F32.one, SFmul. rewrite xorb_false_r.
    pose proof (binary_round_aux_nonneg (Zpos (pc * 8388608)) (ec + -23) loc_Exact ltac:(lia))
      as Hn.
    pose proof (binary_round_aux_spec false (Zpos (pc * 8388608)) (ec + -23) loc_Exact).
    destruct (binary_round_aux F32.prec F32.emax false (Zpos (pc * 8388608)) (ec + -23) loc_Exact)
      as [s|[]| |[] m e]; try contradiction.
    + simpl. auto.
    + simpl. auto.
    + destruct (div_finite_ok false m e pr er) as [Hv Hnn]. split; [apply Hnn; reflexivity|exact Hv].
Qed.

(** *** The clock along the steps of the system *)

Lemma popFrame_clock wait_result r o r' :
  popFrame wait_result r = Ok o r' -> secondsPlayed r' = secondsPlayed r.
Proof.
  destruct (mutex r) eqn:Hm; [rewrite (popFrame_locked _ _ Hm); discriminate|].
  destruct (audioQueue r) as [|frame rest] eqn:Hq.
  - rewrite (popFrame_empty _ _ Hq Hm). destruct (wait_result =? 0); [discriminate|].
    intros H. injection H as <- <-. reflexivity.
  - rewrite (popFrame_ok _ _ _ _ Hq Hm). intros H. injection H as <- <-. reflexivity.
Qed.

Lemma consumeFrame_clock buffer frame r r' :
  consumeFrame buffer (Some frame) r = Ok tt r' ->
  secondsPlayed r' = F32.add (secondsPlayed r) (frame_seconds frame) /\
  audioQueue r' = audioQueue r.
Proof.
  destruct (mutex r) eqn:Hm.
  - unfold consumeFrame, al, modify, pthread_mutex_lock, mbind, M_bind. simpl.
    rewrite Hm. discriminate.
  - rewrite (consumeFrame_ok _ _ _ Hm). intros H. injection H as <-. split; reflexivity.
Qed.

Lemma waitForProcessedBuffer_clock r buffer r' :
  waitForProcessedBuffer r = Ok buffer r' -> secondsPlayed r' = secondsPlayed r.
Proof.
  unfold waitForProcessedBuffer, get, block, modify.
  unfold pthread_mutex_lock, pthread_mutex_unlock, mbind, M_bind, mret, M_ret.
  destruct (negb _); [discriminate|].
  destruct (AL.alSourceUnqueueBuffers (device r)) as [[b d']|];
    [|intros H; injection H as <- <-; reflexivity].
  simpl. destruct (mutex r); [discriminate|]. intros H. injection H as <- <-. reflexivity.
Qed.

Lemma effect_advance_pop sys wait_result k sys' :
  pending (thread sys) = [] ->
  (forall o, pending (k o) = from_option (fun f => [f]) [] o) ->
  advance sys (popFrame wait_result) k = Some sys' ->
  thread_effect sys sys'.
Proof.
  intros Hpend Hk. unfold advance.
  destruct (popFrame wait_result (renderer sys)) as [o r'| |] eqn:Hpop; [|discriminate|].
  - intros H. injection H as <-. destruct (popFrame_effect _ _ _ _ Hpop) as [_ Hq].
    apply (effect_pop _ _ o); simpl; auto. apply (popFrame_clock _ _ _ _ Hpop).
  - intros H. injection H as <-. apply effect_other; simpl; auto.
Qed.

Lemma effect_consume_step sys buffer frame k sys' :
  pending (thread sys) = from_option (fun f => [f]) [] frame ->
  pending k = [] ->
  consume sys buffer frame k = Some sys' ->
  thread_effect sys sys'.
Proof.
  intros Hpend Hk. unfold consume.
  destruct (consumeFrame buffer frame (renderer sys)) as [[] r'| |] eqn:Hc.
  - destruct frame as [f|]; [|discriminate].
    destruct (consumeFrame_clock _ _ _ _ Hc) as [Hsp Hq].
    intros H. injection H as <-. apply (effect_consume _ _ buffer f); simpl; auto.
  - discriminate.
  - intros H. injection H as <-. apply effect_other; simpl; auto.
Qed.

Lemma effect_advance_al sys (f : AL.device -> AL.device) k sys' :
  pending k = pending (thread sys) ->
  advance sys (al f) (fun _ => k) = Some sys' ->
  thread_effect sys sys'.
Proof.
  intros Hk. unfold advance, al, modify. intros H. injection H as <-.
  apply effect_other; simpl; auto.
Qed.

Lemma effect_goto sys p :
  pending p = pending (thread sys) \/ pending p = [] -> thread_effect sys (goto p sys).
Proof. intros Hk. apply effect_other; simpl; auto. Qed.

Lemma thread_step_effect wait_result sys sys' :
  thread_step wait_result sys = Some sys' -> thread_effect sys sys'.
Proof.
  unfold thread_step.
  destruct (thread sys) as [i|i frame| | |buffer|buffer frame|buffer frame| |frame|frame
                           |frame|i|i frame|] eqn:Hpc.
  - destruct (i <? numBuffers)%nat.
    + apply effect_advance_pop; [rewrite Hpc; reflexivity|]. intros [f|]; reflexivity.
    + intros H. injection H as <-. apply effect_goto. rewrite Hpc. auto.
  - apply effect_consume_step; [rewrite Hpc; destruct frame; reflexivity | reflexivity].
  - apply effect_advance_al. rewrite Hpc. reflexivity.
  - unfold advance.
    destruct (waitForProcessedBuffer (renderer sys)) as [b r'| |] eqn:Hw; [|discriminate|].
    + destruct (waitForProcessedBuffer_effect _ _ _ Hw) as [Hq _].
      intros H. injection H as <-.
      apply effect_other; simpl;
        [right; reflexivity | exact Hq
        | apply (waitForProcessedBuffer_clock _ _ _ Hw) | reflexivity].
    + intros H. injection H as <-. apply effect_goto. auto.
  - apply effect_advance_pop; [rewrite Hpc; reflexivity|]. intros [f|]; reflexivity.
  - destruct frame as [frame|].
    + destruct (format_differs _ _ _); intros H; injection H as <-;
        apply effect_goto; rewrite Hpc; auto.
    + intros H; injection H as <-. apply effect_goto. auto.
  - apply effect_consume_step; [rewrite Hpc; reflexivity | reflexivity].
  - destruct (negb _).
    + apply effect_advance_al. rewrite Hpc. reflexivity.
    + intros H; injection H as <-. apply effect_goto. rewrite Hpc. auto.
  - apply effect_advance_al. rewrite Hpc. reflexivity.
  - apply effect_advance_al. rewrite Hpc. reflexivity.
  - apply effect_consume_step; [rewrite Hpc; reflexivity | reflexivity].
  - destruct (i <? numBuffers)%nat.
    + apply effect_advance_pop; [rewrite Hpc; reflexivity|]. intros [f|]; reflexivity.
    + intros H. injection H as <-. apply effect_goto. rewrite Hpc. auto.
  - apply effect_consume_step; [rewrite Hpc; destruct frame; reflexivity | reflexivity].
  - discriminate.
Qed.

Lemma leb_refl x : valid_clock x -> F32.leb x x = true.
Proof.
  intros [Hx _]. unfold F32.leb, SFleb.
  destruct x as [s|[]| |[] m e]; try contradiction; simpl; try reflexivity.
  rewrite Z.compare_refl, Pos.compare_cont_refl. reflexivity.
Qed.

Lemma getSecondsPlayed_ok r :
  mutex r = false -> getSecondsPlayed r = Ok (secondsPlayed r) r.
Proof.
  intros Hm. unfold getSecondsPlayed, get, pthread_mutex_lock, pthread_mutex_unlock, modify.
  unfold mbind, M_bind, mret, M_ret. simpl. rewrite Hm. destruct r; simpl in *.
  subst. reflexivity.
Qed.

Lemma resetSecondsPlayed_ok r r' :
  resetSecondsPlayed r = Ok tt r' ->
  secondsPlayed r' = F32.zero /\ audioQueue r' = audioQueue r.
Proof.
  unfold resetSecondsPlayed, pthread_mutex_lock, pthread_mutex_unlock, modify, mbind, M_bind.
  destruct (mutex r); [discriminate|]. intros H. injection H as <-. split; reflexivity.
Qed.

Lemma newFrame_fields data count rate channels frame :
  newFrame data count rate channels = Some frame ->
  frame.(sampleCount) = count /\ frame.(sampleRate) = rate /\ frame.(channelCount) = channels.
Proof.
  unfold newFrame. destruct (_ <? 0); [discriminate|].
  intros H. injection H as <-. repeat split.
Qed.

(** One step of the system: what happens to the clock, given that it is
    valid and that the frames in flight are playable. *)
Lemma clock_step e sys sys' :
  playable_push e -> clock_inv sys -> step e sys = Some sys' ->
  clock_inv sys' /\
  (e <> EReset ->
   F32.leb (secondsPlayed (renderer sys)) (secondsPlayed (renderer sys')) = true) /\
  match e with
  | EReset => secondsPlayed (renderer sys') = F32.zero
  | EThread _ =>
      (consumed sys' = consumed sys /\
       secondsPlayed (renderer sys') = secondsPlayed (renderer sys)) \/
      (exists buffer frame,
         consumed sys' = consumed sys ++ [(buffer, frame)] /\
         secondsPlayed (renderer sys') =
           F32.add (secondsPlayed (renderer sys)) (frame_seconds frame))
  | _ => secondsPlayed (renderer sys') = secondsPlayed (renderer sys)
  end.
Proof.
  intros He [Hv Hf]. destruct e as [data count rate channels|wait_result| |]; simpl.
  - destruct (pushFrame data count rate channels (renderer sys)) as [[] r'| |] eqn:Hpush;
      try discriminate.
    destruct (pushFrame_effect _ _ _ _ _ _ Hpush) as (frame & Hnew & Hq & _).
    rewrite Hnew. intros H. injection H as <-.
    assert (Hsp : secondsPlayed r' = secondsPlayed (renderer sys)).
    { destruct (mutex (renderer sys)) eqn:Hm.
      - unfold pushFrame in Hpush. rewrite Hnew in Hpush.
        unfold pthread_mutex_lock, mbind, M_bind in Hpush. rewrite Hm in Hpush. discriminate.
      - rewrite (pushFrame_ok _ _ _ _ _ _ Hnew Hm) in Hpush. injection Hpush as <-.
        reflexivity. }
    destruct (newFrame_fields _ _ _ _ _ Hnew) as (Hc & Hr & _).
    split; [|split].
    + split; simpl; [rewrite Hsp; exact Hv|]. rewrite Hq, app_assoc.
      apply Forall_app. split; [exact Hf|]. apply Forall_singleton.
      unfold playable. rewrite Hc, Hr. exact He.
    + intros _. simpl. rewrite Hsp. apply leb_refl, Hv.
    + exact Hsp.
  - intros Hstep. pose proof (thread_step_effect _ _ _ Hstep) as Heff.
    destruct Heff as [o Hp Hq Hp' Hsp Hcons|buffer frame Hp Hp' Hq Hsp Hcons|Hp' Hq Hsp Hcons].
    + split; [|split].
      * split; [rewrite Hsp; exact Hv|]. rewrite Hp'. rewrite Hp, Hq in Hf. exact Hf.
      * intros _. rewrite Hsp. apply leb_refl, Hv.
      * left. split; assumption.
    + rewrite Hp in Hf. apply Forall_app in Hf. destruct Hf as [Hfr Hfq].
      rewrite Forall_singleton in Hfr. destruct Hfr as [Hc Hr].
      destruct (frame_seconds_ok frame Hc Hr) as [Hnn Hvf].
      destruct (add_nonneg_ge _ _ Hv Hnn Hvf) as [Hle Hv'].
      split; [|split].
      * split; [rewrite Hsp; exact Hv'|]. rewrite Hp', Hq. exact Hfq.
      * intros _. rewrite Hsp. exact Hle.
      * right. exists buffer, frame. split; assumption.
    + split; [|split].
      * split; [rewrite Hsp; exact Hv|]. rewrite Hq.
        destruct Hp' as [-> | ->]; [exact Hf|].
        apply Forall_app in Hf. apply Hf.
      * intros _. rewrite Hsp. apply leb_refl, Hv.
      * left. split; assumption.
  - destruct (AL.play_one (device (renderer sys))) as [d|]; simpl; [|discriminate].
    intros H. injection H as <-. simpl. split; [split; assumption|].
    split; [intros _; apply leb_refl, Hv | reflexivity].
  - destruct (resetSecondsPlayed (renderer sys)) as [[] r'| |] eqn:Hreset; try discriminate.
    destruct (resetSecondsPlayed_ok _ _ Hreset) as [Hz Hq].
    intros H. injection H as <-. simpl. split; [|split].
    + split; simpl; [rewrite Hz; split; [exact I | reflexivity] | rewrite Hq; exact Hf].
    + intros Hne. contradiction.
    + exact Hz.
Qed.

Lemma clock_inv_run es : forall sys sys',
  Forall playable_push es -> clock_inv sys -> run es sys = Some sys' -> clock_inv sys'.
Proof.
  induction es as [|e es IH]; simpl; intros sys sys' Hes Hinv Hrun.
  - injection Hrun as <-. exact Hinv.
  - destruct (step e sys) as [sys1|] eqn:Hstep; simpl in Hrun; [|discriminate].
    apply Forall_cons in Hes. destruct Hes as [He Hes].
    exact (IH _ _ Hes (proj1 (clock_step _ _ _ He Hinv Hstep)) Hrun).
Qed.

(** C6, as the code has it. Along every run of the system in which the
    frames pushed have a sample count that is not negative and a positive
    sample rate: a step of the playback thread either leaves
    [secondsPlayed] alone or submits a frame and sets it to the binary32
    sum of its old value and [sampleCount * 1.0f / sampleRate]; a push
    and the progress of the device leave it alone; in all these steps the
    new value is not below the old one; [resetSecondsPlayed] sets it to
    zero; and [getSecondsPlayed] returns its current value. *)
Theorem secondsPlayed_monotone names es e sys sys' :
  Forall playable_push (es ++ [e]) ->
  run es (boot names) = Some sys ->
  step e sys = Some sys' ->
  (e <> EReset ->
   F32.leb (secondsPlayed (renderer sys)) (secondsPlayed (renderer sys')) = true) /\
  match e with
  | EReset => secondsPlayed (renderer sys') = F32.zero
  | EThread _ =>
      (consumed sys' = consumed sys /\
       secondsPlayed (renderer sys') = secondsPlayed (renderer sys)) \/
      (exists buffer frame,
         consumed sys' = consumed sys ++ [(buffer, frame)] /\
         secondsPlayed (renderer sys') =
           F32.add (secondsPlayed (renderer sys)) (frame_seconds frame))
  | _ => secondsPlayed (renderer sys') = secondsPlayed (renderer sys)
  end /\
  (mutex (renderer sys') = false ->
   getSecondsPlayed (renderer sys') = Ok (secondsPlayed (renderer sys')) (renderer sys')).
Proof.
  intros Hall Hrun Hstep. apply Forall_app in Hall. destruct Hall as [Hes He].
  rewrite Forall_singleton in He.
  assert (Hinv : clock_inv sys).
  { apply (clock_inv_run es (boot names)); [exact Hes| |exact Hrun].
    split; [split; [exact I | reflexivity] | constructor]. }
  destruct (clock_step _ _ _ He Hinv Hstep) as (_ & Hle & Hcase).
  split; [exact Hle|]. split; [exact Hcase|]. apply getSecondsPlayed_ok.
Qed.

Lemma secondsPlayed_monotone_witness :
  exists sys sys',
    run [EPush [] 1024 44100 1; EThread 0] (boot [1; 2; 3; 4; 5]) = Some sys /\
    step (EThread 0) sys = Some sys' /\
    consumed sys' = [(1, mkFrame 1024 44100 1 [])] /\
    secondsPlayed (renderer sys) = F32.zero /\
    F32.leb (secondsPlayed (renderer sys)) (secondsPlayed (renderer sys')) = true.
Proof.
  assert (H : exists sys sys',
            run [EPush [] 1024 44100 1; EThread 0] (boot [1; 2; 3; 4; 5]) = Some sys /\
            step (EThread 0) sys = Some sys' /\
            consumed sys' = [(1, mkFrame 1024 44100 1 [])] /\
            secondsPlayed (renderer sys) = F32.zero).
  { eexists _, _. split; [vm_compute; reflexivity|]. split; [vm_compute; reflexivity|].
    split; reflexivity. }
  destruct H as (sys & sys' & Hrun & Hstep & Hcons & Hzero).
  exists sys, sys'. repeat (split; [assumption|]).
  apply (secondsPlayed_monotone [1; 2; 3; 4; 5] [EPush [] 1024 44100 1; EThread 0]
           (EThread 0) sys sys'); [|exact Hrun|exact Hstep|discriminate].
  repeat constructor; unfold Int32.max_int; lia.
Defined.

(** C6, as the claim states it, fails: nothing stops a frame with a
    negative sample rate, and submitting it moves the clock back, here
    from 0 to about -0.0232. *)
Lemma secondsPlayed_decreases_negative_rate :
  exists sys sys',
    run [EPush [] 1024 (-44100) 1; EThread 0] (boot [1; 2; 3; 4; 5]) = Some sys /\
    step (EThread 0) sys = Some sys' /\
    consumed sys' = [(1, mkFrame 1024 (-44100) 1 [])] /\
    secondsPlayed (renderer sys) = F32.zero /\
    secondsPlayed (renderer sys') = S754_finite true 12466118 (-29) /\
    F32.ltb (secondsPlayed (renderer sys')) (secondsPlayed (renderer sys)) = true.
Proof.
  eexists _, _. split; [vm_compute; reflexivity|]. split; [vm_compute; reflexivity|].
  repeat split.
Qed.

(** * Further properties of the playback thread *)

(** ** Case analysis of a step *)

Ltac explicit sys :=
  destruct sys as [[q qc bc sp bufs m [bs dq dp st tr]] p pu co].

(** Splits a step of the thread along the calls it makes, in a state
    whose mutex is free. *)
Ltac call_cases :=
  unfold thread_step, advance, consume; cbn [thread renderer];
  repeat match goal with
  | |- context [(?i <? numBuffers)%nat] =>
      let Hi := fresh "Hi" in destruct (i <? numBuffers)%nat eqn:Hi
  | |- context [popFrame ?w (mkRenderer ?q _ _ _ _ false _)] =>
      let f := fresh "f" in
      destruct q as [|f q];
      [rewrite popFrame_empty by reflexivity;
       let Hw := fresh "Hw" in destruct (w =? 0) eqn:Hw
      |erewrite popFrame_ok by reflexivity]
  | |- context [waitForProcessedBuffer
                  (mkRenderer _ _ _ _ _ _ (AL.mkDevice _ ?dq ?dp _ _))] =>
      is_var dp; destruct dp as [|dp];
      [|is_var dq; let b := fresh "b" in destruct dq as [|b dq]]
  | |- context [format_differs ?d ?b ?f] =>
      let Hfmt := fresh "Hfmt" in destruct (format_differs d b f) eqn:Hfmt
  | |- context [is_playing (AL.GetSource_SOURCE_STATE
                  (device (mkRenderer _ _ _ _ _ _ (AL.mkDevice _ _ _ ?st _))))] =>
      is_var st; destruct st
  end; simpl.

(** The same from a state in which the mutex is as [leak] says. *)
Ltac thread_cases sys :=
  let Hleak := fresh "Hleak" in
  intros Hleak; explicit sys; unfold leak in Hleak;
  match goal with p : pc |- _ =>
    destruct p as [i|i [f|]| | |b|b [f|]|b f| |f|f|f|i|i [f|]|]
  end; simpl in Hleak; subst; call_cases.

Lemma leak_thread_step w sys sys' :
  leak sys -> thread_step w sys = Some sys' -> leak sys'.
Proof.
  thread_cases sys; try discriminate.
  all: intros H; injection H as <-; reflexivity.
Qed.

Lemma resetSecondsPlayed_run r r' :
  resetSecondsPlayed r = Ok tt r' -> mutex r = false /\ r' = set_secondsPlayed F32.zero r.
Proof.
  unfold resetSecondsPlayed, pthread_mutex_lock, pthread_mutex_unlock, modify, mbind, M_bind.
  destruct r as [q qc bc sp bufs m d]. simpl.
  destruct m; [discriminate|]. intros H. injection H as <-. split; reflexivity.
Qed.

Lemma pushFrame_run data count rate channels r r' :
  pushFrame data count rate channels r = Ok tt r' ->
  exists frame,
    newFrame data count rate channels = Some frame /\ mutex r = false /\
    r' = mkRenderer (audioQueue r ++ [frame])
           (Int32.add (queuedSampleCount r) frame.(sampleCount))
           (bufferedSampleCount r) (secondsPlayed r) (buffers r) false (device r).
Proof.
  intros H. destruct (pushFrame_effect _ _ _ _ _ _ H) as (frame & Hf & _).
  destruct (mutex r) eqn:Hm.
  - unfold pushFrame in H. rewrite Hf in H.
    unfold pthread_mutex_lock, mbind, M_bind in H. rewrite Hm in H. discriminate.
  - rewrite (pushFrame_ok _ _ _ _ _ _ Hf Hm) in H. injection H as <-. eauto.
Qed.

(** What an event other than a step of the thread does to the system. *)
Lemma step_outside e sys sys' :
  step e sys = Some sys' ->
  match e with
  | EPush data count rate channels =>
      exists frame,
        newFrame data count rate channels = Some frame /\
        mutex (renderer sys) = false /\
        sys' = mkSystem
                 (mkRenderer (audioQueue (renderer sys) ++ [frame])
                    (Int32.add (queuedSampleCount (renderer sys)) frame.(sampleCount))
                    (bufferedSampleCount (renderer sys)) (secondsPlayed (renderer sys))
                    (buffers (renderer sys)) false (device (renderer sys)))
                 (thread sys) (pushed sys ++ [frame]) (consumed sys)
  | EThread wait_result => thread_step wait_result sys = Some sys'
  | EDevice =>
      exists d, AL.play_one (device (renderer sys)) = Some d /\
        sys' = mkSystem (set_device d (renderer sys)) (thread sys) (pushed sys) (consumed sys)
  | EReset =>
      mutex (renderer sys) = false /\
      sys' = mkSystem (set_secondsPlayed F32.zero (renderer sys)) (thread sys)
               (pushed sys) (consumed sys)
  end.
Proof.
  destruct e as [data count rate channels|w| |]; simpl.
  - destruct (pushFrame _ _ _ _ _) as [[] r| |] eqn:Hp; try discriminate.
    destruct (pushFrame_run _ _ _ _ _ _ Hp) as (frame & Hf & Hm & ->).
    rewrite Hf. intros H. injection H as <-. eauto.
  - auto.
  - destruct (AL.play_one _) as [d|]; [|discriminate]. simpl.
    intros H. injection H as <-. eauto.
  - destruct (resetSecondsPlayed _) as [[] r| |] eqn:Hr; try discriminate.
    destruct (resetSecondsPlayed_run _ _ Hr) as [Hm ->].
    intros H. injection H as <-. auto.
Qed.

Lemma leak_step e sys sys' : leak sys -> step e sys = Some sys' -> leak sys'.
Proof.
  intros Hl Hs. apply step_outside in Hs. destruct e.
  - destruct Hs as (frame & _ & Hm & ->). unfold leak in *. simpl. congruence.
  - exact (leak_thread_step _ _ _ Hl Hs).
  - destruct Hs as (d & _ & ->). exact Hl.
  - destruct Hs as (_ & ->). exact Hl.
Qed.

(** An invariant that the steps keep, in states where the mutex is as
    [leak] says, holds along every run. *)
Lemma invariant_run (I : System -> Prop) (P : event -> Prop) :
  (forall e sys sys', P e -> leak sys -> I sys -> step e sys = Some sys' -> I sys') ->
  forall es sys sys',
    Forall P es -> leak sys -> I sys -> run es sys = Some sys' -> leak sys' /\ I sys'.
Proof.
  intros Hstep. induction es as [|e es IH]; intros sys sys' Hall Hl Hi; simpl.
  - intros H. injection H as <-. auto.
  - destruct (step e sys) as [sys1|] eqn:Hs; [|discriminate]. simpl.
    inversion Hall as [|? ? He Hes]; subst.
    apply IH; [exact Hes | exact (leak_step _ _ _ Hl Hs) | exact (Hstep _ _ _ He Hl Hi Hs)].
Qed.

Lemma leak_boot names : leak (boot names).
Proof. reflexivity. Qed.

Lemma Forall_True_event (es : list event) : Forall (fun _ => True) es.
Proof. apply Forall_forall. auto. Qed.

(** ** Without a failed wait the thread does not crash *)

Lemma healthy_step e sys sys' :
  wait_succeeds e -> leak sys -> healthy (thread sys) = true ->
  step e sys = Some sys' -> healthy (thread sys') = true.
Proof.
  intros He Hl Hh Hs. apply step_outside in Hs. destruct e; simpl in He.
  - destruct Hs as (frame & _ & _ & ->). exact Hh.
  - subst. revert Hl Hh Hs. thread_cases sys; try discriminate.
    all: intros _ H; injection H as <-; reflexivity.
  - destruct Hs as (d & _ & ->). exact Hh.
  - destruct Hs as (_ & ->). exact Hh.
Qed.

Lemma thread_waits sys :
  mutex (renderer sys) = false -> healthy (thread sys) = true ->
  thread_step 0 sys = None <->
    (popping (thread sys) = true /\ audioQueue (renderer sys) = []) \/
    (thread sys = Wait /\ AL.dev_processed (device (renderer sys)) = 0%nat).
Proof.
  intros Hm Hh. assert (Hl : leak sys) by (unfold leak; rewrite Hm, Hh; reflexivity).
  clear Hm. revert Hl Hh. thread_cases sys; try discriminate; intros _.
  all: split; [intros H; try discriminate H; auto
              |intros [[H1 H2]|[H1 H2]]; try discriminate; try reflexivity; congruence].
Qed.

(** X1. As long as no [pthread_cond_wait] fails, the playback thread
    never holds a null frame and never crashes, and the mutex is free
    between any two calls, so that every [pushFrame] whose sample
    product is not negative goes through; the thread can then be stopped
    by two things only: an empty queue where it pops, and a source
    without a processed buffer where it waits for one. *)
Theorem no_crash_without_wait_error names es sys :
  Forall wait_succeeds es ->
  run es (boot names) = Some sys ->
  healthy (thread sys) = true /\
  mutex (renderer sys) = false /\
  (forall data count rate channels,
     0 <= Int32.mul count channels ->
     exists sys', step (EPush data count rate channels) sys = Some sys') /\
  (thread_step 0 sys = None <->
     (popping (thread sys) = true /\ audioQueue (renderer sys) = []) \/
     (thread sys = Wait /\ AL.dev_processed (device (renderer sys)) = 0%nat)).
Proof.
  intros Hall Hrun.
  destruct (invariant_run (fun sys => healthy (thread sys) = true) wait_succeeds
              healthy_step es (boot names) sys Hall (leak_boot names) eq_refl Hrun)
    as [Hl Hh].
  assert (Hm : mutex (renderer sys) = false) by (rewrite Hl, Hh; reflexivity).
  split; [exact Hh|]. split; [exact Hm|]. split.
  - intros data count rate channels Hc. unfold step.
    assert (Hf : exists frame, newFrame data count rate channels = Some frame).
    { unfold newFrame. destruct (Z.ltb_spec (Int32.mul count channels) 0); [lia|]. eauto. }
    destruct Hf as [frame Hf]. rewrite Hf, (pushFrame_ok _ _ _ _ _ _ Hf Hm). eauto.
  - apply thread_waits; assumption.
Qed.

Lemma no_crash_without_wait_error_witness :
  exists sys,
    run starved_then_refilled (boot [1; 2; 3; 4; 5]) = Some sys /\
    healthy (thread sys) = true /\ mutex (renderer sys) = false.
Proof.
  assert (H : exists sys, run starved_then_refilled (boot [1; 2; 3; 4; 5]) = Some sys).
  { eexists. vm_compute. reflexivity. }
  destruct H as [sys Hrun]. exists sys. split; [exact Hrun|].
  assert (Hall : Forall wait_succeeds starved_then_refilled).
  { unfold starved_then_refilled. repeat constructor. }
  destruct (no_crash_without_wait_error [1; 2; 3; 4; 5] starved_then_refilled sys Hall Hrun)
    as (Hh & Hm & _).
  split; assumption.
Defined.

(** ** Nothing plays before the pool is full *)

Lemma gate_step e sys sys' :
  leak sys -> gate sys -> step e sys = Some sys' -> gate sys'.
Proof.
  intros Hl Hg Hs. apply step_outside in Hs. destruct e.
  - destruct Hs as (frame & _ & _ & ->). exact Hg.
  - revert Hl Hg Hs. unfold gate, quiet. thread_cases sys; try discriminate.
    all: intros Hg H; injection H as <-; simpl; try assumption; try lia.
    all: try (apply Nat.ltb_ge in Hi; lia).
    all: try (rewrite length_app; simpl; lia).
    all: try (left; tauto).
    all: destruct Hg as (Hlen & Hs & Hp & Ht); try discriminate.
    all: split; [rewrite ?length_app; simpl; lia|].
    all: split; [assumption|]; split; [assumption|].
    all: rewrite !not_elem_of_app; repeat split; try assumption.
    all: intros Hin; apply list_elem_of_singleton in Hin; discriminate.
  - destruct Hs as (d & Hd & ->). revert Hg Hd. unfold gate, quiet, AL.play_one.
    explicit sys. simpl. destruct st; try discriminate.
    intros Hg _. destruct p; try assumption; try (destruct Hg as (_ & Hs & _); discriminate).
    destruct Hg as [(Hs & _)|Hg]; [discriminate | right; exact Hg].
  - destruct Hs as (_ & ->). exact Hg.
Qed.

(** X2. Nothing is played before the pool is full: while fewer than
    [numBuffers] frames have been pushed, the source is in its initial
    state, no buffer is processed, the device has received no
    [alSourcePlay], and the device cannot make progress. *)
Theorem no_playback_before_prebuffer names sys :
  reachable names sys ->
  (length (pushed sys) < numBuffers)%nat ->
  AL.dev_state (device (renderer sys)) = AL.INITIAL /\
  AL.dev_processed (device (renderer sys)) = 0%nat /\
  (AL.SourcePlay ∉ AL.dev_trace (device (renderer sys))) /\
  step EDevice sys = None.
Proof.
  intros [es Hrun] Hlen.
  assert (Hg : gate sys).
  { apply (invariant_run gate (fun _ => True) (fun e s s' _ => gate_step e s s')
             es (boot names) sys (Forall_True_event es) (leak_boot names)); [|exact Hrun].
    unfold gate, quiet. simpl. repeat split. apply not_elem_of_nil. }
  assert (Hf : fifo sys).
  { apply (fifo_run es (boot names)); [|exact Hrun]. split; reflexivity. }
  destruct Hf as [Hp _].
  assert (Hc : (length (consumed sys) <= length (pushed sys))%nat).
  { rewrite Hp, length_app, length_fmap. lia. }
  assert (Hq : quiet (device (renderer sys))).
  { unfold gate in Hg. destruct (thread sys); try lia; try tauto.
    destruct Hg as [Hg|Hg]; [exact Hg | lia]. }
  destruct Hq as (Hs & Hpr & Ht). repeat split; try assumption.
  simpl. unfold AL.play_one. rewrite Hs. reflexivity.
Qed.

Lemma no_playback_before_prebuffer_witness :
  exists sys,
    run (repeat (EPush [] 1024 44100 1) 4 ++ repeat (EThread 0) 8) (boot [1; 2; 3; 4; 5])
      = Some sys /\
    length (consumed sys) = 4%nat /\
    AL.dev_state (device (renderer sys)) = AL.INITIAL.
Proof.
  assert (H : exists sys,
            run (repeat (EPush [] 1024 44100 1) 4 ++ repeat (EThread 0) 8)
              (boot [1; 2; 3; 4; 5]) = Some sys /\
            length (consumed sys) = 4%nat /\ length (pushed sys) = 4%nat).
  { eexists. split; [vm_compute; reflexivity|]. split; reflexivity. }
  destruct H as (sys & Hrun & Hc & Hp). exists sys. split; [exact Hrun|]. split; [exact Hc|].
  apply (no_playback_before_prebuffer [1; 2; 3; 4; 5] sys).
  - eexists. exact Hrun.
  - rewrite Hp. unfold numBuffers. lia.
Defined.

(** ** The buffer pool *)

Lemma take_S_buffer (names : list Z) i :
  (i < length names)%nat ->
  take (S i) names = take i names ++ [default 0 (names !! i)].
Proof.
  intros Hi. destruct (lookup_lt_is_Some_2 names i Hi) as [x Hx].
  rewrite Hx. simpl. apply take_S_r. exact Hx.
Qed.

Lemma pool_thread_step names w sys sys' :
  length names = numBuffers ->
  leak sys -> pool names sys -> thread_step w sys = Some sys' -> pool names sys'.
Proof.
  intros Hlen. unfold pool. thread_cases sys; try discriminate.
  all: intros (Hb & Hp & Hq) H; injection H as <-; simpl in *.
  all: (split; [exact Hb|]).
  all: unfold buffer_at; simpl; subst bufs.
  all: try (first [apply Nat.ltb_lt in Hi | apply Nat.ltb_ge in Hi]).
  all: unfold numBuffers in *.
  all: rewrite ?length_app; simpl.
  all: try lia.
  all: (split; [lia|]).
  all: try assumption.
  all: try match goal with
           | Hq : _ /\ _ = take _ _ |- _ => destruct Hq as [? ->]
           | Hq : ?dq = [] |- _ => subst dq
           end.
  all: try (split; [lia|]).
  all: try reflexivity.
  all: try (symmetry; apply take_S_buffer; lia).
  all: try (rewrite take_ge by lia; reflexivity).
  all: try (exists (drop i names); rewrite Permutation_app_comm, take_drop; reflexivity).
  all: try (exists [b]; assumption).
  all: try (rewrite <- Permutation_cons_append; assumption).
Qed.

Lemma pool_step names e sys sys' :
  length names = numBuffers ->
  leak sys -> pool names sys -> step e sys = Some sys' -> pool names sys'.
Proof.
  intros Hlen Hl Hp Hs. apply step_outside in Hs. destruct e.
  - destruct Hs as (frame & _ & _ & ->). exact Hp.
  - exact (pool_thread_step _ _ _ _ Hlen Hl Hp Hs).
  - destruct Hs as (d & Hd & ->). revert Hp Hd. unfold pool, AL.play_one.
    explicit sys. simpl. destruct st; try discriminate.
    destruct (Nat.ltb_spec dp (length dq)) as [Hlt|Hge];
      intros (Hb & Hp & Hq) H; injection H as <-; simpl.
    all: split; [exact Hb|]; split; [lia|]; exact Hq.
  - destruct Hs as (_ & ->). exact Hp.
Qed.

Lemma pool_boot names : pool names (boot names).
Proof.
  unfold pool. simpl. split; [reflexivity|]. split; [lia|].
  split; [unfold numBuffers; lia | reflexivity].
Qed.

Lemma pool_run names es sys :
  length names = numBuffers ->
  run es (boot names) = Some sys -> leak sys /\ pool names sys.
Proof.
  intros Hlen Hrun.
  apply (invariant_run (pool names) (fun _ => True)
           (fun e s s' _ => pool_step names e s s' Hlen)
           es (boot names) sys (Forall_True_event es) (leak_boot names) (pool_boot names) Hrun).
Qed.

(** In every case the buffers attached to the source are some of the
    pool, each at most once. *)
Lemma pool_attached names sys :
  pool names sys -> exists l, l ++ AL.dev_queue (device (renderer sys)) ≡ₚ names.
Proof.
  intros (_ & _ & Hq).
  destruct (thread sys) as [i|i o| | |b|b o|b f| |f|f|f|i|i o|].
  1, 2, 12, 13: destruct Hq as [_ Hq]; rewrite Hq; exists (drop i names);
    rewrite Permutation_app_comm, take_drop; reflexivity.
  1, 2, 6: exists []; exact Hq.
  1, 2, 3: exists [b]; exact Hq.
  1, 4: exact Hq.
  all: rewrite Hq; exists names; rewrite app_nil_r; reflexivity.
Qed.

(** The buffer a step of the thread fills is not attached to the
    source. *)
Lemma buffer_fresh (names : list Z) i :
  NoDup names -> (i < length names)%nat ->
  default 0 (names !! i) ∈ names /\ default 0 (names !! i) ∉ take i names.
Proof.
  intros Hnd Hi. destruct (lookup_lt_is_Some_2 names i Hi) as [x Hx]. rewrite Hx. simpl.
  split; [exact (list_elem_of_lookup_2 _ _ _ Hx)|].
  intros Hin. apply elem_of_take in Hin. destruct Hin as (j & Hj & Hlt).
  pose proof (NoDup_lookup _ _ _ _ Hnd Hx Hj). lia.
Qed.

Lemma pool_consume names w sys sys' buffer frame :
  NoDup names -> length names = numBuffers ->
  leak sys -> pool names sys -> thread_step w sys = Some sys' ->
  consumed sys' = consumed sys ++ [(buffer, frame)] ->
  buffer ∈ names /\ buffer ∉ AL.dev_queue (device (renderer sys)).
Proof.
  intros Hnd Hlen. unfold pool. thread_cases sys; try discriminate.
  all: intros (Hb & Hp & Hq) H; injection H as <-; simpl in *.
  all: intros Hco.
  all: try (apply (f_equal length) in Hco; rewrite length_app in Hco; simpl in Hco; lia).
  all: apply app_inv_head in Hco; injection Hco as <- <-.
  all: unfold buffer_at; simpl; subst bufs.
  all: try match goal with
           | Hq : _ /\ _ = take _ _ |- _ =>
               destruct Hq as [Hi ->]; apply buffer_fresh; [assumption | lia]
           end.
  - rewrite <- Hq in Hnd. apply NoDup_cons in Hnd. destruct Hnd as [Hn _].
    split; [|exact Hn]. rewrite <- Hq. apply list_elem_of_here.
  - subst dq. split; [|apply not_elem_of_nil].
    apply (buffer_fresh names 0 Hnd). unfold numBuffers in Hlen. lia.
Qed.

(** X3. The pool is used as a pool. With the five distinct buffers that
    [start()] generated: the source never has a buffer attached twice nor
    a buffer that is not of the pool, and never reports more processed
    buffers than are attached; and whenever the thread fills a buffer
    with a frame, in the prebuffering, in the steady-state loop or after
    a format change, that buffer is one of the pool and is not attached
    to the source at that moment. *)
Theorem buffer_never_filled_while_attached names es sys :
  NoDup names -> length names = numBuffers ->
  run es (boot names) = Some sys ->
  NoDup (AL.dev_queue (device (renderer sys))) /\
  AL.dev_queue (device (renderer sys)) ⊆ names /\
  (AL.dev_processed (device (renderer sys)) <=
     length (AL.dev_queue (device (renderer sys))))%nat /\
  forall e sys' buffer frame,
    step e sys = Some sys' ->
    consumed sys' = consumed sys ++ [(buffer, frame)] ->
    buffer ∈ names /\ buffer ∉ AL.dev_queue (device (renderer sys)).
Proof.
  intros Hnd Hlen Hrun. destruct (pool_run names es sys Hlen Hrun) as [Hl Hp].
  destruct (pool_attached names sys Hp) as [l Hperm].
  assert (Hnd' : NoDup (l ++ AL.dev_queue (device (renderer sys))))
    by (rewrite Hperm; exact Hnd).
  apply NoDup_app in Hnd'. destruct Hnd' as (_ & _ & Hndq).
  split; [exact Hndq|]. split.
  { intros x Hx. rewrite <- Hperm. apply elem_of_app. right. exact Hx. }
  split; [apply Hp|].
  intros e sys' buffer frame Hs Hco. apply step_outside in Hs.
  assert (Hno : consumed sys <> consumed sys ++ [(buffer, frame)]).
  { intros E. apply (f_equal length) in E. rewrite length_app in E. simpl in E. lia. }
  destruct e.
  - destruct Hs as (fr & _ & _ & ->). contradiction.
  - exact (pool_consume names _ sys sys' buffer frame Hnd Hlen Hl Hp Hs Hco).
  - destruct Hs as (d & _ & ->). contradiction.
  - destruct Hs as (_ & ->). contradiction.
Qed.

Lemma buffer_never_filled_while_attached_witness :
  exists sys,
    run ten_frames (boot [1; 2; 3; 4; 5]) = Some sys /\
    NoDup (AL.dev_queue (device (renderer sys))) /\
    AL.dev_queue (device (renderer sys)) ⊆ [1; 2; 3; 4; 5].
Proof.
  assert (Hnd : NoDup [1; 2; 3; 4; 5]) by (apply NoDup_ListNoDup; repeat constructor; simpl; lia).
  assert (H : exists sys, run ten_frames (boot [1; 2; 3; 4; 5]) = Some sys).
  { eexists. vm_compute. reflexivity. }
  destruct H as [sys Hrun]. exists sys. split; [exact Hrun|].
  destruct (buffer_never_filled_while_attached [1; 2; 3; 4; 5] ten_frames sys Hnd eq_refl Hrun)
    as (H1 & H2 & _).
  split; assumption.
Defined.

(** ** Runs in one format *)

Lemma in_format_bound rate channels f :
  channels = 1 \/ channels = 2 -> in_format rate channels f ->
  0 <= f.(sampleCount) <= 134217727.
Proof.
  unfold in_format, Int32.max_int. intros Hc (_ & _ & H0 & Hs). lia.
Qed.

(** What the device reports for a buffer that holds a frame of the
    format. *)
Lemma buffer_of_frame rate channels d b f :
  channels = 1 \/ channels = 2 -> in_format rate channels f -> holds d b f ->
  buffer_samples d b = f.(sampleCount) /\
  AL.GetBuffer_FREQUENCY d b = rate /\ AL.GetBuffer_CHANNELS d b = channels.
Proof.
  intros Hc (Hr & Hch & H0 & Hs) Hh. unfold Int32.max_int in Hs.
  unfold buffer_samples, AL.GetBuffer_SIZE, AL.GetBuffer_CHANNELS, AL.GetBuffer_BITS,
    AL.GetBuffer_FREQUENCY, AL.get_buffer.
  unfold holds in Hh. rewrite Hh. simpl. unfold frame_size, frame_format. rewrite Hch.
  split; [|split; [exact Hr | destruct Hc as [-> | ->]; reflexivity]].
  unfold Int32.div, Int32.mul.
  destruct Hc as [-> | ->]; simpl AL.format_channels.
  all: rewrite (wrap_in_range (sampleCount f * _))
         by (unfold Int32.in_range, Int32.min_int, Int32.max_int; lia).
  all: rewrite (wrap_in_range (sampleCount f * _ * 2))
         by (unfold Int32.in_range, Int32.min_int, Int32.max_int; lia).
  all: rewrite (wrap_in_range (sampleCount f * _ * 2 * 8))
         by (unfold Int32.in_range, Int32.min_int, Int32.max_int; lia).
  all: rewrite (wrap_in_range (_ * 16))
         by (unfold Int32.in_range, Int32.min_int, Int32.max_int; lia).
  - replace (sampleCount f * 1 * 2 * 8) with (sampleCount f * (1 * 16)) by lia.
    rewrite Z.quot_mul by lia.
    apply wrap_in_range. unfold Int32.in_range, Int32.min_int, Int32.max_int. lia.
  - replace (sampleCount f * 2 * 2 * 8) with (sampleCount f * (2 * 16)) by lia.
    rewrite Z.quot_mul by lia.
    apply wrap_in_range. unfold Int32.in_range, Int32.min_int, Int32.max_int. lia.
Qed.

Lemma frame_in_snoc log b f b' :
  frame_in (log ++ [(b, f)]) b' = if decide (b' = b) then Some f else frame_in log b'.
Proof.
  unfold frame_in. rewrite filter_app. simpl.
  destruct (decide (b' = b)) as [->|Hne].
  - rewrite filter_cons_True by reflexivity. rewrite filter_nil, last_snoc. reflexivity.
  - rewrite filter_cons_False by (simpl; congruence). rewrite filter_nil, app_nil_r.
    reflexivity.
Qed.

Lemma sum_resident_bound rate channels (co : list (Z * AudioFrame)) dq :
  channels = 1 \/ channels = 2 ->
  (forall b, b ∈ dq -> exists f, frame_in co b = Some f /\ in_format rate channels f) ->
  0 <= sum_sampleCount (omap (frame_in co) dq) <= Z.of_nat (length dq) * 134217727.
Proof.
  intros Hc. induction dq as [|b dq IH]; intros H; [simpl; lia|].
  rewrite length_cons, Nat2Z.inj_succ. cbn [omap list_omap].
  destruct (H b (list_elem_of_here _ _)) as (f & -> & Hf). cbn [sum_sampleCount foldr].
  fold (sum_sampleCount (omap (frame_in co) dq)).
  pose proof (in_format_bound _ _ _ Hc Hf).
  assert (IH' := IH (fun b' Hb' => H b' (list_elem_of_further _ _ _ Hb'))). lia.
Qed.

Lemma same_format rate channels d b f fb :
  channels = 1 \/ channels = 2 ->
  in_format rate channels f -> in_format rate channels fb -> holds d b fb ->
  format_differs d b f = false.
Proof.
  intros Hc (Hr & Hch & _) Hfb Hh.
  destruct (buffer_of_frame _ _ _ _ _ Hc Hfb Hh) as (_ & Hfreq & Hchan).
  unfold format_differs. rewrite Hfreq, Hchan, Hr, Hch, !Z.eqb_refl. reflexivity.
Qed.

Ltac not_in_trace :=
  rewrite ?not_elem_of_app; repeat split; try assumption;
  let Hin := fresh in intros Hin; apply list_elem_of_singleton in Hin; discriminate.

Lemma resident_snoc (co : list (Z * AudioFrame)) b f (l : list Z) :
  b ∉ l -> omap (frame_in (co ++ [(b, f)])) l = omap (frame_in co) l.
Proof.
  induction l as [|x l IH]; intros Hn; [reflexivity|].
  apply not_elem_of_cons in Hn. destruct Hn as [Hne Hn].
  assert (E : frame_in (co ++ [(b, f)]) x = frame_in co x)
    by (rewrite frame_in_snoc, decide_False by congruence; reflexivity).
  simpl. rewrite E. destruct (frame_in co x); [f_equal|]; exact (IH Hn).
Qed.

Lemma sum_sampleCount_snoc fs f :
  sum_sampleCount (fs ++ [f]) = sum_sampleCount fs + f.(sampleCount).
Proof. rewrite sum_sampleCount_app. simpl. lia. Qed.

(** Filling a buffer that is not attached with a frame of the format and
    attaching it. *)
Lemma consume_in_format rate channels co d b f bc :
  channels = 1 \/ channels = 2 ->
  b ∉ AL.dev_queue d -> (length (AL.dev_queue d) < numBuffers)%nat ->
  in_format rate channels f ->
  (forall b', b' ∈ AL.dev_queue d ->
     exists f', frame_in co b' = Some f' /\ in_format rate channels f' /\ holds d b' f') ->
  bc = sum_sampleCount (omap (frame_in co) (AL.dev_queue d)) ->
  let d' := AL.alSourceQueueBuffers b
              (AL.alBufferData b (frame_format f) f.(samples) (frame_size f)
                 f.(sampleRate) d) in
  (forall b', b' ∈ AL.dev_queue d' ->
     exists f', frame_in (co ++ [(b, f)]) b' = Some f' /\ in_format rate channels f' /\
                holds d' b' f') /\
  Int32.add bc f.(sampleCount) =
    sum_sampleCount (omap (frame_in (co ++ [(b, f)])) (AL.dev_queue d')).
Proof.
  intros Hc Hfresh Hlen Hf Hbuf Hbc d'. split.
  - intros b' Hin. subst d'. simpl in Hin. rewrite frame_in_snoc.
    unfold holds. simpl. destruct (decide (b' = b)) as [->|Hne].
    + exists f. rewrite lookup_insert_eq. auto.
    + apply elem_of_app in Hin. destruct Hin as [Hin|Hin];
        [|apply list_elem_of_singleton in Hin; contradiction].
      destruct (Hbuf b' Hin) as (f' & Hfi & Hf' & Hh). exists f'.
      rewrite lookup_insert_ne by congruence. auto.
  - subst d'. simpl. rewrite omap_app, resident_snoc by exact Hfresh. simpl.
    rewrite frame_in_snoc, decide_True by reflexivity. simpl.
    rewrite sum_sampleCount_snoc, <- Hbc.
    assert (Hsum : 0 <= bc <= Z.of_nat (length (AL.dev_queue d)) * 134217727).
    { rewrite Hbc. apply (sum_resident_bound rate channels); [exact Hc|].
      intros b' Hb'. destruct (Hbuf b' Hb') as (f' & ? & ? & _). eauto. }
    pose proof (in_format_bound _ _ _ Hc Hf) as Hfb.
    apply wrap_in_range. unfold Int32.in_range, Int32.min_int, Int32.max_int.
    unfold numBuffers in Hlen. lia.
Qed.

Lemma sum_resident_cons (co : list (Z * AudioFrame)) b (dq : list Z) f :
  frame_in co b = Some f ->
  sum_sampleCount (omap (frame_in co) (b :: dq)) =
  f.(sampleCount) + sum_sampleCount (omap (frame_in co) dq).
Proof. intros H. simpl. rewrite H. reflexivity. Qed.

(** Taking the oldest buffer off the source. *)
Lemma reclaim_in_format rate channels (co : list (Z * AudioFrame)) d b dq bc :
  channels = 1 \/ channels = 2 ->
  (length dq < numBuffers)%nat ->
  (forall b', b' ∈ b :: dq ->
     exists f', frame_in co b' = Some f' /\ in_format rate channels f' /\ holds d b' f') ->
  bc = sum_sampleCount (omap (frame_in co) (b :: dq)) ->
  Int32.sub bc (buffer_samples d b) = sum_sampleCount (omap (frame_in co) dq).
Proof.
  intros Hc Hlen Hbuf ->.
  destruct (Hbuf b (list_elem_of_here _ _)) as (fb & Hfi & Hfb & Hh).
  destruct (buffer_of_frame _ _ _ _ _ Hc Hfb Hh) as (-> & _).
  rewrite (sum_resident_cons _ _ _ _ Hfi).
  assert (Hsum : 0 <= sum_sampleCount (omap (frame_in co) dq)
                   <= Z.of_nat (length dq) * 134217727).
  { apply (sum_resident_bound rate channels); [exact Hc|].
    intros b' Hb'. destruct (Hbuf b' (list_elem_of_further _ _ _ Hb')) as (f' & ? & ? & _).
    eauto. }
  unfold Int32.sub.
  replace (sampleCount fb + sum_sampleCount (omap (frame_in co) dq) - sampleCount fb)
    with (sum_sampleCount (omap (frame_in co) dq)) by lia.
  apply wrap_in_range. unfold Int32.in_range, Int32.min_int, Int32.max_int.
  unfold numBuffers in Hlen. lia.
Qed.

Lemma single_format_thread_step names rate channels w sys sys' :
  NoDup names -> length names = numBuffers -> channels = 1 \/ channels = 2 ->
  leak sys -> pool names sys /\ single_format rate channels sys ->
  thread_step w sys = Some sys' -> single_format rate channels sys'.
Proof.
  intros Hnd Hlen Hc. unfold pool, single_format, resident. thread_cases sys; try discriminate.
  all: intros ((Hb & Hp & Hq) & (Hpath & Hstop & Hdet & Hall & Hbuf & Hbc)) H;
       injection H as <-; simpl in *.
  all: try discriminate Hpath.
  all: try lia.
  all: try match goal with
       | Hfmt : format_differs _ ?b ?f = true |- _ =>
           exfalso; apply Forall_cons in Hall; destruct Hall as [Hf _];
           destruct (Hbuf b (list_elem_of_here _ _)) as (fb & _ & Hfb & Hh);
           rewrite (same_format _ _ _ _ _ _ Hc Hf Hfb Hh) in Hfmt; discriminate
       end.
  all: (split; [reflexivity|]).
  all: (split; [not_in_trace|]).
  all: (split; [not_in_trace|]).
  all: try (split; [assumption|split; assumption]).
  all: try (apply Forall_cons in Hall; destruct Hall as [Hf Hall]).
  all: (split; [assumption || constructor|]).
  all: try (split; assumption).
  - destruct Hq as [Hi ->]. unfold buffer_at. simpl. subst bufs.
    unfold numBuffers in *.
    apply (consume_in_format rate channels co (AL.mkDevice bs (take i names) dp st tr));
      try assumption.
    + apply buffer_fresh; [assumption | lia].
    + simpl. rewrite length_take. unfold numBuffers. lia.
  - assert (Hl : (length dq < numBuffers)%nat).
    { apply Permutation_length in Hq. simpl in Hq. lia. }
    split.
    + intros b0 Hb0. destruct (Hbuf b0 Hb0) as (f0 & ? & ? & Hh). exists f0. auto.
    + exact (reclaim_in_format rate channels co (AL.mkDevice bs (b :: dq) (S dp) st tr)
               b dq bc Hc Hl Hbuf Hbc).
  - split; [|assumption]. intros b0 Hb0. apply Hbuf, list_elem_of_further, Hb0.
  - assert (Hl : (length dq < numBuffers)%nat).
    { apply Permutation_length in Hq. simpl in Hq. lia. }
    assert (Hfresh : b ∉ dq).
    { rewrite <- Hq in Hnd. apply NoDup_cons in Hnd. apply Hnd. }
    apply (consume_in_format rate channels co (AL.mkDevice bs dq dp st tr)); try assumption.
    intros b0 Hb0. apply Hbuf, list_elem_of_further, Hb0.
Qed.

Lemma newFrame_in_format rate channels data count frame :
  push_in_format rate channels (EPush data count rate channels) ->
  newFrame data count rate channels = Some frame -> in_format rate channels frame.
Proof.
  intros (_ & _ & H0 & Hs) Hf. destruct (newFrame_fields _ _ _ _ _ Hf) as (E1 & E2 & E3).
  unfold in_format. rewrite E1, E2, E3. repeat split; assumption.
Qed.

Lemma single_format_step names rate channels e sys sys' :
  NoDup names -> length names = numBuffers -> channels = 1 \/ channels = 2 ->
  push_in_format rate channels e ->
  leak sys -> pool names sys /\ single_format rate channels sys ->
  step e sys = Some sys' -> pool names sys' /\ single_format rate channels sys'.
Proof.
  intros Hnd Hlen Hc He Hl [Hp Hs] Hstep.
  split; [exact (pool_step names e sys sys' Hlen Hl Hp Hstep)|].
  apply step_outside in Hstep. destruct e as [data count r c|w| |].
  - destruct Hstep as (frame & Hf & _ & ->). simpl in He.
    destruct He as (-> & -> & He).
    assert (Hin : in_format rate channels frame).
    { apply (newFrame_in_format rate channels data count); [|exact Hf]. simpl. tauto. }
    destruct Hs as (H1 & H2 & H3 & H4 & H5 & H6).
    unfold single_format. simpl. repeat split; try assumption.
    rewrite app_assoc. apply Forall_app. split; [exact H4|]. constructor; [exact Hin|constructor].
  - exact (single_format_thread_step names rate channels w sys sys' Hnd Hlen Hc Hl
             (conj Hp Hs) Hstep).
  - destruct Hstep as (d & Hd & ->). revert Hs Hd. unfold single_format, resident, AL.play_one.
    explicit sys. simpl. destruct st; try discriminate.
    destruct (dp <? length dq)%nat; intros Hs H; injection H as <-; exact Hs.
  - destruct Hstep as (_ & ->). exact Hs.
Qed.

Lemma single_format_boot rate channels names : single_format rate channels (boot names).
Proof.
  unfold single_format, resident. simpl. repeat split; try apply not_elem_of_nil.
  - constructor.
  - intros b Hb. apply not_elem_of_nil in Hb. contradiction.
Qed.

Lemma single_format_invariant names rate channels es sys :
  NoDup names -> length names = numBuffers -> channels = 1 \/ channels = 2 ->
  Forall (push_in_format rate channels) es ->
  run es (boot names) = Some sys ->
  leak sys /\ pool names sys /\ single_format rate channels sys.
Proof.
  intros Hnd Hlen Hc Hall Hrun.
  apply (invariant_run (fun s => pool names s /\ single_format rate channels s)
           (push_in_format rate channels)
           (fun e s s' He => single_format_step names rate channels e s s' Hnd Hlen Hc He)
           es (boot names) sys Hall (leak_boot names)
           (conj (pool_boot names) (single_format_boot rate channels names)) Hrun).
Qed.

(** X4. As long as every frame pushed has the same sample rate and the
    same channel count, one or two, and a size in bits that fits an
    [int], the thread never enters the format-change part of its body
    and the device never receives a stop or a detach; every buffer
    attached to the source reports that one format and holds a frame;
    and [bufferedSampleCount] is exactly the sum of the sample counts of
    the frames in the attached buffers. *)
Theorem bufferedSampleCount_single_format names rate channels es sys :
  NoDup names -> length names = numBuffers -> channels = 1 \/ channels = 2 ->
  Forall (push_in_format rate channels) es ->
  run es (boot names) = Some sys ->
  format_change_path (thread sys) = false /\
  (AL.SourceStop ∉ AL.dev_trace (device (renderer sys))) /\
  (AL.SourceDetach ∉ AL.dev_trace (device (renderer sys))) /\
  Forall (fun fmt => fmt = (rate, channels)) (resident_formats (device (renderer sys))) /\
  length (resident sys) = length (AL.dev_queue (device (renderer sys))) /\
  bufferedSampleCount (renderer sys) = sum_sampleCount (resident sys).
Proof.
  intros Hnd Hlen Hc Hall Hrun.
  destruct (single_format_invariant names rate channels es sys Hnd Hlen Hc Hall Hrun)
    as (_ & _ & Hpath & Hstop & Hdet & _ & Hbuf & Hbc).
  repeat (split; [assumption|]).
  assert (Hq : forall b, b ∈ AL.dev_queue (device (renderer sys)) ->
            exists f, frame_in (consumed sys) b = Some f /\ in_format rate channels f /\
                      holds (device (renderer sys)) b f).
  { intros b Hb. apply Hbuf, elem_of_app. right. exact Hb. }
  split; [|split; [|exact Hbc]].
  - unfold resident_formats. apply Forall_fmap, Forall_forall. intros b Hb. simpl.
    destruct (Hq b Hb) as (f & _ & Hf & Hh).
    destruct (buffer_of_frame _ _ _ _ _ Hc Hf Hh) as (_ & -> & ->). reflexivity.
  - unfold resident. clear Hbuf Hbc.
    induction (AL.dev_queue (device (renderer sys))) as [|b l IH]; [reflexivity|].
    destruct (Hq b (list_elem_of_here _ _)) as (f & Hf & _). simpl. rewrite Hf. simpl.
    f_equal. apply IH. intros b' Hb'. apply Hq, list_elem_of_further, Hb'.
Qed.

Lemma bufferedSampleCount_single_format_witness :
  exists sys,
    run starved_then_refilled (boot [1; 2; 3; 4; 5]) = Some sys /\
    bufferedSampleCount (renderer sys) = sum_sampleCount (resident sys) /\
    bufferedSampleCount (renderer sys) = 5120.
Proof.
  assert (Hnd : NoDup [1; 2; 3; 4; 5])
    by (apply NoDup_ListNoDup; repeat constructor; simpl; lia).
  assert (Hall : Forall (push_in_format 44100 1) starved_then_refilled).
  { unfold starved_then_refilled. repeat constructor; unfold Int32.max_int; lia. }
  assert (H : exists sys,
            run starved_then_refilled (boot [1; 2; 3; 4; 5]) = Some sys /\
            bufferedSampleCount (renderer sys) = 5120).
  { eexists. split; [vm_compute; reflexivity | reflexivity]. }
  destruct H as (sys & Hrun & Hbc). exists sys. split; [exact Hrun|]. split; [|exact Hbc].
  apply (bufferedSampleCount_single_format [1; 2; 3; 4; 5] 44100 1 starved_then_refilled sys
           Hnd eq_refl (or_introl eq_refl) Hall Hrun).
Defined.

(** ** What [getBufferSize] counts *)






(** ** No wake-up is lost *)

Lemma awake_producer_step i p t t' :
  awake t -> producers t !! i = Some p -> producer_step i p t = Some t' -> awake t'.
Proof.
  intros [Hw Hf] Hi. unfold producer_step.
  assert (Hlt : (i < length (producers t))%nat) by (apply lookup_lt_is_Some; eauto).
  assert (Hkeep : forall p',
            push_unsignalled p = false ->
            (exists j pj, producers t !! j = Some pj /\ push_unsignalled pj = true) ->
            exists j pj, <[i := p']> (producers t) !! j = Some pj /\
                         push_unsignalled pj = true).
  { intros p' Hp (j & pj & Hj & Hu). exists j, pj. split; [|exact Hu].
    rewrite list_lookup_insert_ne; [exact Hj|]. intros ->. congruence. }
  assert (Hnew : forall p',
            push_unsignalled p' = true ->
            exists j pj, <[i := p']> (producers t) !! j = Some pj /\
                         push_unsignalled pj = true).
  { intros p' Hp. exists i, p'. split; [|exact Hp]. apply list_lookup_insert_eq. exact Hlt. }
  destruct p as [|frame|frame|frame| |]; try discriminate.
  - destruct (mutex (shared t)); [discriminate|]. intros H. injection H as <-.
    split; simpl; [|exact Hf]. intros Hc. destruct (Hw Hc) as [Hq|Hex]; [left; exact Hq|].
    right. apply Hkeep; [reflexivity | exact Hex].
  - intros H. injection H as <-. split; simpl.
    + intros _. right. apply Hnew. reflexivity.
    + intros _. destruct (audioQueue (shared t)); discriminate.
  - intros H. injection H as <-. split; simpl; [|exact Hf].
    intros _. right. apply Hnew. reflexivity.
  - intros H. injection H as <-. destruct (consumer t) eqn:Hc; split; simpl;
      try discriminate; rewrite ?Hc; try discriminate; exact Hf.
  - intros H. injection H as <-. split; simpl; [|exact Hf].
    intros Hc. destruct (Hw Hc) as [Hq|Hex]; [left; exact Hq|].
    right. apply Hkeep; [reflexivity | exact Hex].
Qed.

Lemma awake_consumer_step w t t' : awake t -> consumer_step w t = Some t' -> awake t'.
Proof.
  intros [Hw Hf]. unfold consumer_step.
  destruct (consumer t) eqn:Hc; try discriminate.
  1, 3: destruct (mutex (shared t)); [discriminate|]; intros H; injection H as <-;
        split; simpl; discriminate.
  - destruct (audioQueue (shared t)) eqn:Hq.
    + destruct (w =? 0); intros H; injection H as <-; split; simpl; try discriminate.
      intros _. left. exact Hq.
    + intros H. injection H as <-. split; simpl; [discriminate|].
      rewrite Hq. discriminate.
  - destruct (audioQueue (shared t)); [discriminate|]. intros H. injection H as <-.
    split; simpl; discriminate.
  - intros H. injection H as <-. split; simpl; discriminate.
  - intros H. injection H as <-. split; simpl; discriminate.
Qed.

Lemma awake_interleave c t t' : awake t -> interleave c t = Some t' -> awake t'.
Proof.
  intros Ha. destruct c as [i data count rate channels|i| |w| | |]; simpl.
  - destruct (producers t !! i) as [[]|] eqn:Hi; try discriminate.
    destruct (newFrame data count rate channels) as [frame|]; [|discriminate].
    intros H. injection H as <-. destruct Ha as [Hw Hf]. split; simpl; [|exact Hf].
    intros Hc. destruct (Hw Hc) as [Hq|(j & pj & Hj & Hu)]; [left; exact Hq|].
    right. exists j, pj. split; [|exact Hu].
    rewrite list_lookup_insert_ne; [exact Hj|]. intros ->. rewrite Hi in Hj.
    injection Hj as <-. discriminate.
  - destruct (producers t !! i) as [p|] eqn:Hi; [|discriminate]. simpl.
    exact (awake_producer_step i p t t' Ha Hi).
  - destruct (consumer t); try discriminate; intros H; injection H as <-;
      split; simpl; discriminate.
  - exact (awake_consumer_step w t t' Ha).
  - destruct (consumer t); try discriminate; intros H; injection H as <-;
      split; simpl; discriminate.
  - destruct Ha as [Hw Hf].
    destruct (reader t); try discriminate; intros H; injection H as <-; split; assumption.
  - destruct Ha as [Hw Hf]. unfold reader_step.
    destruct (reader t); try discriminate.
    + destruct (mutex (shared t)); [discriminate|]. intros H. injection H as <-.
      split; assumption.
    + intros H. injection H as <-. split; assumption.
    + intros H. injection H as <-. split; assumption.
Qed.

Lemma awake_schedule cs : forall t t', awake t -> schedule cs t = Some t' -> awake t'.
Proof.
  induction cs as [|c cs IH]; intros t t' Ha; simpl.
  - intros H. injection H as <-. exact Ha.
  - destruct (interleave c t) as [t1|] eqn:Hc; [|discriminate]. simpl.
    apply IH. exact (awake_interleave c t t1 Ha Hc).
Qed.

(** X6. No wake-up is lost. Under every interleaving of the statements
    of [pushFrame], [popFrame] and [getBufferSize]: when the playback
    thread sleeps in [pthread_cond_wait] and the mutex is free, the
    queue is empty, so a frame is never left in the queue with the
    thread asleep and nobody about to signal; and when [popFrame]
    reaches [front()] the queue is not empty. *)
Theorem no_lost_wakeup names n t :
  interleaving names n t ->
  (consumer t = PopWaiting -> mutex (shared t) = false -> audioQueue (shared t) = []) /\
  (consumer t = PopFront -> audioQueue (shared t) <> []).
Proof.
  intros [cs Hs].
  assert (Ha : awake (idle names n)) by (split; discriminate).
  destruct (awake_schedule cs _ _ Ha Hs) as [Hw Hf].
  destruct (consistent_schedule cs _ _ (consistent_idle names n) Hs) as (Hh & Hm & _).
  split; [|exact Hf]. intros Hc Hfree.
  destruct (Hw Hc) as [Hq|(i & p & Hi & Hu)]; [exact Hq|]. exfalso.
  assert (Hnn : forall q, 0 <= (if push_holds q then 1 else 0))
    by (intros q; destruct (push_holds q); lia).
  pose proof (total_lookup_le _ _ _ _ Hnn Hi) as Hle. simpl in Hle.
  assert (Hp : push_holds p = true) by (destruct p; try discriminate; reflexivity).
  rewrite Hp in Hle. destruct (holders_parts t) as (H1 & H2 & H3).
  unfold holders in *. assert (E : holders t = 1) by (unfold holders; lia).
  specialize (Hm E). congruence.
Qed.

Lemma no_lost_wakeup_witness :
  exists t,
    schedule [CallPop; RunConsumer 0; RunConsumer 0] (idle [1; 2; 3; 4; 5] 2) = Some t /\
    consumer t = PopWaiting /\ audioQueue (shared t) = [].
Proof.
  assert (H : exists t,
            schedule [CallPop; RunConsumer 0; RunConsumer 0] (idle [1; 2; 3; 4; 5] 2)
              = Some t /\
            consumer t = PopWaiting /\ mutex (shared t) = false).
  { eexists. split; [reflexivity|]. split; reflexivity. }
  destruct H as (t & Hs & Hc & Hm). exists t. split; [exact Hs|]. split; [exact Hc|].
  apply (no_lost_wakeup [1; 2; 3; 4; 5] 2 t); [|exact Hc|exact Hm].
  eexists. exact Hs.
Defined.

(** * The C interface *)

(** ** From the events of the interface to the events of the system *)

Lemma audio_feed_sample_returns sample p p' :
  audio_feed_sample sample p = Returns p' ->
  exists v,
    to_int16 (F64.mul sample full_scale) = Some v /\
    ((length (prebuffer p ++ [v]) <> 1024%nat /\
      p' = mkProgram (audioRenderer p) (prebuffer p ++ [v])) \/
     (length (prebuffer p ++ [v]) = 1024%nat /\
      exists sys,
        step (EPush (prebuffer p ++ [v]) 1024 44100 1) (audioRenderer p) = Some sys /\
        pushed sys = pushed (audioRenderer p) ++ [mkFrame 1024 44100 1 (prebuffer p ++ [v])] /\
        p' = mkProgram sys [])).
Proof.
  unfold audio_feed_sample. intros Hret.
  destruct (to_int16 (F64.mul sample full_scale)) as [v|]; [|discriminate].
  exists v. split; [reflexivity|].
  destruct (Nat.eqb_spec (length (prebuffer p ++ [v])) 1024) as [Hl|Hl].
  - destruct (step _ (audioRenderer p)) as [sys|] eqn:Hs; [|discriminate].
    injection Hret as <-. right. split; [exact Hl|]. exists sys.
    split; [reflexivity|]. split; [|reflexivity].
    apply step_outside in Hs. destruct Hs as (frame & Hf & _ & ->). simpl.
    unfold newFrame in Hf. simpl in Hf. injection Hf as <-.
    rewrite firstn_all2 by (rewrite Hl; apply Nat.le_refl). reflexivity.
  - injection Hret as <-. left. split; [exact Hl | reflexivity].
Qed.

(** The run of the system behind a run of the interface. *)
Lemma c_run_system es : forall p p',
  c_run es p = Some p' ->
  exists es',
    run es' (audioRenderer p) = Some (audioRenderer p') /\
    Forall (push_in_format 44100 1) es' /\
    Forall playable_push es' /\
    (Forall c_wait_succeeds es -> Forall wait_succeeds es').
Proof.
  induction es as [|e es IH]; intros p p'; simpl.
  - intros H. injection H as <-. exists []. repeat split; constructor.
  - destruct (c_step e p) as [p1|] eqn:Hs; [|discriminate]. simpl. intros Hrun.
    destruct (IH p1 p' Hrun) as (es' & Hr & Hf & Hp & Hw).
    assert (Hone : exists e1,
              (audioRenderer p1 = audioRenderer p \/
               step e1 (audioRenderer p) = Some (audioRenderer p1)) /\
              push_in_format 44100 1 e1 /\ playable_push e1 /\
              (c_wait_succeeds e -> wait_succeeds e1)).
    { destruct e as [sample|w|]; unfold c_step in Hs.
      - destruct (audio_feed_sample sample p) as [p2| |] eqn:Hfeed; try discriminate.
        injection Hs as ->.
        destruct (audio_feed_sample_returns _ _ _ Hfeed)
          as (v & _ & [[_ ->]|(_ & sys & Hsys & _ & ->)]).
        + exists EDevice. simpl. auto.
        + exists (EPush (prebuffer p ++ [v]) 1024 44100 1). simpl.
          unfold Int32.max_int. repeat split; auto; lia.
      - destruct (thread_step w (audioRenderer p)) as [sys|] eqn:Ht; [|discriminate].
        simpl in Hs. injection Hs as <-. exists (EThread w). simpl. auto.
      - destruct (step EDevice (audioRenderer p)) as [sys|] eqn:Hd; [|discriminate].
        simpl in Hs. injection Hs as <-. exists EDevice. simpl. auto. }
    destruct Hone as (e1 & [Heq|Hstep] & Hf1 & Hp1 & Hw1).
    + exists es'. rewrite <- Heq. repeat split; try assumption.
      intros Hall. inversion Hall; subst. auto.
    + exists (e1 :: es'). simpl. rewrite Hstep. simpl.
      repeat split; try assumption; try (constructor; assumption).
      intros Hall. inversion Hall; subst. constructor; auto.
Qed.

(** ** Framing *)

Lemma advance_pushed {A} sys (m : M A) k sys' :
  advance sys m k = Some sys' -> pushed sys' = pushed sys.
Proof.
  unfold advance. destruct (m (renderer sys)); try discriminate.
  all: intros H; injection H as <-; reflexivity.
Qed.

Lemma consume_pushed sys buffer frame k sys' :
  consume sys buffer frame k = Some sys' -> pushed sys' = pushed sys.
Proof.
  unfold consume. destruct (consumeFrame buffer frame (renderer sys)), frame;
    try discriminate.
  all: intros H; injection H as <-; reflexivity.
Qed.

Lemma thread_step_pushed w sys sys' :
  thread_step w sys = Some sys' -> pushed sys' = pushed sys.
Proof.
  unfold thread_step.
  destruct (thread sys) as [i|i o| | |b|b [f|]|b f| |f|f|f|i|i o|].
  all: try apply advance_pushed.
  all: try apply consume_pushed.
  all: repeat match goal with
       | |- context [if ?c then _ else _] => destruct c
       end.
  all: try apply advance_pushed.
  all: try discriminate.
  all: intros H; injection H as <-; reflexivity.
Qed.

Lemma framing_step e p p' acc :
  c_step e p = Some p' ->
  Forall fed_frame (pushed (audioRenderer p)) /\
  (length (prebuffer p) < 1024)%nat /\
  acc = concat (samples <$> pushed (audioRenderer p)) ++ prebuffer p ->
  Forall fed_frame (pushed (audioRenderer p')) /\
  (length (prebuffer p') < 1024)%nat /\
  acc ++ fed [e] = concat (samples <$> pushed (audioRenderer p')) ++ prebuffer p'.
Proof.
  intros Hs (Hall & Hlen & Hacc). destruct e as [sample|w|]; unfold c_step in Hs.
  - destruct (audio_feed_sample sample p) as [p2| |] eqn:Hfeed; try discriminate.
    injection Hs as ->.
    destruct (audio_feed_sample_returns _ _ _ Hfeed)
      as (v & Hv & [[Hl ->]|(Hl & sys & _ & Hpu & ->)]); unfold fed; simpl; rewrite Hv; simpl.
    + split; [exact Hall|]. rewrite length_app in *. simpl in *.
      split; [lia|]. rewrite Hacc, app_assoc. reflexivity.
    + rewrite Hpu. split; [|split; [lia|]].
      * apply Forall_app. split; [exact Hall|]. constructor; [|constructor].
        repeat split. exact Hl.
      * rewrite fmap_app, concat_app. simpl. rewrite !app_nil_r, Hacc, app_assoc.
        reflexivity.
  - destruct (thread_step w (audioRenderer p)) as [sys|] eqn:Ht; [|discriminate].
    simpl in Hs. injection Hs as <-. simpl. rewrite (thread_step_pushed _ _ _ Ht), app_nil_r. auto.
  - destruct (step EDevice (audioRenderer p)) as [sys|] eqn:Hd; [|discriminate].
    simpl in Hs. injection Hs as <-. apply step_outside in Hd. destruct Hd as (d & _ & ->). simpl.
    rewrite app_nil_r. auto.
Qed.

Lemma fed_app es1 es2 : fed (es1 ++ es2) = fed es1 ++ fed es2.
Proof. apply omap_app. Qed.

Lemma framing_run es : forall p p' acc,
  c_run es p = Some p' ->
  Forall fed_frame (pushed (audioRenderer p)) /\
  (length (prebuffer p) < 1024)%nat /\
  acc = concat (samples <$> pushed (audioRenderer p)) ++ prebuffer p ->
  Forall fed_frame (pushed (audioRenderer p')) /\
  (length (prebuffer p') < 1024)%nat /\
  acc ++ fed es = concat (samples <$> pushed (audioRenderer p')) ++ prebuffer p'.
Proof.
  induction es as [|e es IH]; intros p p' acc; simpl.
  - intros H. injection H as <-. rewrite app_nil_r. auto.
  - destruct (c_step e p) as [p1|] eqn:Hs; [|discriminate]. simpl. intros Hrun Hinv.
    pose proof (framing_step e p p1 acc Hs Hinv) as H1.
    pose proof (IH p1 p' (acc ++ fed [e]) Hrun H1) as H2.
    rewrite <- app_assoc, <- fed_app in H2. exact H2.
Qed.

(** X7. The samples fed through [audio_feed_sample] are cut into frames
    of exactly 1024 mono samples at 44100 Hz, and fewer than 1024
    samples wait in [prebuffer]; the converted samples, in the order
    they were fed, are the samples of the frames pushed followed by
    [prebuffer]; and they are what the device has been given, followed
    by the frame the thread holds, the queue and [prebuffer]: no sample
    is lost, repeated or moved. *)
Theorem audio_feed_sample_framing names es p :
  c_run es (audio_init names) = Some p ->
  Forall fed_frame (pushed (audioRenderer p)) /\
  (length (prebuffer p) < 1024)%nat /\
  fed es = concat (samples <$> pushed (audioRenderer p)) ++ prebuffer p /\
  fed es =
    concat (submitted_data (AL.dev_trace (device (renderer (audioRenderer p))))) ++
    concat (samples <$> (pending (thread (audioRenderer p)) ++
                         audioQueue (renderer (audioRenderer p)))) ++
    prebuffer p.
Proof.
  intros Hrun.
  destruct (framing_run es (audio_init names) p [] Hrun) as (Hall & Hlen & Hfed).
  { simpl. split; [constructor|]. split; [lia | reflexivity]. }
  simpl in Hfed. split; [exact Hall|]. split; [exact Hlen|]. split; [exact Hfed|].
  destruct (c_run_system es _ _ Hrun) as (es' & Hr & _).
  assert (Hf : fifo (audioRenderer p)).
  { apply (fifo_run es' (boot names)); [|exact Hr]. split; reflexivity. }
  destruct Hf as [Hp Hd]. rewrite Hfed, Hp, Hd.
  rewrite !fmap_app, !concat_app, <- !app_assoc. reflexivity.
Qed.

Lemma audio_feed_sample_framing_witness :
  exists p,
    c_run silence (audio_init [1; 2; 3; 4; 5]) = Some p /\
    length (pushed (audioRenderer p)) = 2%nat /\
    length (consumed (audioRenderer p)) = 2%nat /\
    prebuffer p = [0; 0] /\
    Forall fed_frame (pushed (audioRenderer p)).
Proof.
  assert (H : exists p,
            c_run silence (audio_init [1; 2; 3; 4; 5]) = Some p /\
            length (pushed (audioRenderer p)) = 2%nat /\
            length (consumed (audioRenderer p)) = 2%nat /\
            prebuffer p = [0; 0]).
  { eexists. split; [vm_compute; reflexivity|]. repeat split. }
  destruct H as (p & Hrun & Hpu & Hco & Hpre). exists p.
  repeat (split; [assumption|]).
  apply (audio_feed_sample_framing [1; 2; 3; 4; 5] silence p Hrun).
Defined.

(** * The buffers that stay attached *)

Lemma gate_invariant names es sys : run es (boot names) = Some sys -> gate sys.
Proof.
  intros Hrun.
  apply (invariant_run gate (fun _ => True) (fun e s s' _ => gate_step e s s')
           es (boot names) sys (Forall_True_event es) (leak_boot names)); [|exact Hrun].
  unfold gate, quiet. simpl. repeat split. apply not_elem_of_nil.
Qed.

Lemma healthy_invariant names es sys :
  Forall wait_succeeds es -> run es (boot names) = Some sys ->
  healthy (thread sys) = true /\ mutex (renderer sys) = false.
Proof.
  intros Hall Hrun.
  destruct (invariant_run (fun sys => healthy (thread sys) = true) wait_succeeds
              healthy_step es (boot names) sys Hall (leak_boot names) eq_refl Hrun)
    as [Hl Hh].
  split; [exact Hh|]. rewrite Hl, Hh. reflexivity.
Qed.

(** X8. Once the source has been started, in a run in one format and
    without a failed wait, the source always has four or five buffers
    attached, whatever the device has played: the thread takes a
    buffer off the source only when it is about to fill it again, so
    that the last buffers played stay attached, and stay counted in
    [bufferedSampleCount], until new frames arrive. *)
Theorem played_buffers_stay_attached names rate channels es sys :
  NoDup names -> length names = numBuffers -> channels = 1 \/ channels = 2 ->
  Forall (push_in_format rate channels) es -> Forall wait_succeeds es ->
  run es (boot names) = Some sys ->
  AL.SourcePlay ∈ AL.dev_trace (device (renderer sys)) ->
  (numBuffers - 1 <= length (AL.dev_queue (device (renderer sys))) <= numBuffers)%nat /\
  length (resident sys) = length (AL.dev_queue (device (renderer sys))) /\
  bufferedSampleCount (renderer sys) = sum_sampleCount (resident sys).
Proof.
  intros Hnd Hlen Hc Hall Hw Hrun Hplay.
  destruct (single_format_invariant names rate channels es sys Hnd Hlen Hc Hall Hrun)
    as (_ & (_ & _ & Hq) & Hpath & _ & _ & _ & Hbuf & Hbc).
  destruct (healthy_invariant names es sys Hw Hrun) as [Hh _].
  pose proof (gate_invariant names es sys Hrun) as Hg.
  split; [|split; [|exact Hbc]].
  - unfold gate, quiet in Hg. unfold numBuffers in *.
    destruct (thread sys) as [i|i o| | |b|b o|b f| |f|f|f|i|i o|];
      try discriminate Hh; try discriminate Hpath;
      try (destruct Hg as (_ & _ & _ & Hn); contradiction);
      apply Permutation_length in Hq; simpl in Hq; lia.
  - unfold resident.
    assert (Hqf : forall b, b ∈ AL.dev_queue (device (renderer sys)) ->
              exists f, frame_in (consumed sys) b = Some f).
    { intros b Hb. destruct (Hbuf b) as (f & Hf & _); [|eauto].
      apply elem_of_app. right. exact Hb. }
    clear Hbuf Hbc Hq Hplay.
    induction (AL.dev_queue (device (renderer sys))) as [|b l IH]; [reflexivity|].
    destruct (Hqf b (list_elem_of_here _ _)) as (f & Hf). simpl. rewrite Hf. simpl.
    f_equal. apply IH. intros b' Hb'. apply Hqf, list_elem_of_further, Hb'.
Qed.

Lemma played_buffers_stay_attached_witness :
  exists sys,
    run (repeat (EPush [] 1024 44100 1) 5 ++ repeat (EThread 0) 12 ++ repeat EDevice 5 ++
         [EThread 0]) (boot [1; 2; 3; 4; 5]) = Some sys /\
    AL.dev_state (device (renderer sys)) = AL.STOPPED /\
    AL.dev_processed (device (renderer sys)) = 4%nat /\
    audioQueue (renderer sys) = [] /\
    length (AL.dev_queue (device (renderer sys))) = 4%nat /\
    bufferedSampleCount (renderer sys) = 4096.
Proof.
  assert (Hnd : NoDup [1; 2; 3; 4; 5])
    by (apply NoDup_ListNoDup; repeat constructor; simpl; lia).
  assert (Hall : Forall (push_in_format 44100 1)
                   (repeat (EPush [] 1024 44100 1) 5 ++ repeat (EThread 0) 12 ++
                    repeat EDevice 5 ++ [EThread 0])).
  { repeat constructor; unfold Int32.max_int; lia. }
  assert (Hw : Forall wait_succeeds
                 (repeat (EPush [] 1024 44100 1) 5 ++ repeat (EThread 0) 12 ++
                  repeat EDevice 5 ++ [EThread 0])).
  { repeat constructor. }
  assert (H : exists sys,
            run (repeat (EPush [] 1024 44100 1) 5 ++ repeat (EThread 0) 12 ++
                 repeat EDevice 5 ++ [EThread 0]) (boot [1; 2; 3; 4; 5]) = Some sys /\
            AL.dev_state (device (renderer sys)) = AL.STOPPED /\
            AL.dev_processed (device (renderer sys)) = 4%nat /\
            audioQueue (renderer sys) = [] /\
            length (AL.dev_queue (device (renderer sys))) = 4%nat /\
            sum_sampleCount (resident sys) = 4096 /\
            AL.dev_trace (device (renderer sys)) !! 10%nat = Some AL.SourcePlay).
  { eexists. split; [vm_compute; reflexivity|]. repeat split. }
  destruct H as (sys & Hrun & Hst & Hpr & Hq & Hlen & Hsum & Htr). exists sys.
  repeat (split; [assumption|]). rewrite <- Hsum.
  apply (played_buffers_stay_attached [1; 2; 3; 4; 5] 44100 1 _ sys
           Hnd eq_refl (or_introl eq_refl) Hall Hw Hrun).
  exact (list_elem_of_lookup_2 _ _ _ Htr).
Defined.

(** * What [audio_get_buffer_size] returns *)






(** * The conversion of a sample *)

(** ** Shifting out zeros is exact *)

Lemma shr_1_even mrs k :
  0 <= k -> shr_m mrs = 2 * k -> shr_r mrs = false -> shr_s mrs = false ->
  shr_1 mrs = Build_shr_record k false false.
Proof.
  destruct mrs as [m r s]. simpl. intros Hk -> -> ->.
  destruct k as [|p|p]; try lia; reflexivity.
Qed.

Lemma shr_iter_exact n : forall mrs k,
  0 <= k -> shr_m mrs = k * 2 ^ Zpos n -> shr_r mrs = false -> shr_s mrs = false ->
  SpecFloat.iter_pos shr_1 n mrs = Build_shr_record k false false.
Proof.
  assert (Hsq : forall a, 0 < a -> 2 ^ (2 * a) = 2 ^ a * 2 ^ a).
  { intros a Ha. rewrite <- Z.pow_add_r by lia. f_equal. lia. }
  induction n as [n IH|n IH|]; intros mrs k Hk Hm Hr Hs; simpl.
  - assert (Hp : 0 < 2 ^ Zpos n) by (apply Z.pow_pos_nonneg; lia).
    rewrite (shr_1_even mrs (k * 2 ^ Zpos n * 2 ^ Zpos n)); try assumption; try nia.
    + rewrite (IH (Build_shr_record (k * 2 ^ Zpos n * 2 ^ Zpos n) false false)
                 (k * 2 ^ Zpos n)); try reflexivity; try nia.
      apply IH; try reflexivity; nia.
    + rewrite Hm, Pos2Z.inj_xI, Z.pow_add_r, Hsq by lia. change (2 ^ 1) with 2. lia.
  - assert (Hp : 0 < 2 ^ Zpos n) by (apply Z.pow_pos_nonneg; lia).
    rewrite (IH mrs (k * 2 ^ Zpos n)); try assumption; try nia.
    + apply IH; try reflexivity; nia.
    + rewrite Hm. replace (Z.pos n~0) with (2 * Z.pos n) by lia. rewrite Hsq by lia. lia.
  - apply shr_1_even; try assumption. rewrite Hm. change (2 ^ 1) with 2. lia.
Qed.

(** The mantissa after a shift and a rounding to nearest does not pass
    a bound that is itself a multiple of the unit shifted out. *)
Lemma shr_round_le m e n bound :
  0 <= m -> 0 <= bound -> m <= bound * 2 ^ Z.max n 0 ->
  round_nearest_even (shr_m (fst (shr (shr_record_of_loc m loc_Exact) e n)))
    (loc_of_shr_record (fst (shr (shr_record_of_loc m loc_Exact) e n))) <= bound.
Proof.
  intros Hm Hb Hle. destruct n as [|p|p].
  - change (Z.max 0 0) with 0 in Hle. rewrite Z.pow_0_r, Z.mul_1_r in Hle. exact Hle.
  - replace (Z.max (Z.pos p) 0) with (Z.pos p) in Hle by lia.
    assert (Hp : 0 < 2 ^ Z.pos p) by (apply Z.pow_pos_nonneg; lia).
    destruct (Z.eq_dec m (bound * 2 ^ Z.pos p)) as [Heq|Hne].
    + unfold shr. cbn [fst].
      rewrite (shr_iter_exact p _ bound); try reflexivity; assumption.
    + destruct (shr_spec (shr_record_of_loc m loc_Exact) e (Z.pos p)) as [Hs _];
        [simpl; exact Hm|].
      replace (Z.max (Z.pos p) 0) with (Z.pos p) in Hs by lia.
      rewrite shr_record_of_loc_m in Hs.
      pose proof (round_nearest_even_bounds
                    (shr_m (fst (shr (shr_record_of_loc m loc_Exact) e (Z.pos p))))
                    (loc_of_shr_record
                       (fst (shr (shr_record_of_loc m loc_Exact) e (Z.pos p))))) as Hr.
      assert (Hlt : m / 2 ^ Z.pos p < bound) by (apply Z.div_lt_upper_bound; lia).
      lia.
  - change (Z.max (Z.neg p) 0) with 0 in Hle. rewrite Z.pow_0_r, Z.mul_1_r in Hle.
    exact Hle.
Qed.

(** ** The product with [32767.0] *)

Lemma fexp64_eq k : fexp F64.prec F64.emax k = Z.max (k - 53) (-1074).
Proof. reflexivity. Qed.

Lemma Zdigits2_le_bound m k : 0 <= m -> 0 <= k -> m < 2 ^ k -> Zdigits2 m <= k.
Proof.
  intros Hm Hk Hlt. destruct (Z.eq_dec m 0) as [->|Hne]; [simpl; lia|].
  pose proof (Zdigits2_bounds m ltac:(lia)) as [Hlo _].
  destruct (Z_lt_le_dec k (Zdigits2 m)) as [Hgt|]; [|lia].
  assert (2 ^ k <= 2 ^ (Zdigits2 m - 1)) by (apply Z.pow_le_mono_r; lia). lia.
Qed.

(** Rounding to binary64 a product that is not above 32767 gives a
    number that is not above 32767. *)
Lemma round_le_full_scale s m e :
  0 < m -> e <= -38 -> m <= 32767 * 2 ^ (- e) ->
  exists m2 e2,
    binary_round_aux F64.prec F64.emax s m e loc_Exact =
      match m2 with
      | Z0 => S754_zero s
      | Zpos p => S754_finite s p e2
      | Zneg _ => S754_nan
      end /\
    0 <= m2 /\ e2 <= -38 /\ m2 <= 32767 * 2 ^ (- e2).
Proof.
  intros Hm He Hle. unfold binary_round_aux, shr_fexp.
  set (n := fexp F64.prec F64.emax (Zdigits2 m + e) - e).
  destruct (shr_spec (shr_record_of_loc m loc_Exact) e n) as [Hs1 He1]; [simpl; lia|].
  rewrite shr_record_of_loc_m in Hs1.
  assert (Hd : Zdigits2 m <= 15 - e).
  { apply Zdigits2_le_bound; try lia.
    replace (15 - e) with (15 + - e) by lia. rewrite Z.pow_add_r by lia.
    assert (0 < 2 ^ (- e)) by (apply Z.pow_pos_nonneg; lia). lia. }
  pose proof (shr_round_le m e n (32767 * 2 ^ (- (e + Z.max n 0)))) as Hr.
  pose proof (round_nearest_even_bounds
                (shr_m (fst (shr (shr_record_of_loc m loc_Exact) e n)))
                (loc_of_shr_record (fst (shr (shr_record_of_loc m loc_Exact) e n)))) as Hrb.
  destruct (shr (shr_record_of_loc m loc_Exact) e n) as [mrs1 e1].
  cbn [fst snd] in *. subst e1.
  set (e1 := e + Z.max n 0) in *.
  assert (He1 : e1 <= -38).
  { subst e1 n. rewrite fexp64_eq. lia. }
  assert (Hp1 : 0 < 2 ^ (- e1)) by (apply Z.pow_pos_nonneg; lia).
  assert (Hm1 : 0 <= shr_m mrs1).
  { rewrite Hs1. apply Z.div_pos; [lia | apply Z.pow_pos_nonneg; lia]. }
  set (m1 := round_nearest_even (shr_m mrs1) (loc_of_shr_record mrs1)) in *.
  assert (Hb1 : m1 <= 32767 * 2 ^ (- e1)).
  { apply Hr; try lia.
    rewrite <- Z.mul_assoc, <- Z.pow_add_r by lia.
    replace (- e1 + Z.max n 0) with (- e) by (subst e1; lia). exact Hle. }
  set (n2 := fexp F64.prec F64.emax (Zdigits2 m1 + e1) - e1).
  destruct (shr_spec (shr_record_of_loc m1 loc_Exact) e1 n2) as [Hs2 He2]; [simpl; lia|].
  rewrite shr_record_of_loc_m in Hs2.
  assert (Hd1 : Zdigits2 m1 <= 15 - e1).
  { apply Zdigits2_le_bound; try lia.
    replace (15 - e1) with (15 + - e1) by lia. rewrite Z.pow_add_r by lia. lia. }
  destruct (shr (shr_record_of_loc m1 loc_Exact) e1 n2) as [mrs2 e2].
  cbn [fst snd] in *. subst e2.
  set (e2 := e1 + Z.max n2 0) in *.
  assert (He2 : e2 <= -38).
  { subst e2 n2. rewrite fexp64_eq. lia. }
  assert (Hp2 : 0 < 2 ^ Z.max n2 0) by (apply Z.pow_pos_nonneg; lia).
  assert (Hm2 : 0 <= shr_m mrs2).
  { rewrite Hs2. apply Z.div_pos; lia. }
  assert (Hb2 : shr_m mrs2 <= 32767 * 2 ^ (- e2)).
  { rewrite Hs2. apply Z.div_le_upper_bound; [lia|].
    replace (2 ^ Z.max n2 0 * (32767 * 2 ^ (- e2)))
      with (32767 * (2 ^ (- e2) * 2 ^ Z.max n2 0)) by lia.
    rewrite <- Z.pow_add_r by lia.
    replace (- e2 + Z.max n2 0) with (- e1) by (subst e2; lia). exact Hb1. }
  exists (shr_m mrs2), e2. split; [|auto].
  destruct (shr_m mrs2); try reflexivity.
  replace (e2 <=? F64.emax - F64.prec) with true; [reflexivity|].
  symmetry. apply Z.leb_le. unfold F64.emax, F64.prec. lia.
Qed.

Lemma compare_cont_Eq a b : Pos.compare_cont Eq a b = Pos.compare a b.
Proof. reflexivity. Qed.

(** The conversion of a sample of magnitude at most one. *)
Lemma to_int16_in_unit_range sample :
  in_unit_range sample ->
  exists v, to_int16 (F64.mul sample full_scale) = Some v /\ -32767 <= v <= 32767.
Proof.
  intros [Hv Hle].
  destruct sample as [s|s| |s m e]; try discriminate.
  - exists 0. split; [reflexivity | lia].
  - simpl in Hv, Hle. unfold bounded, canonical_mantissa in Hv.
    apply andb_prop in Hv. destruct Hv as [Hc _]. apply Z.eqb_eq in Hc.
    change (Zpos (digits2_pos m)) with (Zdigits2 (Zpos m)) in Hc.
    rewrite fexp64_eq in Hc.
    assert (Hm : Zpos m < 2 ^ 53).
    { pose proof (Zdigits2_bounds (Zpos m) ltac:(lia)) as [_ Hhi].
      assert (2 ^ Zdigits2 (Zpos m) <= 2 ^ 53) by (apply Z.pow_le_mono_r; lia). lia. }
    unfold SFleb, SFcompare, unit_sample in Hle.
    assert (Hunit : Zpos m <= 2 ^ (- e) /\ e <= -52).
    { destruct (Z.compare_spec e (-52)) as [->|Hlt|Hgt]; try discriminate.
      - split; [|lia]. change (2 ^ (- -52)) with 4503599627370496.
        rewrite compare_cont_Eq, Pos2Z.inj_compare in Hle.
        destruct (Z.compare_spec (Zpos m) 4503599627370496); try discriminate; lia.
      - split; [|lia]. assert (2 ^ 53 <= 2 ^ (- e)) by (apply Z.pow_le_mono_r; lia). lia. }
    destruct Hunit as [Hunit He].
    unfold F64.mul, full_scale, SFmul. rewrite xorb_false_r.
    destruct (round_le_full_scale s (Zpos (m * 9006924376834048)) (e + -38))
      as (m2 & e2 & -> & Hm2 & He2 & Hb2); try lia.
    { replace (- (e + -38)) with (- e + 38) by lia. rewrite Z.pow_add_r by lia.
      change (2 ^ 38) with 274877906944. lia. }
    destruct m2 as [|p2|p2]; try lia.
    + exists 0. split; [reflexivity | lia].
    + unfold to_int16.
      replace (0 <=? e2) with false by (symmetry; apply Z.leb_gt; lia).
      assert (Hp : 0 < 2 ^ (- e2)) by (apply Z.pow_pos_nonneg; lia).
      assert (Ht : 0 <= Zpos p2 / 2 ^ (- e2) <= 32767).
      { split; [apply Z.div_pos; lia|]. apply Z.div_le_upper_bound; lia. }
      set (t := Zpos p2 / 2 ^ (- e2)) in *.
      exists (if s then - t else t).
      assert (Hr : -32767 <= (if s then - t else t) <= 32767) by (destruct s; lia).
      split; [|exact Hr].
      replace (-32768 <=? (if s then - t else t)) with true
        by (symmetry; apply Z.leb_le; lia).
      replace ((if s then - t else t) <=? 32767) with true
        by (symmetry; apply Z.leb_le; lia).
      reflexivity.
Qed.

(** X10. A sample of magnitude at most one is converted without
    overflow: its product with [32767.0], rounded to a [double] and
    truncated, is an [int16_t] between -32767 and 32767, so that the
    cast in [audio_feed_sample] is defined. *)
Theorem audio_feed_sample_defined sample p :
  in_unit_range sample ->
  (exists v, to_int16 (F64.mul sample full_scale) = Some v /\ -32767 <= v <= 32767) /\
  audio_feed_sample sample p <> Undefined.
Proof.
  intros Hu. pose proof (to_int16_in_unit_range sample Hu) as H.
  split; [exact H|]. destruct H as (v & Hv' & _).
  unfold audio_feed_sample. rewrite Hv'.
  destruct (_ =? _)%nat; [destruct (step _ _)|]; discriminate.
Qed.

Lemma audio_feed_sample_defined_witness :
  in_unit_range unit_sample /\
  to_int16 (F64.mul unit_sample full_scale) = Some 32767 /\
  audio_feed_sample unit_sample (audio_init [1; 2; 3; 4; 5]) <> Undefined.
Proof.
  assert (Hu : in_unit_range unit_sample) by (split; reflexivity).
  split; [exact Hu|]. split; [reflexivity|].
  apply (audio_feed_sample_defined unit_sample (audio_init [1; 2; 3; 4; 5]) Hu).
Defined.

(** * Starting the renderer *)

(** The two ways [start()] ends on a renderer without a context. *)
Lemma start_cases lib h :
  context h = 0 ->
  (no_error lib /\
   start lib h =
     (true, mkHandles (alcOpenDevice lib) (alcCreateContext lib) (alGenBuffers lib)
              (alGenSources lib) (S (threads h)))) \/
  (~ no_error lib /\
   exists d c g s,
     start lib h = (false, mkHandles d c g s (threads h)) /\
     (error_OpenDevice lib = 0 -> error_CreateContext lib = 0 ->
      c = alcCreateContext lib)).
Proof.
  intros Hc. unfold start, no_error, CHECK_ERRORS, pthread_create. rewrite Hc. simpl.
  repeat match goal with
  | |- context [?e =? 0] =>
      destruct (Z.eqb_spec e 0);
      [|right; split; [tauto | eexists _, _, _, _; split; [reflexivity | congruence]]]
  end.
  left. tauto.
Qed.

(** X11. [start()] on a renderer that has no context returns [true]
    exactly when none of the seven error checks sees an error, and it
    is then, and only then, that the playback thread is created. When
    the device was opened and a context was created but a later call
    fails, [start()] returns [false] with the context kept; from then
    on every [start()] returns [true] at once and changes nothing,
    whatever the library would answer: the failed start is never
    retried and the renderer is left without a playback thread. *)
Theorem start_is_not_retried lib h :
  context h = 0 ->
  (fst (start lib h) = true <-> no_error lib) /\
  (fst (start lib h) = true ->
   threads (snd (start lib h)) = S (threads h) /\
   generated (snd (start lib h)) = alGenBuffers lib) /\
  (fst (start lib h) = false -> threads (snd (start lib h)) = threads h) /\
  (fst (start lib h) = false ->
   error_OpenDevice lib = 0 -> error_CreateContext lib = 0 -> alcCreateContext lib <> 0 ->
   forall lib', start lib' (snd (start lib h)) = (true, snd (start lib h))).
Proof.
  intros Hc.
  destruct (start_cases lib h Hc) as [[Hok ->]|(Hno & d & c & g & s & -> & Hctx)]; simpl.
  - split; [tauto|]. split; [split; reflexivity|]. split; discriminate.
  - split; [split; [discriminate | contradiction]|].
    split; [discriminate|]. split; [reflexivity|].
    intros _ E1 E2 Hne lib'. rewrite (Hctx E1 E2). unfold start. simpl.
    destruct (Z.eqb_spec (alcCreateContext lib) 0); [contradiction | reflexivity].
Qed.

Lemma start_is_not_retried_witness :
  fst (start listener_fails constructed) = false /\
  threads (snd (start listener_fails constructed)) = 0%nat /\
  forall lib', fst (start lib' (snd (start listener_fails constructed))) = true /\
               threads (snd (start lib' (snd (start listener_fails constructed)))) = 0%nat.
Proof.
  split; [reflexivity|]. split; [reflexivity|]. intros lib'.
  destruct (start_is_not_retried listener_fails constructed eq_refl) as (_ & _ & _ & Hr).
  rewrite (Hr eq_refl eq_refl eq_refl ltac:(discriminate) lib'). split; reflexivity.
Defined.

(** * Reading a [float] from four bytes *)

Lemma float_of_bits_fields x :
  0 <= x < 2 ^ 32 ->
  let e := (x / 2 ^ 23) mod 256 in
  let m := x mod 2 ^ 23 in
  0 <= e < 256 /\ 0 <= m < 2 ^ 23 /\
  x = (if 2 ^ 31 <=? x then 2 ^ 31 else 0) + e * 2 ^ 23 + m.
Proof.
  intros Hx e m. subst e m. change (2 ^ 23) with 8388608. change (2 ^ 31) with 2147483648.
  change (2 ^ 32) with 4294967296 in Hx.
  destruct (Z.leb_spec 2147483648 x); Z.div_mod_to_equations; lia.
Qed.

Lemma float_of_bits_valid x :
  0 <= x < 2 ^ 32 -> valid_binary F32.prec F32.emax (float_of_bits x) = true.
Proof.
  intros Hx. destruct (float_of_bits_fields x Hx) as (He & Hm & _).
  unfold float_of_bits.
  set (e := (x / 2 ^ 23) mod 256) in *. set (m := x mod 2 ^ 23) in *.
  change (2 ^ 23) with 8388608 in *.
  destruct (Z.eqb_spec e 0) as [E0|E0].
  - destruct m as [|p|p] eqn:Em; try reflexivity. simpl.
    unfold bounded, canonical_mantissa. apply andb_true_intro. split; [|reflexivity].
    apply Z.eqb_eq. change (Zpos (digits2_pos p)) with (Zdigits2 (Zpos p)).
    pose proof (Zdigits2_le_bound (Zpos p) 23 ltac:(lia) ltac:(lia) ltac:(simpl; lia)).
    pose proof (Zdigits2_pos (Zpos p) ltac:(lia)).
    unfold fexp, emin, F32.prec, F32.emax. lia.
  - destruct (Z.eqb_spec e 255) as [E1|E1].
    + destruct (m =? 0); reflexivity.
    + destruct (m + 8388608) as [|p|p] eqn:Ep; try reflexivity. simpl.
      unfold bounded, canonical_mantissa. apply andb_true_intro. split.
      * apply Z.eqb_eq. change (Zpos (digits2_pos p)) with (Zdigits2 (Zpos p)).
        rewrite (Zdigits2_unique (Zpos p) 24) by (simpl; lia).
        unfold fexp, emin, F32.prec, F32.emax. lia.
      * apply Z.leb_le. unfold F32.prec, F32.emax. lia.
Qed.

Lemma float_of_bits_inj x y :
  0 <= x < 2 ^ 32 -> 0 <= y < 2 ^ 32 ->
  float_of_bits x = float_of_bits y -> float_of_bits x <> S754_nan -> x = y.
Proof.
  intros Hx Hy.
  destruct (float_of_bits_fields x Hx) as (Hex & Hmx & Ex).
  destruct (float_of_bits_fields y Hy) as (Hey & Hmy & Ey).
  unfold float_of_bits.
  set (ex := (x / 2 ^ 23) mod 256) in *. set (mx := x mod 2 ^ 23) in *.
  set (ey := (y / 2 ^ 23) mod 256) in *. set (my := y mod 2 ^ 23) in *.
  change (2 ^ 23) with 8388608 in *. change (2 ^ 31) with 2147483648 in *.
  set (sx := 2147483648 <=? x) in *. set (sy := 2147483648 <=? y) in *.
  assert (Hs : sx = sy -> ex = ey -> mx = my -> x = y).
  { intros E1 E2 E3. rewrite Ex, Ey, E1, E2, E3. reflexivity. }
  clearbody sx sy ex ey mx my. clear Ex Ey Hx Hy.
  assert (Hqx : exists qx, mx + 8388608 = Zpos qx)
    by (destruct (mx + 8388608) eqn:E; try lia; eauto).
  assert (Hqy : exists qy, my + 8388608 = Zpos qy)
    by (destruct (my + 8388608) eqn:E; try lia; eauto).
  destruct Hqx as [qx Hqx]. destruct Hqy as [qy Hqy]. rewrite Hqx, Hqy.
  destruct (Z.eqb_spec ex 0), (Z.eqb_spec ex 255), (Z.eqb_spec ey 0),
    (Z.eqb_spec ey 255); try lia.
  all: try (destruct (Z.eqb_spec mx 0)); try (destruct (Z.eqb_spec my 0)).
  all: intros Heq Hnan; try contradiction.
  all: try (destruct mx as [|px|px]); try (destruct my as [|py|py]).
  all: try discriminate Heq; try lia.
  all: injection Heq; intros; subst; apply Hs; first [reflexivity | lia].
Qed.

(** X12. [unpack_float] of four bytes is a [float] in the normal form
    of binary32, and no two byte sequences give the same number: when
    the result is not a NaN, it determines each of the four bytes. *)
Theorem unpack_float_faithful a b c d a' b' c' d' :
  byte a -> byte b -> byte c -> byte d ->
  byte a' -> byte b' -> byte c' -> byte d' ->
  valid_binary F32.prec F32.emax (unpack_float a b c d) = true /\
  (unpack_float a b c d = unpack_float a' b' c' d' ->
   unpack_float a b c d <> S754_nan ->
   a = a' /\ b = b' /\ c = c' /\ d = d').
Proof.
  unfold byte, unpack_float. intros Ha Hb Hc Hd Ha' Hb' Hc' Hd'.
  assert (Hx : 0 <= a + 256 * b + 65536 * c + 16777216 * d < 2 ^ 32)
    by (change (2 ^ 32) with 4294967296; lia).
  assert (Hy : 0 <= a' + 256 * b' + 65536 * c' + 16777216 * d' < 2 ^ 32)
    by (change (2 ^ 32) with 4294967296; lia).
  split; [exact (float_of_bits_valid _ Hx)|].
  intros Heq Hnan. pose proof (float_of_bits_inj _ _ Hx Hy Heq Hnan). lia.
Qed.

Lemma unpack_float_faithful_witness :
  unpack_float 0 0 128 63 = F32.one /\
  valid_binary F32.prec F32.emax (unpack_float 0 0 128 63) = true.
Proof.
  split; [reflexivity|].
  apply (unpack_float_faithful 0 0 128 63 0 0 128 63); unfold byte; lia.
Defined.

(** * The pipeline drains *)

Lemma source_runs_step names e sys sys' :
  length names = numBuffers ->
  leak sys -> pool names sys -> source_runs sys -> step e sys = Some sys' ->
  source_runs sys'.
Proof.
  intros Hlen Hl Hp Hr Hs. apply step_outside in Hs. destruct e.
  - destruct Hs as (frame & _ & _ & ->). exact Hr.
  - revert Hl Hp Hr Hs. unfold pool, source_runs. thread_cases sys; try discriminate.
    all: intros (_ & Hp & Hq) Hr H; injection H as <-; simpl in *;
         try discriminate; try (intros _ E; discriminate E); auto.
  - destruct Hs as (d & Hd & ->). revert Hp Hr Hd. unfold pool, source_runs, AL.play_one.
    explicit sys. simpl. destruct st; try discriminate.
    intros (_ & Hp & Hq) Hr H Hw. subst p.
    apply Permutation_length in Hq. rewrite Hlen in Hq. unfold numBuffers in Hq.
    destruct (Nat.ltb_spec dp (length dq)) as [Hlt|Hge]; injection H as <-; simpl.
    + intros E. discriminate E.
    + intros E. lia.
  - destruct Hs as (_ & ->). exact Hr.
Qed.

Lemma steady_step names rate channels e sys sys' :
  NoDup names -> length names = numBuffers -> channels = 1 \/ channels = 2 ->
  push_in_format rate channels e -> wait_succeeds e ->
  steady names rate channels sys -> step e sys = Some sys' ->
  steady names rate channels sys'.
Proof.
  intros Hnd Hlen Hc Hf Hw (Hl & Hh & Hp & Hs & Hr) Hstep.
  destruct (single_format_step names rate channels e sys sys' Hnd Hlen Hc Hf Hl
              (conj Hp Hs) Hstep) as [Hp' Hs'].
  split; [exact (leak_step e sys sys' Hl Hstep)|].
  split; [exact (healthy_step e sys sys' Hw Hl Hh Hstep)|].
  split; [exact Hp'|]. split; [exact Hs'|].
  exact (source_runs_step names e sys sys' Hlen Hl Hp Hr Hstep).
Qed.

(** With a frame in flight, a step of the thread brings the next
    submission nearer, unless the thread waits for a buffer and none is
    processed. *)
Lemma thread_progress names rate channels sys o :
  length names = numBuffers -> channels = 1 \/ channels = 2 ->
  steady names rate channels sys -> in_flight sys <> [] ->
  (thread sys = Wait -> AL.dev_processed (device (renderer sys)) <> 0%nat) ->
  thread_step 0 sys = o ->
  exists sys',
    o = Some sys' /\ (remaining sys' < remaining sys)%nat /\ pushed sys' = pushed sys.
Proof.
  intros Hlen Hc (Hl & Hh & Hp & Hs & _). revert Hl Hh Hp Hs.
  unfold pool, single_format, in_flight.
  thread_cases sys; simpl;
    intros Hh (Hb & Hdp & Hq) (Hpath & _ & _ & Hall & Hbuf & _) Hne Hproc;
    try discriminate Hh; try discriminate Hpath; try contradiction;
    try (exfalso; apply Hproc; reflexivity);
    try match goal with Hw : (0 =? 0) = false |- _ => discriminate Hw end.
  all: try match goal with
       | Hfmt : format_differs _ ?b ?f = true |- _ =>
           exfalso; apply Forall_cons in Hall; destruct Hall as [Hf _];
           destruct (Hbuf b (list_elem_of_here _ _)) as (fb & _ & Hfb & Hh');
           rewrite (same_format _ _ _ _ _ _ Hc Hf Hfb Hh') in Hfmt; discriminate
       end.
  all: try (apply Permutation_length in Hq; simpl in Hq; rewrite Hlen in Hq;
            unfold numBuffers in Hq; lia).
  all: intros <-; eexists; split; [reflexivity|]; split; [|reflexivity].
  all: unfold remaining, in_flight, distance; simpl; rewrite ?Hi; try lia.
  all: repeat match goal with
       | |- context [if ?c then _ else _] => destruct c
       | |- context [match ?n with O => _ | S _ => _ end] => destruct n
       end; lia.
Qed.

Lemma device_progress names rate channels sys :
  length names = numBuffers ->
  steady names rate channels sys ->
  thread sys = Wait -> AL.dev_processed (device (renderer sys)) = 0%nat ->
  exists sys',
    step EDevice sys = Some sys' /\ (remaining sys' < remaining sys)%nat /\
    pushed sys' = pushed sys.
Proof.
  intros Hlen (_ & _ & (_ & _ & Hq) & _ & Hr) Hw Hd. specialize (Hr Hw Hd).
  revert Hq Hr Hw Hd. explicit sys. simpl. intros Hq -> -> ->.
  apply Permutation_length in Hq. rewrite Hlen in Hq. unfold numBuffers in Hq.
  destruct dq as [|b dq]; [discriminate Hq|].
  eexists. split; [reflexivity|]. split; [|reflexivity].
  unfold remaining, in_flight, distance. simpl. lia.
Qed.

(** The frames in flight are submitted one after the other. *)
Lemma steady_drains names rate channels :
  NoDup names -> length names = numBuffers -> channels = 1 \/ channels = 2 ->
  forall n sys,
    (remaining sys <= n)%nat -> steady names rate channels sys ->
    exists es sys',
      Forall autonomous es /\ run es sys = Some sys' /\
      in_flight sys' = [] /\ pushed sys' = pushed sys.
Proof.
  intros Hnd Hlen Hc. induction n as [|n IH]; intros sys Hn Hst.
  - exists [], sys. split; [constructor|]. split; [reflexivity|]. split; [|reflexivity].
    unfold remaining in Hn. destruct (in_flight sys); [reflexivity | simpl in Hn; lia].
  - destruct (in_flight sys) as [|f fs] eqn:Hfl.
    { exists [], sys. split; [constructor|]. split; [reflexivity|]. auto. }
    assert (Hne : in_flight sys <> []) by (rewrite Hfl; discriminate).
    assert (Hstep : exists e sys1,
              autonomous e /\ step e sys = Some sys1 /\
              (remaining sys1 < remaining sys)%nat /\ pushed sys1 = pushed sys).
    { destruct (thread sys) eqn:Hpc;
        try (destruct (thread_progress names rate channels sys _ Hlen Hc Hst Hne
                         ltac:(rewrite Hpc; discriminate) eq_refl)
               as (sys1 & Hs & Hlt & Hpu);
             exists (EThread 0), sys1; split; [left; reflexivity|]; auto).
      destruct (AL.dev_processed (device (renderer sys))) eqn:Hdp.
      - destruct (device_progress names rate channels sys Hlen Hst Hpc Hdp)
          as (sys1 & Hs & Hlt & Hpu).
        exists EDevice, sys1. split; [right; reflexivity|]. auto.
      - destruct (thread_progress names rate channels sys _ Hlen Hc Hst Hne
                    ltac:(rewrite Hdp; discriminate) eq_refl)
          as (sys1 & Hs & Hlt & Hpu).
        exists (EThread 0), sys1. split; [left; reflexivity|]. auto. }
    destruct Hstep as (e & sys1 & He & Hs & Hlt & Hpu).
    assert (Hst1 : steady names rate channels sys1).
    { apply (steady_step names rate channels e sys sys1 Hnd Hlen Hc); try assumption.
      - destruct He as [-> | ->]; exact I.
      - destruct He as [-> | ->]; simpl; auto. }
    destruct (IH sys1 ltac:(lia) Hst1) as (es & sys' & Hes & Hrun & Hfl' & Hpu').
    exists (e :: es), sys'. split; [constructor; assumption|].
    split; [simpl; rewrite Hs; exact Hrun|]. split; [exact Hfl'|]. congruence.
Qed.

Lemma steady_run names rate channels es sys :
  NoDup names -> length names = numBuffers -> channels = 1 \/ channels = 2 ->
  Forall (push_in_format rate channels) es -> Forall wait_succeeds es ->
  run es (boot names) = Some sys -> steady names rate channels sys.
Proof.
  intros Hnd Hlen Hc Hf Hw Hrun.
  assert (Hall : Forall (fun e => push_in_format rate channels e /\ wait_succeeds e) es).
  { rewrite Forall_forall in *. auto. }
  destruct (invariant_run (steady names rate channels)
              (fun e => push_in_format rate channels e /\ wait_succeeds e)
              (fun e s s' He _ Hst =>
                 steady_step names rate channels e s s' Hnd Hlen Hc (proj1 He) (proj2 He) Hst)
              es (boot names) sys Hall (leak_boot names)) as [_ Hst]; try assumption.
  split; [apply leak_boot|]. split; [reflexivity|]. split; [apply pool_boot|].
  split; [apply single_format_boot|]. intros H. discriminate H.
Qed.

Lemma run_app es1 : forall es2 sys sys1,
  run es1 sys = Some sys1 -> run (es1 ++ es2) sys = run es2 sys1.
Proof.
  induction es1 as [|e es1 IH]; intros es2 sys sys1; simpl.
  - intros H. injection H as ->. reflexivity.
  - destruct (step e sys); [|discriminate]. simpl. apply IH.
Qed.

(** X13. The pipeline drains. From every state of a run in one format
    without a failed wait, the playback thread and the device alone,
    without any further push, reach a state in which every frame pushed
    has been submitted to the device, in the order of the pushes: the
    queue is empty and the thread holds no frame. No frame stays
    behind in the queue for lack of a step the thread or the device
    could take. *)
Theorem pipeline_drains names rate channels es sys :
  NoDup names -> length names = numBuffers -> channels = 1 \/ channels = 2 ->
  Forall (push_in_format rate channels) es -> Forall wait_succeeds es ->
  run es (boot names) = Some sys ->
  exists es' sys',
    Forall autonomous es' /\ run es' sys = Some sys' /\
    audioQueue (renderer sys') = [] /\ pending (thread sys') = [] /\
    snd <$> consumed sys' = pushed sys.
Proof.
  intros Hnd Hlen Hc Hf Hw Hrun.
  pose proof (steady_run names rate channels es sys Hnd Hlen Hc Hf Hw Hrun) as Hst.
  destruct (steady_drains names rate channels Hnd Hlen Hc (remaining sys) sys
              (Nat.le_refl _) Hst) as (es' & sys' & Hes & Hrun' & Hfl & Hpu).
  exists es', sys'. split; [exact Hes|]. split; [exact Hrun'|].
  unfold in_flight in Hfl. apply app_eq_nil in Hfl. destruct Hfl as [Hpe Hq].
  split; [exact Hq|]. split; [exact Hpe|].
  assert (Hfifo : fifo sys').
  { apply (fifo_run (es ++ es') (boot names)); [split; reflexivity|].
    rewrite (run_app es es' _ _ Hrun). exact Hrun'. }
  destruct Hfifo as [Hp _]. rewrite Hpe, Hq, !app_nil_r in Hp. congruence.
Qed.

Lemma pipeline_drains_witness :
  exists sys es' sys',
    run three_queued (boot [1; 2; 3; 4; 5]) = Some sys /\
    length (audioQueue (renderer sys)) = 3%nat /\
    Forall autonomous es' /\ run es' sys = Some sys' /\
    audioQueue (renderer sys') = [] /\
    snd <$> consumed sys' = pushed sys.
Proof.
  assert (Hnd : NoDup [1; 2; 3; 4; 5])
    by (apply NoDup_ListNoDup; repeat constructor; simpl; lia).
  assert (Hf : Forall (push_in_format 44100 1) three_queued).
  { unfold three_queued. repeat constructor; unfold Int32.max_int; lia. }
  assert (Hw : Forall wait_succeeds three_queued).
  { unfold three_queued. repeat constructor. }
  assert (H : exists sys,
            run three_queued (boot [1; 2; 3; 4; 5]) = Some sys /\
            length (audioQueue (renderer sys)) = 3%nat).
  { eexists. split; [vm_compute; reflexivity | reflexivity]. }
  destruct H as (sys & Hrun & Hq).
  destruct (pipeline_drains [1; 2; 3; 4; 5] 44100 1 three_queued sys
              Hnd eq_refl (or_introl eq_refl) Hf Hw Hrun)
    as (es' & sys' & Hes & Hrun' & Hq' & _ & Hco).
  exists sys, es', sys'. repeat (split; [assumption|]). exact Hco.
Defined.

(** * When [audio_feed_sample] returns *)

(** X14. For a sample of magnitude at most one, [audio_feed_sample]
    returns whenever the mutex is free, which it is in every state of
    the program reached without a failed wait. Once a failed wait has
    left the mutex locked, the call still returns while it only adds to
    [prebuffer], and the call that completes a frame of 1024 samples
    waits for the mutex. *)
Theorem audio_feed_sample_returns_or_waits names es p sample :
  c_run es (audio_init names) = Some p ->
  in_unit_range sample ->
  (Forall c_wait_succeeds es -> mutex (renderer (audioRenderer p)) = false) /\
  (mutex (renderer (audioRenderer p)) = false \/ length (prebuffer p) <> 1023%nat ->
   exists p', audio_feed_sample sample p = Returns p') /\
  (mutex (renderer (audioRenderer p)) = true -> length (prebuffer p) = 1023%nat ->
   audio_feed_sample sample p = Waits).
Proof.
  intros Hrun Hu.
  destruct (c_run_system es _ _ Hrun) as (es' & Hr & _ & _ & Hw'). simpl in Hr.
  split.
  { intros Hw. apply (healthy_invariant names es' _ (Hw' Hw) Hr). }
  destruct (to_int16_in_unit_range sample Hu) as (v & Hv & _).
  unfold audio_feed_sample. rewrite Hv. rewrite length_app. simpl length.
  assert (Hpush : forall data,
            step (EPush data 1024 44100 1) (audioRenderer p) =
            if mutex (renderer (audioRenderer p)) then None
            else Some (mkSystem
                         (mkRenderer
                            (audioQueue (renderer (audioRenderer p)) ++
                             [mkFrame 1024 44100 1 (take 1024 data)])
                            (Int32.add (queuedSampleCount (renderer (audioRenderer p))) 1024)
                            (bufferedSampleCount (renderer (audioRenderer p)))
                            (secondsPlayed (renderer (audioRenderer p)))
                            (buffers (renderer (audioRenderer p))) false
                            (device (renderer (audioRenderer p))))
                         (thread (audioRenderer p))
                         (pushed (audioRenderer p) ++
                          [mkFrame 1024 44100 1 (take 1024 data)])
                         (consumed (audioRenderer p)))).
  { intros data. unfold step.
    assert (Hf : newFrame data 1024 44100 1 = Some (mkFrame 1024 44100 1 (take 1024 data)))
      by reflexivity.
    rewrite Hf. destruct (mutex (renderer (audioRenderer p))) eqn:Hm.
    - unfold pushFrame. rewrite Hf. unfold pthread_mutex_lock, mbind, M_bind.
      rewrite Hm. reflexivity.
    - rewrite (pushFrame_ok _ _ _ _ _ _ Hf Hm). reflexivity. }
  rewrite Hpush. split.
  - intros [Hm|Hl].
    + rewrite Hm. destruct (_ =? _)%nat; eauto.
    + destruct (Nat.eqb_spec (length (prebuffer p) + 1) 1024); [lia | eauto].
  - intros Hm Hl. rewrite Hm, Hl. reflexivity.
Qed.

Lemma audio_feed_sample_returns_or_waits_witness :
  exists p,
    c_run wait_fails (audio_init [1; 2; 3; 4; 5]) = Some p /\
    length (prebuffer p) = 1023%nat /\
    audio_feed_sample unit_sample p = Waits.
Proof.
  assert (Hu : in_unit_range unit_sample) by (split; reflexivity).
  assert (H : exists p,
            c_run wait_fails (audio_init [1; 2; 3; 4; 5]) = Some p /\
            length (prebuffer p) = 1023%nat /\
            mutex (renderer (audioRenderer p)) = true).
  { eexists. split; [vm_compute; reflexivity|]. split; reflexivity. }
  destruct H as (p & Hrun & Hl & Hm). exists p.
  split; [exact Hrun|]. split; [exact Hl|].
  destruct (audio_feed_sample_returns_or_waits [1; 2; 3; 4; 5] wait_fails p unit_sample
              Hrun Hu) as (_ & _ & Hwait).
  exact (Hwait Hm Hl).
Defined.
